(** * FBSNNs: forward-backward stochastic neural networks

    A shallow embedding of [FBSNNs.py]: the tensor operations the file calls
    (broadcasting arithmetic, [tf.matmul], [tf.squeeze], [tf.reduce_sum],
    slicing, [tf.tile], [tf.concat], [tf.stack], [np.cumsum]), the BSDE
    stepper [loss_function], the path simulator [fetch_minibatch], and the
    entry points [train] and [predict].

    Tensors are row-major buffers with a shape, as in the numeric engine.
    Scalars are an abstract type with the arithmetic the code uses; the
    algebraic laws a result needs are stated where it needs them. *)

From Stdlib Require Import List Arith Lia Bool ZArith.
From Corelib Require Import PrimFloat.
Import ListNotations.

Set Implicit Arguments.

(** ** Scalars *)

Class Scalar (R : Type) := {
  zero : R;
  one : R;
  add : R -> R -> R;
  sub : R -> R -> R;
  mul : R -> R -> R;
  div : R -> R -> R;
  of_nat : nat -> R
}.

(** ** Errors raised by the interpreter and the numeric engine *)

Inductive error :=
| ShapeError          (* incompatible shapes: InvalidArgumentError / ValueError *)
| IndexError          (* slice index out of bounds *)
| UnboundLocalError   (* local variable referenced before assignment *)
| ZeroDivisionError
| ValueError.         (* None where a tensor is expected; a refused width *)

Inductive result (A : Type) :=
| Ok (a : A)
| Err (e : error).

Arguments Ok {A} a.
Arguments Err {A} e.

Definition bind {A B} (m : result A) (k : A -> result B) : result B :=
  match m with
  | Ok a => k a
  | Err e => Err e
  end.

Notation "x <- m ;; k" := (bind m (fun x => k))
  (at level 61, m at next level, right associativity).
Notation "' p <- m ;; k" := (bind m (fun p => k))
  (at level 61, p pattern, m at next level, right associativity).

(** ** Shapes and row-major indexing *)

Definition prod_shape (s : list nat) : nat := fold_right Nat.mul 1 s.

Fixpoint ravel (s idx : list nat) : nat :=
  match s, idx with
  | _ :: s', i :: idx' => i * prod_shape s' + ravel s' idx'
  | _, _ => 0
  end.

Fixpoint unravel (s : list nat) (k : nat) : list nat :=
  match s with
  | [] => []
  | _ :: s' => k / prod_shape s' :: unravel s' (k mod prod_shape s')
  end.

Definition in_range (s idx : list nat) : Prop := Forall2 lt idx s.

(** Broadcasting of two dimensions, and of two shapes aligned on the right. *)
Definition bdim (a b : nat) : option nat :=
  if a =? b then Some a
  else if a =? 1 then Some b
  else if b =? 1 then Some a
  else None.

Fixpoint bshape_rev (ra rb : list nat) : option (list nat) :=
  match ra, rb with
  | [], _ => Some rb
  | _, [] => Some ra
  | a :: ra', b :: rb' =>
      match bdim a b, bshape_rev ra' rb' with
      | Some d, Some r => Some (d :: r)
      | _, _ => None
      end
  end.

Definition broadcast_shapes (sa sb : list nat) : option (list nat) :=
  option_map (@rev nat) (bshape_rev (rev sa) (rev sb)).

Fixpoint clip (s idx : list nat) : list nat :=
  match s, idx with
  | d :: s', i :: idx' => (if d =? 1 then 0 else i) :: clip s' idx'
  | _, _ => []
  end.

(** Index into an operand of shape [s] for the index [idx] of the broadcast
    result: the leading dimensions the operand lacks are dropped and a
    dimension of size 1 is read at 0. *)
Definition bidx (s idx : list nat) : list nat :=
  clip s (skipn (length idx - length s) idx).

Section Tensors.

Context {R : Type} {SR : Scalar R}.

Record tensor := mkT { shape : list nat; data : list R }.

Definition size (a : tensor) : nat := prod_shape (shape a).

Definition get (a : tensor) (idx : list nat) : R :=
  nth (ravel (shape a) idx) (data a) zero.

Definition build (s : list nat) (f : list nat -> R) : tensor :=
  mkT s (map (fun k => f (unravel s k)) (seq 0 (prod_shape s))).

Definition scalar (x : R) : tensor := mkT [] [x].

Definition item (a : tensor) : R := nth 0 (data a) zero.

Definition zeros (s : list nat) : tensor := build s (fun _ => zero).

(** Sequential sum [((0 + f 0) + f 1) + ...]. *)
Definition sumn (n : nat) (f : nat -> R) : R :=
  fold_left (fun acc k => add acc (f k)) (seq 0 n) zero.

(** *** Elementwise arithmetic with broadcasting *)

Definition broadcast (f : R -> R -> R) (a b : tensor) : result tensor :=
  match broadcast_shapes (shape a) (shape b) with
  | Some s =>
      Ok (build s (fun idx => f (get a (bidx (shape a) idx))
                                (get b (bidx (shape b) idx))))
  | None => Err ShapeError
  end.

Definition tadd := broadcast add.
Definition tsub := broadcast sub.
Definition tmul := broadcast mul.

Definition square (a : tensor) : tensor :=
  mkT (shape a) (map (fun x => mul x x) (data a)).

(** *** Reductions *)

(** [tf.reduce_sum(a)]: the sum of all entries, a rank-0 tensor. *)
Definition reduce_sum (a : tensor) : tensor :=
  scalar (sumn (size a) (fun k => nth k (data a) zero)).

(** [tf.reduce_sum(a, axis=1, keepdims=True)]. *)
Definition reduce_sum_axis1_keepdims (a : tensor) : result tensor :=
  match shape a with
  | d0 :: d1 :: s' =>
      Ok (build (d0 :: 1 :: s')
            (fun idx =>
               match idx with
               | i0 :: _ :: idx' => sumn d1 (fun k => get a (i0 :: k :: idx'))
               | _ => zero
               end))
  | _ => Err ShapeError
  end.

(** *** Reshaping *)

(** [tf.expand_dims(a, -1)]. *)
Definition expand_dims_last (a : tensor) : tensor :=
  mkT (shape a ++ [1]) (data a).

(** [tf.squeeze(a, axis=[-1])]: the last dimension must have size 1. *)
Definition squeeze_last (a : tensor) : result tensor :=
  match rev (shape a) with
  | 1 :: r => Ok (mkT (rev r) (data a))
  | _ => Err ShapeError
  end.

(** [tf.squeeze(a)]: every dimension of size 1 is removed. *)
Definition squeeze (a : tensor) : tensor :=
  mkT (filter (fun d => negb (d =? 1)) (shape a)) (data a).

(** *** Batched matrix product *)

(** [tf.matmul(a, b)] for [a : batch ++ [n; k]] and [b : batch' ++ [k; p]];
    the batch dimensions broadcast. *)
Definition matmul (a b : tensor) : result tensor :=
  match rev (shape a), rev (shape b) with
  | k :: n :: ra, p :: k' :: rb =>
      if k =? k' then
        match bshape_rev ra rb with
        | Some rbatch =>
            let batch := rev rbatch in
            Ok (build (batch ++ [n; p])
                  (fun idx =>
                     let bi := firstn (length batch) idx in
                     let i := nth (length batch) idx 0 in
                     let j := nth (S (length batch)) idx 0 in
                     sumn k (fun l =>
                       mul (get a (bidx (rev ra) bi ++ [i; l]))
                           (get b (bidx (rev rb) bi ++ [l; j])))))
        | None => Err ShapeError
        end
      else Err ShapeError
  | _, _ => Err ShapeError
  end.

(** *** Slicing, tiling, concatenation, stacking *)

(** [a[:, n, :]] on a rank-3 tensor. *)
Definition slice1 (a : tensor) (n : nat) : result tensor :=
  match shape a with
  | [d0; d1; d2] =>
      if n <? d1 then
        Ok (build [d0; d2]
              (fun idx => get a [nth 0 idx 0; n; nth 1 idx 0]))
      else Err IndexError
  | _ => Err ShapeError
  end.

(** [tf.tile(a, [m, 1])] on a rank-2 tensor. *)
Definition tile_rows (a : tensor) (m : nat) : result tensor :=
  match shape a with
  | [r; c] =>
      Ok (build [r * m; c]
            (fun idx => get a [nth 0 idx 0 mod r; nth 1 idx 0]))
  | _ => Err ShapeError
  end.

(** [tf.concat([a, b], 1)] on rank-2 tensors. *)
Definition concat1 (a b : tensor) : result tensor :=
  match shape a, shape b with
  | [ra; ca], [rb; cb] =>
      if ra =? rb then
        Ok (build [ra; ca + cb]
              (fun idx =>
                 let i := nth 0 idx 0 in
                 let j := nth 1 idx 0 in
                 if j <? ca then get a [i; j] else get b [i; j - ca]))
      else Err ShapeError
  | _, _ => Err ShapeError
  end.

Definition list_eqb (s s' : list nat) : bool :=
  if list_eq_dec Nat.eq_dec s s' then true else false.

(** [tf.stack(l, axis=1)]: all tensors of one shape, of rank at least 1. *)
Definition stack1 (l : list tensor) : result tensor :=
  match l with
  | [] => Err ShapeError
  | a :: _ =>
      match shape a with
      | d0 :: s' =>
          if forallb (fun b => list_eqb (shape b) (shape a)) l then
            Ok (build (d0 :: length l :: s')
                  (fun idx =>
                     match idx with
                     | i0 :: n :: idx' => get (nth n l a) (i0 :: idx')
                     | _ => zero
                     end))
          else Err ShapeError
      | [] => Err ShapeError
      end
  end.

(** [a[0,0,0]] on a rank-3 tensor. *)
Definition index000 (a : tensor) : result tensor :=
  match shape a with
  | [S _; S _; S _] => Ok (scalar (get a [0; 0; 0]))
  | [_; _; _] => Err IndexError
  | _ => Err ShapeError
  end.

(** A tensor whose buffer has as many entries as its shape says. *)
Definition wf (a : tensor) : Prop := length (data a) = size a.

(** A function applied to every entry. *)
Definition tmap (f : R -> R) (a : tensor) : tensor :=
  mkT (shape a) (map f (data a)).

(** What [tf.reduce_sum(Z0 * tf.squeeze(p), axis=1, keepdims=True)] computes
    for [Z0 : m x d] and [p : m x d x 1].  [tf.squeeze] without an axis also
    removes the batch dimension when [m = 1] and the spatial dimension when
    [d = 1]; in the latter case with [m >= 2] the product broadcasts to
    [m x m] and the sum runs over the trajectories. *)
Definition inner_value (Z0 p : tensor) (m d i : nat) : R :=
  if (d =? 1) && negb (m =? 1)
  then sumn m (fun k => mul (get Z0 [i; 0]) (get p [k; 0; 0]))
  else sumn d (fun j => mul (get Z0 [i; j]) (get p [i; j; 0])).

End Tensors.

Arguments tensor R : clear implicits.

(** ** The numeric engine and the problem definition *)

(** What the code takes from TensorFlow, NumPy and the clock.  [P] is the
    state of the network: its layers with the variables they hold.  A call
    of the network returns its output and the network as the call leaves it
    (Keras creates the variables of a layer when the layer is first called).
    Then reverse-mode differentiation with respect to a watched input and
    with respect to the trainable variables, the optimizer, the conversion of
    a number to [float32], the random source and the wall clock. *)
Class Engine (R : Type) := {
  P : Type;
  model_call : P -> tensor R -> result (tensor R * P);
  tape_gradient : (tensor R -> result (tensor R)) -> tensor R -> result (tensor R);
  G : Type;
  param_gradient : (P -> result (tensor R)) -> P -> result G;
  Opt : Type;
  set_learning_rate : R -> Opt -> Opt;
  apply_gradients : Opt -> G -> P -> Opt * P;
  cast_float32 : R -> R;
  Rng : Type;
  random_normal : list nat -> Rng -> tensor R * Rng;
  np_sqrt : R -> R;
  wall : nat -> R
}.

(** The four abstract methods a subclass of [FBSNN] supplies, as they are
    bound to one object.  [g_on_tape] tells whether [g_tf] computes its result
    from its argument with operations the gradient tape records: the tape has
    a gradient of [g] with respect to [X] only then, and returns [None]
    otherwise (a [g_tf] that returns a constant, for instance). *)
Class Problem (R : Type) := {
  phi_tf : tensor R -> tensor R -> tensor R -> tensor R -> result (tensor R);
  g_tf : tensor R -> result (tensor R);
  g_on_tape : bool;
  mu_tf : tensor R -> tensor R -> tensor R -> tensor R -> result (tensor R);
  sigma_tf : tensor R -> tensor R -> tensor R -> result (tensor R)
}.

Section FBSNN.

Context {R : Type} {SR : Scalar R} {E : Engine R} {PB : Problem R}.

Local Abbreviation tensor := (tensor R).

Record FBSNN := mkFBSNN {
  Xi : tensor;      (* initial point *)
  T : R;            (* terminal time *)
  M : nat;          (* number of trajectories *)
  N : nat;          (* number of time snapshots *)
  D : nat;          (* number of dimensions *)
  model : P;        (* the network *)
  optimizer : Opt
}.

(** Bodies of the base class for [mu_tf] and [sigma_tf]. *)
Definition mu_tf_base (self : FBSNN) : tensor := zeros [M self; D self].

Definition sigma_tf_base (self : FBSNN) : tensor :=
  build [M self; D self; D self]
    (fun idx => if nth 1 idx 0 =? nth 2 idx 0 then one else zero).

(** [net_u]: the network on [concat([t, X], 1)] and the gradient of its
    output with respect to the watched [X].  Of the object the method uses
    [self.model] only: [p] is the network before the call, and the network
    the call leaves is returned with the two results.  The tape differentiates
    the computation that ran, on the variables the network holds after the
    call. *)
Definition net_u (p : P) (t X : tensor) : result (tensor * tensor * P) :=
  c <- concat1 t X ;;
  '(u, p') <- model_call p c ;;
  Du <- tape_gradient
          (fun X' => c' <- concat1 t X' ;;
                     '(u', _) <- model_call p' c' ;; Ok u') X ;;
  Ok (u, Du, p').

(** [Dg_tf]: the gradient of [g_tf] with respect to the watched [X], or
    [None] when the tape holds no path from [X] to the result. *)
Definition Dg_tf (X : tensor) : result (option tensor) :=
  g <- g_tf X ;;
  if g_on_tape then Dg <- tape_gradient g_tf X ;; Ok (Some Dg)
  else Ok None.

(** The local variables of [loss_function]; [X1], [Y1], [Z1] are bound by the
    loop body only.  [self_model] is the attribute [self.model] as the calls
    made so far have left it. *)
Record locals := mkLocals {
  t0 : tensor; W0 : tensor; X0 : tensor; Y0 : tensor; Z0 : tensor;
  loss : tensor;
  X_list : list tensor;
  Y_list : list tensor;
  X1 : option tensor; Y1 : option tensor; Z1 : option tensor;
  self_model : P
}.

Definition lookup (v : option tensor) : result tensor :=
  match v with
  | Some a => Ok a
  | None => Err UnboundLocalError
  end.

(** An operand of a tensor operation: [None] is refused. *)
Definition operand (v : option tensor) : result tensor :=
  match v with
  | Some a => Ok a
  | None => Err ValueError
  end.

(** Right-hand side of the assignment to [X1] (line 78); the product with
    [sigma_tf] is squeezed on its last axis. *)
Definition X1_expr (t0 W0 X0 Y0 Z0 t1 W1 : tensor) : result tensor :=
  m <- mu_tf t0 X0 Y0 Z0 ;;
  dt <- tsub t1 t0 ;;
  mdt <- tmul m dt ;;
  a <- tadd X0 mdt ;;
  s <- sigma_tf t0 X0 Y0 ;;
  dW <- tsub W1 W0 ;;
  p <- matmul s (expand_dims_last dW) ;;
  q <- squeeze_last p ;;
  tadd a q.

(** Right-hand side of the assignment to [Y1_tilde] (line 79); here
    [tf.squeeze] is called without an axis. *)
Definition Y1_tilde_expr (t0 W0 X0 Y0 Z0 t1 W1 : tensor) : result tensor :=
  f <- phi_tf t0 X0 Y0 Z0 ;;
  dt <- tsub t1 t0 ;;
  fdt <- tmul f dt ;;
  a <- tadd Y0 fdt ;;
  s <- sigma_tf t0 X0 Y0 ;;
  dW <- tsub W1 W0 ;;
  p <- matmul s (expand_dims_last dW) ;;
  zp <- tmul Z0 (squeeze p) ;;
  r <- reduce_sum_axis1_keepdims zp ;;
  tadd a r.

(** One pass of the loop body for the step index [n]. *)
Definition body (t W : tensor) (n : nat) (st : locals) : result locals :=
  t1 <- slice1 t (n + 1) ;;
  W1 <- slice1 W (n + 1) ;;
  x1 <- X1_expr (t0 st) (W0 st) (X0 st) (Y0 st) (Z0 st) t1 W1 ;;
  y1_tilde <- Y1_tilde_expr (t0 st) (W0 st) (X0 st) (Y0 st) (Z0 st) t1 W1 ;;
  '(y1, z1, p) <- net_u (self_model st) t1 x1 ;;
  d <- tsub y1 y1_tilde ;;
  loss' <- tadd (loss st) (reduce_sum (square d)) ;;
  Ok (mkLocals t1 W1 x1 y1 z1 loss'
        (X_list st ++ [x1]) (Y_list st ++ [y1])
        (Some x1) (Some y1) (Some z1) p).

Fixpoint loop (t W : tensor) (ns : list nat) (st : locals) : result locals :=
  match ns with
  | [] => Ok st
  | n :: ns' => st' <- body t W n st ;; loop t W ns' st'
  end.

(** The statements before the loop. *)
Definition prelude (self : FBSNN) (t W Xi : tensor) : result locals :=
  t0 <- slice1 t 0 ;;
  W0 <- slice1 W 0 ;;
  X0 <- tile_rows Xi (M self) ;;
  '(Y0, Z0, p) <- net_u (model self) t0 X0 ;;
  Ok (mkLocals t0 W0 X0 Y0 Z0 (scalar zero) [X0] [Y0] None None None p).

(** The statements after the loop.  When [Dg_tf] returns [None] the
    subtraction of line 94 raises. *)
Definition epilogue (st : locals)
  : result (tensor * tensor * tensor * tensor) :=
  y1 <- lookup (Y1 st) ;;
  x1 <- lookup (X1 st) ;;
  gX <- g_tf x1 ;;
  dY <- tsub y1 gX ;;
  loss1 <- tadd (loss st) (reduce_sum (square dY)) ;;
  z1 <- lookup (Z1 st) ;;
  x1' <- lookup (X1 st) ;;
  DgX <- Dg_tf x1' ;;
  DgX' <- operand DgX ;;
  dZ <- tsub z1 DgX' ;;
  loss2 <- tadd loss1 (reduce_sum (square dZ)) ;;
  X <- stack1 (X_list st) ;;
  Y <- stack1 (Y_list st) ;;
  y000 <- index000 Y ;;
  Ok (loss2, X, Y, y000).

(** The locals after the first [k] passes of the loop. *)
Definition run (self : FBSNN) (t W Xi : tensor) (k : nat) : result locals :=
  st <- prelude self t W Xi ;; loop t W (seq 0 k) st.

(** The object with another optimizer and network. *)
Definition with_model (self : FBSNN) (o : Opt) (p : P) : FBSNN :=
  mkFBSNN (Xi self) (T self) (M self) (N self) (D self) p o.

(** [loss_function]: returns the loss, the stacked states and values, and
    [Y[0,0,0]]; the fifth component is the object after the call, which holds
    the network as the calls of [net_u] have left it. *)
Definition loss_function (self : FBSNN) (t W Xi : tensor)
  : result (tensor * tensor * tensor * tensor * FBSNN) :=
  st <- run self t W Xi (N self) ;;
  '(loss, X, Y, y000) <- epilogue st ;;
  Ok (loss, X, Y, y000, with_model self (optimizer self) (self_model st)).

(** *** fetch_minibatch *)

(** [a[:, 1:, :] = v] on a rank-3 array; [v] broadcasts to the slice. *)
Definition assign_from1 (a v : tensor) : result tensor :=
  match shape a with
  | [d0; d1; d2] =>
      match broadcast_shapes (shape v) [d0; d1 - 1; d2] with
      | Some s =>
          if list_eqb s [d0; d1 - 1; d2] then
            Ok (build (shape a)
                  (fun idx =>
                     match idx with
                     | [i; n; j] =>
                         if n =? 0 then get a idx
                         else get v (bidx (shape v) [i; n - 1; j])
                     | _ => zero
                     end))
          else Err ShapeError
      | None => Err ShapeError
      end
  | _ => Err ShapeError
  end.

(** [np.cumsum(a, axis=1)]: [out[0] = a[0]], [out[n] = out[n-1] + a[n]]. *)
Fixpoint cum (f : nat -> R) (n : nat) : R :=
  match n with
  | 0 => f 0
  | S n' => add (cum f n') (f n)
  end.

(** The sum that [cumsum] reaches at index [n] on an array that holds [0] at
    index 0 and [dt] at every later index: [dt] added [n] times to [0], one
    addition after the other. *)
Fixpoint accumulated (dt : R) (n : nat) : R :=
  match n with
  | 0 => zero
  | S n' => add (accumulated dt n') dt
  end.

Definition cumsum1 (a : tensor) : tensor :=
  build (shape a)
    (fun idx =>
       match idx with
       | i :: n :: idx' => cum (fun k => get a (i :: k :: idx')) n
       | _ => zero
       end).

(** [fetch_minibatch]; [T / N] raises for [N = 0]. *)
Definition fetch_minibatch (self : FBSNN) (rng : Rng)
  : result (tensor * tensor * Rng) :=
  let Dt := zeros [M self; N self + 1; 1] in
  let DW := zeros [M self; N self + 1; D self] in
  dt <- (if N self =? 0 then Err ZeroDivisionError
         else Ok (div (T self) (of_nat (N self)))) ;;
  Dt' <- assign_from1 Dt (scalar dt) ;;
  let (z, rng') := random_normal [M self; N self; D self] rng in
  v <- tmul (scalar (np_sqrt dt)) z ;;
  DW' <- assign_from1 DW v ;;
  Ok (cumsum1 Dt', cumsum1 DW', rng').

(** *** train and predict *)

(** A line printed by [train]. *)
Record report := mkReport {
  r_it : nat; r_loss : R; r_Y0 : R; r_time : R; r_lr : R
}.

(** The object together with what its methods act on: the random source,
    the clock (number of readings so far), the console, and the number of
    optimizer steps applied. *)
Record World := mkWorld {
  obj : FBSNN;
  rng : Rng;
  ticks : nat;
  stdout : list report;
  updates : nat
}.

Definition time_time (w : World) : R * World :=
  (wall (ticks w),
   mkWorld (obj w) (rng w) (S (ticks w)) (stdout w) (updates w)).

(** [tf.convert_to_tensor(a, dtype=tf.float32)]. *)
Definition convert_to_tensor (a : tensor) : tensor := tmap cast_float32 a.

(** The loss recorded on the tape, as a function of the trainable variables. *)
Definition loss_of (self : FBSNN) (t W Xi : tensor) (p : P) : result tensor :=
  '(l, _, _, _, _) <-
    loss_function (with_model self (optimizer self) p) t W Xi ;;
  Ok l.

(** One pass of the training loop; [start_time] is threaded with the world.
    The gradients are taken at the variables the network holds after the
    evaluation of the loss. *)
Definition train_iter (learning_rate : R) (it : nat) (sw : R * World)
  : result (R * World) :=
  let (start_time, w) := sw in
  let self := obj w in
  '(t_batch, W_batch, rng') <- fetch_minibatch self (rng w) ;;
  let t_batch := convert_to_tensor t_batch in
  let W_batch := convert_to_tensor W_batch in
  let Xi_ := convert_to_tensor (Xi self) in
  '(loss, _, _, Y0_pred, self1) <- loss_function self t_batch W_batch Xi_ ;;
  gradients <-
    param_gradient (loss_of self1 t_batch W_batch Xi_) (model self1) ;;
  let (o', p') := apply_gradients (optimizer self1) gradients (model self1) in
  let self2 := with_model self1 o' p' in
  let w1 := mkWorld self2 rng' (ticks w) (stdout w) (S (updates w)) in
  if it mod 10 =? 0 then
    let (now, w2) := time_time w1 in
    let elapsed := sub now start_time in
    '(_, _, _, Y0_value, self3) <-
      loss_function self2 t_batch W_batch Xi_ ;;
    let line := mkReport it (item loss) (item Y0_value) elapsed learning_rate in
    let w3 := mkWorld self3 (rng w2) (ticks w2) (stdout w2 ++ [line])
                (updates w2) in
    let (start_time', w4) := time_time w3 in
    Ok (start_time', w4)
  else Ok (start_time, w1).

Fixpoint train_loop (learning_rate : R) (its : list nat) (sw : R * World)
  : result (R * World) :=
  match its with
  | [] => Ok sw
  | it :: its' =>
      sw' <- train_iter learning_rate it sw ;;
      train_loop learning_rate its' sw'
  end.

(** [train]: sets the learning rate, reads the clock, runs [N_Iter]
    iterations. *)
Definition train (N_Iter : nat) (learning_rate : R) (w : World)
  : result World :=
  let self := obj w in
  let self0 := with_model self
                 (set_learning_rate learning_rate (optimizer self))
                 (model self) in
  let w0 := mkWorld self0 (rng w) (ticks w) (stdout w) (updates w) in
  let (start_time, w1) := time_time w0 in
  sw <- train_loop learning_rate (seq 0 N_Iter) (start_time, w1) ;;
  Ok (snd sw).

(** [predict]: the three inputs are converted to [float32] tensors, the
    stepper is evaluated once, and the state and value trajectories are
    returned (as arrays with the entries of the tensors).  The world returned
    holds the object as the evaluation has left it. *)
Definition predict (Xi_star t_star W_star : tensor) (w : World)
  : result (tensor * tensor * World) :=
  let Xi_star := convert_to_tensor Xi_star in
  let t_star := convert_to_tensor t_star in
  let W_star := convert_to_tensor W_star in
  '(_, X_star, Y_star, _, self1) <-
    loss_function (obj w) t_star W_star Xi_star ;;
  Ok (X_star, Y_star,
      mkWorld self1 (rng w) (ticks w) (stdout w) (updates w)).

End FBSNN.

(** ** Observing a run *)

Section Observers.

Context {R : Type} {SR : Scalar R} {E : Engine R} {PB : Problem R}.

Local Abbreviation tensor := (tensor R).

Definition val {A} (d : A) (m : result A) : A :=
  match m with Ok a => a | Err _ => d end.

Definition locals0 (self : FBSNN) : locals :=
  let z := scalar zero in
  mkLocals z z z z z z [] [] None None None (model self).

(** The locals after [k] passes of the loop. *)
Definition state_at (self : FBSNN) (t W Xi : tensor) (k : nat) : locals :=
  val (locals0 self) (run self t W Xi k).

(** The value assigned to [Y1_tilde] in pass [k]. *)
Definition Y1_tilde_at (self : FBSNN) (t W Xi : tensor) (k : nat) : tensor :=
  let st := state_at self t W Xi k in
  val (scalar zero)
    (t1 <- slice1 t (k + 1) ;;
     W1 <- slice1 W (k + 1) ;;
     Y1_tilde_expr (t0 st) (W0 st) (X0 st) (Y0 st) (Z0 st) t1 W1).

Definition sqr (x : R) : R := mul x x.

(** What holds of the locals after [n] passes. *)
Definition loop_inv (self : FBSNN) (t W : tensor) (n : nat) (st : locals)
  : Prop :=
  slice1 t n = Ok (t0 st) /\ slice1 W n = Ok (W0 st) /\
  shape (X0 st) = [M self; D self] /\ shape (Y0 st) = [M self; 1] /\
  shape (Z0 st) = [M self; D self] /\ shape (loss st) = [] /\
  length (X_list st) = S n /\ length (Y_list st) = S n /\
  (forall a, In a (X_list st) -> shape a = [M self; D self]) /\
  (forall a, In a (Y_list st) -> shape a = [M self; 1]) /\
  (0 < n -> X1 st = Some (X0 st) /\ Y1 st = Some (Y0 st) /\
            Z1 st = Some (Z0 st)).

(** What pass [n] does to the locals. *)
Definition pass_facts (self : FBSNN) (t W : tensor) (n : nat)
  (st st' : locals) : Prop :=
  exists yt,
    slice1 t (n + 1) = Ok (t0 st') /\ slice1 W (n + 1) = Ok (W0 st') /\
    X1_expr (t0 st) (W0 st) (X0 st) (Y0 st) (Z0 st) (t0 st') (W0 st')
      = Ok (X0 st') /\
    Y1_tilde_expr (t0 st) (W0 st) (X0 st) (Y0 st) (Z0 st) (t0 st') (W0 st')
      = Ok yt /\
    net_u (self_model st) (t0 st') (X0 st')
      = Ok (Y0 st', Z0 st', self_model st') /\
    item (loss st') =
      add (item (loss st))
          (sumn (M self)
             (fun i => sqr (sub (get (Y0 st') [i; 0]) (get yt [i; 0])))) /\
    X_list st' = X_list st ++ [X0 st'] /\
    Y_list st' = Y_list st ++ [Y0 st'].

(** The batch-summed square of [Y1 - Y1_tilde] in pass [k]. *)
Definition residual (self : FBSNN) (t W Xi : tensor) (k : nat) : R :=
  sumn (M self)
    (fun i => sqr (sub (get (Y0 (state_at self t W Xi (S k))) [i; 0])
                       (get (Y1_tilde_at self t W Xi k) [i; 0]))).

(** The backward target as the specification words it: the generator term
    and, for each trajectory [i], the inner product over the [d] dimensions of
    [Z0] with [sigma . (W1 - W0)]. *)
Definition Y1_tilde_spec (Y0 fv t0 t1 Z0 sg W0 W1 : tensor) (d i : nat) : R :=
  add (add (get Y0 [i; 0])
           (mul (get fv [i; 0]) (sub (get t1 [i; 0]) (get t0 [i; 0]))))
      (sumn d (fun j =>
         mul (get Z0 [i; j])
             (sumn d (fun l => mul (get sg [i; j; l])
                                   (sub (get W1 [i; l]) (get W0 [i; l])))))).

(** The shape contracts of the collaborators for the configuration of
    [self]: the network maps [M x (D+1)] to [M x 1] whatever variables it
    holds, gradients have the shape of the watched input, and the problem
    functions return [M x 1], [M x 1], [M x D] and [M x D x D]. *)
Record well_shaped (self : FBSNN) : Prop := {
  ws_M : 1 <= M self;
  ws_D : 1 <= D self;
  ws_model : forall p c, shape c = [M self; S (D self)] ->
    exists u p', model_call p c = Ok (u, p') /\ shape u = [M self; 1];
  ws_grad : forall f X u, f X = Ok u ->
    exists Z, tape_gradient f X = Ok Z /\ shape Z = shape X;
  ws_phi : forall t X Y Z,
    shape t = [M self; 1] -> shape X = [M self; D self] ->
    shape Y = [M self; 1] -> shape Z = [M self; D self] ->
    exists r, phi_tf t X Y Z = Ok r /\ shape r = [M self; 1];
  ws_g : forall X, shape X = [M self; D self] ->
    exists r, g_tf X = Ok r /\ shape r = [M self; 1];
  ws_mu : forall t X Y Z,
    shape t = [M self; 1] -> shape X = [M self; D self] ->
    shape Y = [M self; 1] -> shape Z = [M self; D self] ->
    exists r, mu_tf t X Y Z = Ok r /\ shape r = [M self; D self];
  ws_sigma : forall t X Y,
    shape t = [M self; 1] -> shape X = [M self; D self] ->
    shape Y = [M self; 1] ->
    exists r, sigma_tf t X Y = Ok r /\ shape r = [M self; D self; D self]
}.

(** What [train] needs of the object and the engine: the shape contracts, a
    terminal condition computed from its argument (so that the tape has a
    gradient for it), at least one time step, an initial point of shape
    [1 x D], a random source that returns arrays of the requested size, and
    gradients with respect to the trainable variables wherever the loss is
    defined. *)
Record trainable (self : FBSNN) : Prop := {
  tr_ws : well_shaped self;
  tr_tape : g_on_tape = true;
  tr_N : 0 < N self;
  tr_Xi : shape (Xi self) = [1; D self];
  tr_normal : forall s r, shape (fst (random_normal s r)) = s;
  tr_param : forall f p l, f p = Ok l -> exists g, param_gradient f p = Ok g
}.

(** The object with another step count. *)
Definition with_N (self : FBSNN) (n : nat) : FBSNN :=
  mkFBSNN (Xi self) (T self) (M self) n (D self) (model self)
    (optimizer self).

(** The object after one optimizer step with the gradients [g]. *)
Definition updated (self : FBSNN) (g : G) : FBSNN :=
  with_model self
    (fst (apply_gradients (optimizer self) g (model self)))
    (snd (apply_gradients (optimizer self) g (model self))).

(** The iterations of [train] that print a line. *)
Definition reported (it : nat) : bool := it mod 10 =? 0.

(** A network that has its variables: a call returns it as it was. *)
Definition keeps_variables (p : P) : Prop :=
  forall c u p', model_call p c = Ok (u, p') -> p' = p.

(** A network whose calls settle: the network a call leaves has its
    variables, and called again on the same input it returns the same
    output. *)
Definition settles (p : P) : Prop :=
  forall c u p', model_call p c = Ok (u, p') ->
    model_call p' c = Ok (u, p') /\ keeps_variables p'.

End Observers.

(** ** The network: FeedForwardSubNet

    A [Dense] layer holds its width, its activation and, once it has been
    called, its kernel and bias: Keras creates the weights at the first call,
    from the last dimension of the input, with the kernel drawn by the
    Glorot-normal initializer and the bias set to zero.  The constructor of
    the layer checks the width it is given; which widths it accepts depends
    on the version of the library (Keras 3 refuses the width 0, earlier
    versions accept it), so the check is a parameter, [units_ok]. *)

Inductive activation := act_sin | act_none.

Section Network.

Context {R : Type} {SR : Scalar R}.

Local Abbreviation tensor := (tensor R).

(** The sine, the initializer with its random state, and the check of the
    layer's constructor on its width. *)
Variable tf_sin : R -> R.
Variable Seed : Type.
Variable glorot_normal : list nat -> Seed -> tensor * Seed.
Variable units_ok : nat -> bool.

Record Dense := mkDense {
  units : nat;
  act : activation;
  weights : option (tensor * tensor)    (* kernel, bias; None until built *)
}.

Record FeedForwardSubNet := mkNet {
  layers_list : list Dense;
  output_layer : Dense
}.

(** [Dense(units, activation=...)]: a layer without weights, or the error of
    the constructor for a width it refuses. *)
Definition Dense_init (u : nat) (a : activation) : result Dense :=
  if units_ok u then Ok (mkDense u a None) else Err ValueError.

(** The loop of [FeedForwardSubNet.__init__] over the widths
    [layers[l + 1]]. *)
Fixpoint init_hidden (widths : list nat) : result (list Dense) :=
  match widths with
  | [] => Ok []
  | u :: widths' =>
      l <- Dense_init u act_sin ;;
      ls <- init_hidden widths' ;;
      Ok (l :: ls)
  end.

(** [FeedForwardSubNet.__init__]: one sine layer of width [layers[l + 1]] for
    each [l] in [range(len(layers) - 2)], and a linear layer of width
    [layers[-1]]. *)
Definition FeedForwardSubNet_init (layers : list nat)
  : result FeedForwardSubNet :=
  let num_layers := length layers in
  hidden <- init_hidden (map (fun l => nth (l + 1) layers 0)
                             (seq 0 (num_layers - 2))) ;;
  match rev layers with
  | last_width :: _ =>
      o <- Dense_init last_width act_none ;;
      Ok (mkNet hidden o)
  | [] => Err IndexError
  end.

(** The function a layer applies to each entry. *)
Definition act_fun (a : activation) (x : R) : R :=
  match a with act_sin => tf_sin x | act_none => x end.

Definition apply_activation (a : activation) (x : tensor) : tensor :=
  match a with
  | act_sin => tmap tf_sin x
  | act_none => x
  end.

(** Creation of the weights for an input of last dimension [in_dim]; a layer
    that has its weights keeps them. *)
Definition dense_build (l : Dense) (in_dim : nat) (s : Seed) : Dense * Seed :=
  match weights l with
  | Some _ => (l, s)
  | None =>
      let (kernel, s') := glorot_normal [in_dim; units l] s in
      (mkDense (units l) (act l) (Some (kernel, zeros [units l])), s')
  end.

(** A call of a [Dense] layer on an input of rank at least 2:
    [activation(matmul(x, kernel) + bias)]. *)
Definition dense_call (l : Dense) (x : tensor) (s : Seed)
  : result (tensor * Dense * Seed) :=
  match rev (shape x) with
  | in_dim :: _ :: _ =>
      let (l', s') := dense_build l in_dim s in
      match weights l' with
      | Some (kernel, bias) =>
          xk <- matmul x kernel ;;
          y <- tadd xk bias ;;
          Ok (apply_activation (act l') y, l', s')
      | None => Err ShapeError
      end
  | _ => Err ShapeError
  end.

(** The loop of [FeedForwardSubNet.call] over [layers_list]. *)
Fixpoint call_hidden (ls : list Dense) (H : tensor) (s : Seed)
  : result (tensor * list Dense * Seed) :=
  match ls with
  | [] => Ok (H, [], s)
  | l :: ls' =>
      '(H', l', s') <- dense_call l H s ;;
      '(H'', ls'', s'') <- call_hidden ls' H' s' ;;
      Ok (H'', l' :: ls'', s'')
  end.

(** [FeedForwardSubNet.call]: returns the output, the network with the
    weights it now holds, and the state of the initializer. *)
Definition FeedForwardSubNet_call (net : FeedForwardSubNet) (X : tensor)
  (s : Seed) : result (tensor * FeedForwardSubNet * Seed) :=
  '(H, ls, s') <- call_hidden (layers_list net) X s ;;
  '(out, o, s'') <- dense_call (output_layer net) H s' ;;
  Ok (out, mkNet ls o, s'').

(** A layer built for the input width [in_dim]. *)
Definition built_for (in_dim : nat) (l : Dense) : Prop :=
  exists kernel bias,
    weights l = Some (kernel, bias) /\
    shape kernel = [in_dim; units l] /\ shape bias = [units l].

(** Layers built one after the other, the first for the width [in_dim]. *)
Fixpoint built_chain (in_dim : nat) (ls : list Dense) : Prop :=
  match ls with
  | [] => True
  | l :: ls' => built_for in_dim l /\ built_chain (units l) ls'
  end.

(** The width that leaves the layers [ls] when [in_dim] enters. *)
Definition out_width (in_dim : nat) (ls : list Dense) : nat :=
  last (map units ls) in_dim.

(** A network whose layers are all built, for inputs of width [in_dim]. *)
Definition net_built (in_dim : nat) (net : FeedForwardSubNet) : Prop :=
  built_chain in_dim (layers_list net) /\
  built_for (out_width in_dim (layers_list net)) (output_layer net).

(** No layer has weights yet. *)
Definition net_fresh (net : FeedForwardSubNet) : Prop :=
  Forall (fun l => weights l = None) (layers_list net) /\
  weights (output_layer net) = None.

(** Every layer has weights, for whatever width they were created. *)
Definition net_has_weights (net : FeedForwardSubNet) : Prop :=
  Forall (fun l => weights l <> None) (layers_list net) /\
  weights (output_layer net) <> None.

End Network.

(** ** A small instance over the integers

    Integer scalars with an affine network [u = p + sum of the inputs], whose
    single variable [p] exists from the start, and a differentiation engine
    that is exact on affine functions.  The integers that occur are [float32]
    values, so the conversion leaves them as they are.  Used to run the
    definitions on concrete data. *)

#[export] Instance Z_scalar : Scalar Z := {
  zero := 0%Z; one := 1%Z;
  add := Z.add; sub := Z.sub; mul := Z.mul; div := Z.div;
  of_nat := Z.of_nat
}.

(** [X] with the entry at [idx] increased by one. *)
Definition bump (X : tensor Z) (idx : list nat) : tensor Z :=
  build (shape X)
    (fun j => if list_eqb j idx then (get X j + 1)%Z else get X j).

(** Gradient of the summed output of [f] at [X] by unit differences: the
    gradient the tape returns for a function it has recorded.  Whether the
    terminal condition is recorded at all is kept with the problem
    ([g_on_tape]) and decided in [Dg_tf]. *)
Definition fd_gradient (f : tensor Z -> result (tensor Z)) (X : tensor Z)
  : result (tensor Z) :=
  match f X with
  | Ok u =>
      Ok (build (shape X)
            (fun idx => (item (reduce_sum (val u (f (bump X idx))))
                         - item (reduce_sum u))%Z))
  | Err e => Err e
  end.

Definition ex_model_call (p : Z) (c : tensor Z) : result (tensor Z * Z) :=
  match shape c with
  | [m; k] =>
      Ok (build [m; 1]
            (fun idx => let i := nth 0 idx 0 in
                        (p + sumn k (fun j => get c [i; j]))%Z), p)
  | _ => Err ShapeError
  end.

Definition ex_param_gradient (f : Z -> result (tensor Z)) (p : Z) : result Z :=
  match f p with
  | Ok l => Ok (item (val l (f (p + 1)%Z)) - item l)%Z
  | Err e => Err e
  end.

#[export] Instance ex_engine : Engine Z := {
  P := Z;
  model_call := ex_model_call;
  tape_gradient := fd_gradient;
  G := Z;
  param_gradient := ex_param_gradient;
  Opt := Z;
  set_learning_rate lr _ := lr;
  apply_gradients o g p := (o, (p - o * g)%Z);
  cast_float32 x := x;
  Rng := nat;
  random_normal s r :=
    (build s (fun idx => (Z.of_nat ((r + ravel s idx) mod 3) - 1)%Z), S r);
  np_sqrt := Z.sqrt;
  wall k := Z.of_nat k
}.

Definition row_sums (X : tensor Z) : result (tensor Z) :=
  match shape X with
  | [m; d] =>
      Ok (build [m; 1] (fun idx => sumn d (fun j => get X [nth 0 idx 0; j])))
  | _ => Err ShapeError
  end.

(** Brownian motion with terminal condition [g(X) = sum of the coordinates]:
    the base-class drift and diffusion, no generator. *)
Definition ex_problem (self : FBSNN) : Problem Z := {|
  phi_tf _ _ _ _ := Ok (zeros [M self; 1]);
  g_tf := row_sums;
  g_on_tape := true;
  mu_tf _ _ _ _ := Ok (mu_tf_base self);
  sigma_tf _ _ _ := Ok (sigma_tf_base self)
|}.

(** The problem whose four functions return zero; [g_tf] returns its zeros
    without looking at its argument, so the tape has no gradient for it. *)
Definition zero_problem (self : FBSNN) : Problem Z := {|
  phi_tf _ _ _ _ := Ok (zeros [M self; 1]);
  g_tf _ := Ok (zeros [M self; 1]);
  g_on_tape := false;
  mu_tf _ _ _ _ := Ok (zeros [M self; D self]);
  sigma_tf _ _ _ := Ok (zeros [M self; D self; D self])
|}.

(** [g(X) = 0 * reduce_sum(X, axis=1, keepdims=True)]: zero, and computed
    from [X]. *)
Definition zero_times_row_sums (X : tensor Z) : result (tensor Z) :=
  r <- row_sums X ;; tmul (scalar 0%Z) r.

(** The problem whose four functions return zero, with the terminal
    condition computed from its argument. *)
Definition zero_problem_on_tape (self : FBSNN) : Problem Z := {|
  phi_tf _ _ _ _ := Ok (zeros [M self; 1]);
  g_tf := zero_times_row_sums;
  g_on_tape := true;
  mu_tf _ _ _ _ := Ok (zeros [M self; D self]);
  sigma_tf _ _ _ := Ok (zeros [M self; D self; D self])
|}.

(** Two trajectories, two steps, one dimension. *)
Definition ex_self : FBSNN :=
  mkFBSNN (mkT [1; 1] [0%Z]) 2%Z 2 2 1 0%Z 1%Z.

Definition ex_t : tensor Z := mkT [2; 3; 1] [0; 1; 2; 0; 1; 2]%Z.
Definition ex_W : tensor Z := mkT [2; 3; 1] [0; 1; 1; 0; 2; 3]%Z.

Definition ex_world : World := mkWorld ex_self 0 0 [] 0.

(** Paths with one time point more than the object is configured for. *)
Definition ex_t4 : tensor Z := mkT [2; 4; 1] [0; 1; 2; 3; 0; 1; 2; 3]%Z.
Definition ex_W4 : tensor Z := mkT [2; 4; 1] [0; 1; 1; 2; 0; 2; 3; 3]%Z.

(** Paths for three trajectories. *)
Definition ex_t_3 : tensor Z :=
  mkT [3; 3; 1] [0; 1; 2; 0; 1; 2; 0; 1; 2]%Z.
Definition ex_W_3 : tensor Z :=
  mkT [3; 3; 1] [0; 1; 1; 0; 2; 3; 0; 0; 1]%Z.

(** The same object configured with no time step. *)
Definition ex_self_N0 : FBSNN :=
  mkFBSNN (mkT [1; 1] [0%Z]) 2%Z 2 0 1 0%Z 1%Z.

Definition ex_world_N0 : World := mkWorld ex_self_N0 0 0 [] 0.

(** ** Data for the network and for the other configurations *)

(** A stand-in for the sine on the integers, and an initializer that
    numbers the entries it returns. *)
Definition ex_sin (x : Z) : Z := Z.opp x.

Definition ex_glorot (sh : list nat) (s : nat) : tensor Z * nat :=
  (build sh (fun idx => Z.of_nat (s + ravel sh idx)), S s).

(** The check of a constructor that refuses the width 0. *)
Definition ex_units_ok (u : nat) : bool := negb (u =? 0).

(** The network of [layers = [2; 3; 1]], before and after its first call. *)
Definition ex_net : @FeedForwardSubNet Z :=
  mkNet [mkDense 3 act_sin None] (mkDense 1 act_none None).

Definition ex_net_built : @FeedForwardSubNet Z :=
  mkNet [mkDense 3 act_sin (Some (fst (ex_glorot [2; 3] 0), zeros [3]))]
        (mkDense 1 act_none (Some (fst (ex_glorot [3; 1] 1), zeros [1]))).

Definition ex_input : tensor Z := mkT [2; 2] [0; 1; 1; 2]%Z.
Definition ex_input_3 : tensor Z := mkT [2; 3] [0; 1; 1; 2; 0; 1]%Z.

(** A linear output layer with kernel [[1], [1]] and bias [0]. *)
Definition ex_affine : @Dense Z :=
  mkDense 1 act_none (Some (mkT [2; 1] [1; 1]%Z, mkT [1] [0%Z])).

(** Two trajectories, one step, two dimensions. *)
Definition ex_self_D2 : FBSNN :=
  mkFBSNN (mkT [1; 2] [0; 0]%Z) 1%Z 2 1 2 0%Z 1%Z.

Definition ex_t_D2 : tensor Z := mkT [2; 2; 1] [0; 1; 0; 1]%Z.
Definition ex_W_D2 : tensor Z := mkT [2; 2; 2] [0; 0; 1; 2; 0; 0; 3; 4]%Z.

(** Paths with two time points, and a noise array with two dimensions. *)
Definition ex_t_short : tensor Z := mkT [2; 2; 1] [0; 1; 0; 1]%Z.
Definition ex_W_short : tensor Z := mkT [2; 2; 1] [0; 1; 0; 2]%Z.
Definition ex_W_wide : tensor Z :=
  mkT [2; 3; 2] [0; 0; 1; 1; 2; 2; 0; 0; 1; 1; 2; 2]%Z.

(** An initial point with two rows. *)
Definition ex_Xi_2 : tensor Z := mkT [2; 1] [0; 0]%Z.

(** ** The network of the code as the network of the engine

    The state of the network is a [FeedForwardSubNet] with the state of its
    initializer; a call is [FeedForwardSubNet.call].  The engine is used for
    [predict]: its optimizer does nothing. *)

Definition net_model_call (p : @FeedForwardSubNet Z * nat) (c : tensor Z)
  : result (tensor Z * (@FeedForwardSubNet Z * nat)) :=
  '(out, net', s') <-
    FeedForwardSubNet_call ex_sin ex_glorot (fst p) c (snd p) ;;
  Ok (out, (net', s')).

Definition net_engine : Engine Z := {|
  P := @FeedForwardSubNet Z * nat;
  model_call := net_model_call;
  tape_gradient := fd_gradient;
  G := unit;
  param_gradient _ _ := Ok tt;
  Opt := unit;
  set_learning_rate _ o := o;
  apply_gradients o _ p := (o, p);
  cast_float32 x := x;
  Rng := nat;
  random_normal s r :=
    (build s (fun idx => (Z.of_nat ((r + ravel s idx) mod 3) - 1)%Z), S r);
  np_sqrt := Z.sqrt;
  wall k := Z.of_nat k
|}.

(** Two trajectories, two steps, one dimension, with the network of
    [layers = [2; 3; 1]] as the constructor leaves it, and as its first call
    leaves it. *)
Definition net_self : @FBSNN Z net_engine :=
  mkFBSNN (E := net_engine) (mkT [1; 1] [0%Z]) 2%Z 2 2 1 (ex_net, 0) tt.

Definition net_self_built : @FBSNN Z net_engine :=
  mkFBSNN (E := net_engine) (mkT [1; 1] [0%Z]) 2%Z 2 2 1 (ex_net_built, 2) tt.

Definition net_problem : Problem Z := {|
  phi_tf _ _ _ _ := Ok (zeros [2; 1]);
  g_tf := row_sums;
  g_on_tape := true;
  mu_tf _ _ _ _ := Ok (zeros [2; 1]);
  sigma_tf _ _ _ := Ok (mkT [2; 1; 1] [1; 1]%Z)
|}.

Definition net_world : @World Z net_engine :=
  mkWorld (E := net_engine) net_self 0 0 [] 0.

Definition net_world_built : @World Z net_engine :=
  mkWorld (E := net_engine) net_self_built 0 0 [] 0.

(** ** The path simulator in binary64

    NumPy's arithmetic on [float64] arrays, with a random source that returns
    zeros.  The path simulator uses nothing else of the engine: there is no
    network, and no conversion is made. *)

Fixpoint float_of_nat (n : nat) : float :=
  match n with
  | 0 => 0%float
  | S n' => PrimFloat.add (float_of_nat n') 1%float
  end.

Definition float_scalar : Scalar float := {|
  zero := 0%float; one := 1%float;
  add := PrimFloat.add; sub := PrimFloat.sub;
  mul := PrimFloat.mul; div := PrimFloat.div;
  of_nat := float_of_nat
|}.

Definition np_engine : Engine float := {|
  P := unit;
  model_call _ _ := Err ShapeError;
  tape_gradient _ _ := Err ShapeError;
  G := unit;
  param_gradient _ _ := Err ShapeError;
  Opt := unit;
  set_learning_rate _ o := o;
  apply_gradients o _ p := (o, p);
  cast_float32 x := x;
  Rng := unit;
  random_normal s r := (zeros (SR := float_scalar) s, r);
  np_sqrt := PrimFloat.sqrt;
  wall _ := 0%float
|}.

(** One trajectory of one dimension, [T = 1.0], [N = 10]. *)
Definition np_self : @FBSNN float np_engine :=
  mkFBSNN (E := np_engine) (mkT [1; 1] [0%float]) 1%float 1 10 1 tt tt.

(** * Properties *)

Unset Implicit Arguments.

(** ** Row-major indexing *)

Lemma in_range_cons i d idx s :
  in_range (d :: s) (i :: idx) <-> i < d /\ in_range s idx.
Proof.
  unfold in_range. split.
  - intros H. inversion H; subst. auto.
  - intros [H1 H2]. constructor; assumption.
Qed.

Ltac range :=
  unfold in_range; repeat (apply Forall2_cons; [simpl; lia|]);
  apply Forall2_nil.

Lemma in_range_nil : in_range [] [].
Proof. constructor. Qed.

Lemma in_range_length s idx : in_range s idx -> length idx = length s.
Proof. unfold in_range. induction 1; simpl; congruence. Qed.

Lemma ravel_lt s : forall idx, in_range s idx -> ravel s idx < prod_shape s.
Proof.
  induction s as [|d s IH]; intros idx H.
  - inversion H; subst. simpl. lia.
  - destruct idx as [|i idx]; [inversion H|].
    apply in_range_cons in H. destruct H as [Hi Hr].
    specialize (IH _ Hr). simpl. fold (prod_shape s). nia.
Qed.

Lemma unravel_ravel s :
  forall idx, in_range s idx -> unravel s (ravel s idx) = idx.
Proof.
  induction s as [|d s IH]; intros idx H.
  - inversion H. reflexivity.
  - destruct idx as [|i idx]; [inversion H|].
    apply in_range_cons in H. destruct H as [Hi Hr].
    pose proof (ravel_lt s idx Hr) as Hlt.
    simpl. f_equal.
    + rewrite Nat.div_add_l by lia.
      rewrite Nat.div_small by assumption. lia.
    + rewrite Nat.add_comm, Nat.Div0.mod_add.
      rewrite Nat.mod_small by assumption. apply IH, Hr.
Qed.

Lemma unravel_in_range s :
  forall k, k < prod_shape s -> in_range s (unravel s k).
Proof.
  induction s as [|d s IH]; intros k Hk; simpl.
  - constructor.
  - simpl in Hk. fold (prod_shape s) in Hk.
    assert (Hp : prod_shape s <> 0) by (intros Hz; rewrite Hz in Hk; lia).
    apply in_range_cons. split.
    + apply Nat.Div0.div_lt_upper_bound. lia.
    + apply IH. apply Nat.mod_upper_bound. assumption.
Qed.

Lemma ravel_unravel s :
  forall k, k < prod_shape s -> ravel s (unravel s k) = k.
Proof.
  induction s as [|d s IH]; intros k Hk; simpl.
  - simpl in Hk. lia.
  - simpl in Hk. fold (prod_shape s) in Hk.
    assert (Hp : prod_shape s <> 0) by (intros Hz; rewrite Hz in Hk; lia).
    rewrite IH by (apply Nat.mod_upper_bound; assumption).
    pose proof (Nat.div_mod_eq k (prod_shape s)). lia.
Qed.

Lemma clip_in_range s : forall idx, in_range s idx -> clip s idx = idx.
Proof.
  induction s as [|d s IH]; intros idx H.
  - inversion H. reflexivity.
  - destruct idx as [|i idx]; [inversion H|].
    apply in_range_cons in H. destruct H as [Hi Hr].
    simpl. rewrite (IH _ Hr).
    destruct (Nat.eqb_spec d 1); [f_equal; lia | reflexivity].
Qed.

Lemma bidx_same s idx : in_range s idx -> bidx s idx = idx.
Proof.
  intros H. unfold bidx. rewrite (in_range_length s idx H), Nat.sub_diag.
  simpl. apply clip_in_range, H.
Qed.

Section TensorFacts.

Context {R : Type} {SR : Scalar R}.

Local Abbreviation tensor := (tensor R).

Lemma nth_build s (f : list nat -> R) k :
  k < prod_shape s -> nth k (data (build s f)) zero = f (unravel s k).
Proof.
  intros Hk. unfold build. simpl.
  rewrite nth_indep with (d' := f (unravel s 0))
    by (rewrite length_map, length_seq; assumption).
  rewrite (map_nth (fun k => f (unravel s k)) (seq 0 (prod_shape s)) 0 k).
  rewrite seq_nth by assumption. reflexivity.
Qed.

Lemma get_build s (f : list nat -> R) idx :
  in_range s idx -> get (build s f) idx = f idx.
Proof.
  intros H. unfold get. change (shape (build s f)) with s.
  rewrite nth_build by (apply ravel_lt, H).
  rewrite unravel_ravel by assumption. reflexivity.
Qed.

Lemma shape_build s (f : list nat -> R) : shape (build s f) = s.
Proof. reflexivity. Qed.

Lemma sumn_ext n (f g : nat -> R) :
  (forall k, k < n -> f k = g k) -> sumn n f = sumn n g.
Proof.
  unfold sumn. generalize (@zero R SR) as acc.
  assert (Hs : forall k, In k (seq 0 n) -> k < n)
    by (intros k Hk; apply in_seq in Hk; lia).
  revert Hs. generalize (seq 0 n) as l.
  induction l as [|x l IH]; intros Hs acc Hfg; simpl.
  - reflexivity.
  - rewrite Hfg by (apply Hs; left; reflexivity).
    apply IH; [intros k Hk; apply Hs; right; assumption | assumption].
Qed.

Lemma sumn_S n (f : nat -> R) : sumn (S n) f = add (sumn n f) (f n).
Proof.
  unfold sumn. rewrite seq_S, fold_left_app. reflexivity.
Qed.

Lemma sumn_0 (f : nat -> R) : sumn 0 f = zero.
Proof. reflexivity. Qed.

End TensorFacts.

(** ** Broadcasting of shapes *)

Lemma bdim_refl d : bdim d d = Some d.
Proof. unfold bdim. rewrite Nat.eqb_refl. reflexivity. Qed.

Lemma bdim_1_r d : bdim d 1 = Some d.
Proof.
  unfold bdim. destruct (Nat.eqb_spec d 1); [subst|]; reflexivity.
Qed.

Lemma bdim_1_l d : bdim 1 d = Some d.
Proof.
  unfold bdim. destruct (Nat.eqb_spec 1 d); [subst|]; reflexivity.
Qed.

Lemma bshape_rev_refl r : bshape_rev r r = Some r.
Proof.
  induction r as [|d r IH]; simpl; [reflexivity|].
  rewrite bdim_refl, IH. reflexivity.
Qed.

Lemma broadcast_shapes_refl s : broadcast_shapes s s = Some s.
Proof.
  unfold broadcast_shapes. rewrite bshape_rev_refl. simpl.
  rewrite rev_involutive. reflexivity.
Qed.

Lemma broadcast_shapes_col m d : broadcast_shapes [m; d] [m; 1] = Some [m; d].
Proof.
  unfold broadcast_shapes. simpl. rewrite bdim_1_r, bdim_refl. reflexivity.
Qed.

Lemma bshape_rev_nil_l r : bshape_rev [] r = Some r.
Proof. destruct r; reflexivity. Qed.

Lemma bshape_rev_nil_r r : bshape_rev r [] = Some r.
Proof. destruct r; reflexivity. Qed.

Lemma broadcast_shapes_nil_l s : broadcast_shapes [] s = Some s.
Proof.
  unfold broadcast_shapes. change (rev []) with (@nil nat).
  rewrite bshape_rev_nil_l. simpl. rewrite rev_involutive. reflexivity.
Qed.

Lemma broadcast_shapes_nil_r s : broadcast_shapes s [] = Some s.
Proof.
  unfold broadcast_shapes. change (rev []) with (@nil nat).
  rewrite bshape_rev_nil_r. simpl. rewrite rev_involutive. reflexivity.
Qed.

Section OpFacts.

Context {R : Type} {SR : Scalar R}.

Local Abbreviation tensor := (tensor R).

Lemma broadcast_ok (f : R -> R -> R) (a b : tensor) s :
  broadcast_shapes (shape a) (shape b) = Some s ->
  broadcast f a b =
  Ok (build s (fun idx => f (get a (bidx (shape a) idx))
                            (get b (bidx (shape b) idx)))).
Proof. intros H. unfold broadcast. rewrite H. reflexivity. Qed.

Lemma broadcast_err (f : R -> R -> R) (a b : tensor) :
  broadcast_shapes (shape a) (shape b) = None ->
  broadcast f a b = Err ShapeError.
Proof. intros H. unfold broadcast. rewrite H. reflexivity. Qed.

(** Same shape on both sides: entrywise. *)
Lemma broadcast_same (f : R -> R -> R) (a b : tensor) s :
  shape a = s -> shape b = s ->
  exists r, broadcast f a b = Ok r /\ shape r = s /\
    forall idx, in_range s idx -> get r idx = f (get a idx) (get b idx).
Proof.
  intros Ha Hb. eexists. split; [|split].
  - apply broadcast_ok. rewrite Ha, Hb. apply broadcast_shapes_refl.
  - reflexivity.
  - intros idx Hi. rewrite get_build by assumption.
    rewrite Ha, Hb, bidx_same by assumption. reflexivity.
Qed.

(** A matrix against a column: the column is read at [[m; 0]]. *)
Lemma broadcast_col (f : R -> R -> R) (a b : tensor) m d :
  shape a = [m; d] -> shape b = [m; 1] ->
  exists r, broadcast f a b = Ok r /\ shape r = [m; d] /\
    forall i j, i < m -> j < d ->
      get r [i; j] = f (get a [i; j]) (get b [i; 0]).
Proof.
  intros Ha Hb. eexists. split; [|split].
  - apply broadcast_ok. rewrite Ha, Hb. apply broadcast_shapes_col.
  - reflexivity.
  - intros i j Hi Hj.
    rewrite get_build by (repeat constructor; assumption).
    rewrite Ha, Hb.
    rewrite bidx_same by (repeat constructor; assumption).
    unfold bidx. simpl.
    destruct (Nat.eqb_spec m 1);
      [replace i with 0 by lia|]; reflexivity.
Qed.

Lemma get_expand_dims_last (a : tensor) idx :
  length idx = length (shape a) ->
  get (expand_dims_last a) (idx ++ [0]) = get a idx.
Proof.
  unfold get, expand_dims_last. simpl.
  generalize (shape a) as s. intros s. revert idx.
  assert (Hp : forall s, prod_shape (s ++ [1]) = prod_shape s).
  { induction s0 as [|d s0 IH]; simpl; [reflexivity|].
    fold (prod_shape (s0 ++ [1])). fold (prod_shape s0). rewrite IH.
    reflexivity. }
  induction s as [|d s IH]; intros idx Hl.
  - destruct idx; [reflexivity | discriminate].
  - destruct idx as [|i idx]; [discriminate|].
    simpl in Hl. injection Hl as Hl.
    specialize (IH idx Hl). simpl. rewrite Hp.
    assert (Hr : ravel (s ++ [1]) (idx ++ [0]) = ravel s idx).
    { clear IH. revert idx Hl.
      induction s as [|d' s' IH']; intros idx Hl.
      - destruct idx; [reflexivity | discriminate].
      - destruct idx as [|i' idx]; [discriminate|].
        simpl in Hl. injection Hl as Hl. simpl.
        rewrite Hp, (IH' idx Hl). reflexivity. }
    rewrite Hr. reflexivity.
Qed.

Lemma sumn_data_square (a : tensor) n :
  n <= length (data a) ->
  sumn n (fun k => nth k (data (square a)) zero) =
  sumn n (fun k => mul (nth k (data a) zero) (nth k (data a) zero)).
Proof.
  intros Hn. apply sumn_ext. intros k Hk. unfold square. simpl.
  rewrite nth_indep with (d' := (fun x => mul x x) zero)
    by (rewrite length_map; lia).
  rewrite (map_nth (fun x => mul x x)). reflexivity.
Qed.

End OpFacts.

Section OpFacts2.

Context {R : Type} {SR : Scalar R}.

Local Abbreviation tensor := (tensor R).


Lemma wf_build s (f : list nat -> R) : wf (build s f).
Proof. unfold wf, size, build. simpl. rewrite length_map, length_seq. reflexivity. Qed.

Lemma broadcast_wf (f : R -> R -> R) (a b r : tensor) :
  broadcast f a b = Ok r -> wf r.
Proof.
  unfold broadcast. destruct (broadcast_shapes _ _); intros H; inversion H.
  apply wf_build.
Qed.

Lemma nth_data_get (a : tensor) k :
  k < size a -> nth k (data a) zero = get a (unravel (shape a) k).
Proof.
  intros Hk. unfold get. rewrite ravel_unravel by assumption. reflexivity.
Qed.

Lemma get_col (a : tensor) m i :
  shape a = [m; 1] -> get a [i; 0] = nth i (data a) zero.
Proof.
  intros Ha. unfold get. rewrite Ha. simpl. f_equal. lia.
Qed.

(** The batch-summed square of a column. *)
Lemma reduce_sum_square_col (d : tensor) m :
  shape d = [m; 1] -> wf d ->
  item (reduce_sum (square d)) =
  sumn m (fun i => mul (get d [i; 0]) (get d [i; 0])).
Proof.
  intros Hs Hw.
  assert (Hsz : size d = m) by (unfold size; rewrite Hs; simpl; lia).
  unfold reduce_sum, item, scalar. cbn [data nth].
  change (size (square d)) with (size d). rewrite Hsz.
  rewrite sumn_data_square by (rewrite Hw, Hsz; lia).
  apply sumn_ext. intros k Hk. rewrite (get_col d m k Hs). reflexivity.
Qed.

(** The sum of the squares of all entries. *)
Lemma reduce_sum_square_all (d : tensor) :
  wf d ->
  item (reduce_sum (square d)) =
  sumn (size d) (fun k => mul (nth k (data d) zero) (nth k (data d) zero)).
Proof.
  intros Hw. unfold reduce_sum, item, scalar. cbn [data nth].
  change (size (square d)) with (size d).
  apply sumn_data_square. rewrite Hw. lia.
Qed.

Lemma shape_reduce_sum (a : tensor) : shape (reduce_sum a) = [].
Proof. reflexivity. Qed.

(** Accumulation into the rank-0 loss. *)
Lemma tadd_scalar (l r : tensor) :
  shape l = [] -> shape r = [] ->
  exists l', tadd l r = Ok l' /\ shape l' = [] /\
    item l' = add (item l) (item r).
Proof.
  intros Hl Hr. eexists. split; [|split].
  - apply broadcast_ok. rewrite Hl, Hr. reflexivity.
  - reflexivity.
  - unfold item. simpl. unfold get. rewrite Hl, Hr. reflexivity.
Qed.

Lemma matvec (s dW : tensor) m d :
  shape s = [m; d; d] -> shape dW = [m; d] ->
  exists p, matmul s (expand_dims_last dW) = Ok p /\ shape p = [m; d; 1] /\
    forall i j, i < m -> j < d ->
      get p [i; j; 0] =
      sumn d (fun l => mul (get s [i; j; l]) (get dW [i; l])).
Proof.
  intros Hs HW. unfold matmul.
  change (shape (expand_dims_last dW)) with (shape dW ++ [1]).
  rewrite Hs, HW. simpl. rewrite Nat.eqb_refl, bdim_refl. simpl.
  eexists. split; [reflexivity|]. split; [reflexivity|].
  intros i j Hi Hj.
  rewrite get_build by (repeat constructor; assumption || lia).
  simpl. apply sumn_ext. intros l Hl.
  assert (Hc : (if m =? 1 then 0 else i) = i)
    by (destruct (Nat.eqb_spec m 1); lia).
  rewrite Hc. f_equal.
  apply (get_expand_dims_last dW [i; l]). rewrite HW. reflexivity.
Qed.

Lemma squeeze_last_col (p : tensor) m d :
  shape p = [m; d; 1] ->
  exists q, squeeze_last p = Ok q /\ shape q = [m; d] /\
    forall i j, get q [i; j] = get p [i; j; 0].
Proof.
  intros Hp. unfold squeeze_last. rewrite Hp. simpl.
  eexists. split; [reflexivity|]. split; [reflexivity|].
  intros i j. unfold get. cbn [shape data]. rewrite Hp.
  cbn [ravel prod_shape fold_right]. f_equal; lia.
Qed.

Lemma slice1_ok (a : tensor) d0 d1 d2 n :
  shape a = [d0; d1; d2] -> n < d1 ->
  exists r, slice1 a n = Ok r /\ shape r = [d0; d2] /\
    forall i j, i < d0 -> j < d2 -> get r [i; j] = get a [i; n; j].
Proof.
  intros Ha Hn. unfold slice1. rewrite Ha.
  destruct (Nat.ltb_spec n d1); [|lia].
  eexists. split; [reflexivity|]. split; [reflexivity|].
  intros i j Hi Hj. rewrite get_build by (repeat constructor; assumption).
  reflexivity.
Qed.

Lemma tile_rows_ok (a : tensor) d m :
  shape a = [1; d] ->
  exists r, tile_rows a m = Ok r /\ shape r = [m; d] /\
    forall i j, i < m -> j < d -> get r [i; j] = get a [0; j].
Proof.
  intros Ha. unfold tile_rows. rewrite Ha.
  replace (1 * m) with m by lia.
  eexists. split; [reflexivity|]. split; [reflexivity|].
  intros i j Hi Hj. rewrite get_build by (repeat constructor; assumption).
  simpl. reflexivity.
Qed.

Lemma concat1_ok (a b : tensor) m ca cb :
  shape a = [m; ca] -> shape b = [m; cb] ->
  exists c, concat1 a b = Ok c /\ shape c = [m; ca + cb].
Proof.
  intros Ha Hb. unfold concat1. rewrite Ha, Hb, Nat.eqb_refl.
  eexists. split; reflexivity.
Qed.

Lemma concat1_mismatch (a b : tensor) ra ca rb cb :
  shape a = [ra; ca] -> shape b = [rb; cb] -> ra <> rb ->
  concat1 a b = Err ShapeError.
Proof.
  intros Ha Hb Hne. unfold concat1. rewrite Ha, Hb.
  destruct (Nat.eqb_spec ra rb); [contradiction | reflexivity].
Qed.

Lemma list_eqb_refl s : list_eqb s s = true.
Proof. unfold list_eqb. destruct (list_eq_dec Nat.eq_dec s s); congruence. Qed.

Lemma stack1_ok (l : list tensor) (a0 : tensor) d0 s' :
  l <> [] -> (forall a, In a l -> shape a = d0 :: s') ->
  exists r, stack1 l = Ok r /\ shape r = d0 :: length l :: s' /\
    forall i n idx, in_range (d0 :: s') (i :: idx) -> n < length l ->
      get r (i :: n :: idx) = get (nth n l a0) (i :: idx).
Proof.
  intros Hne Hall. destruct l as [|a l]; [congruence|].
  unfold stack1. rewrite (Hall a) by (left; reflexivity).
  assert (Hf : forallb (fun b : tensor => list_eqb (shape b) (d0 :: s'))
                 (a :: l) = true).
  { apply forallb_forall. intros b Hb. rewrite (Hall b Hb).
    apply list_eqb_refl. }
  rewrite Hf.
  eexists. split; [reflexivity|]. split; [reflexivity|].
  intros i n idx Hi Hn.
  apply in_range_cons in Hi. destruct Hi as [Hi Hidx].
  rewrite get_build
    by (apply in_range_cons; split; [assumption|];
        apply in_range_cons; split; assumption).
  f_equal. apply nth_indep. assumption.
Qed.

Lemma index000_ok (a : tensor) d0 d1 d2 :
  shape a = [d0; d1; d2] -> 0 < d0 -> 0 < d1 -> 0 < d2 ->
  index000 a = Ok (scalar (get a [0; 0; 0])).
Proof.
  intros Ha H0 H1 H2. unfold index000. rewrite Ha.
  destruct d0, d1, d2; try lia. reflexivity.
Qed.

End OpFacts2.

Section InnerProduct.

Context {R : Type} {SR : Scalar R}.

Local Abbreviation tensor := (tensor R).


Lemma shape_squeeze_col (p : tensor) m d :
  shape p = [m; d; 1] ->
  shape (squeeze p) =
  (if m =? 1 then [] else [m]) ++ (if d =? 1 then [] else [d]).
Proof.
  intros Hp. unfold squeeze. cbn [shape]. rewrite Hp. simpl.
  destruct (m =? 1), (d =? 1); reflexivity.
Qed.

Lemma inner_code (Z0 p : tensor) m d :
  shape Z0 = [m; d] -> shape p = [m; d; 1] -> 1 <= m -> 1 <= d ->
  exists r,
    (zp <- tmul Z0 (squeeze p) ;; reduce_sum_axis1_keepdims zp) = Ok r /\
    shape r = [m; 1] /\
    forall i, i < m -> get r [i; 0] = inner_value Z0 p m d i.
Proof.
  intros HZ Hp Hm Hd.
  pose proof (shape_squeeze_col p m d Hp) as Hsq.
  assert (Hg : forall idx, get (squeeze p) idx =
                 nth (ravel (shape (squeeze p)) idx) (data p) zero)
    by reflexivity.
  unfold inner_value, tmul.
  destruct (Nat.eqb_spec m 1) as [Em|Em], (Nat.eqb_spec d 1) as [Ed|Ed];
    cbn [app] in Hsq; cbn [andb negb].
  - (* 1 x 1: the squeezed product is a scalar *)
    subst m d.
    rewrite (broadcast_ok mul Z0 (squeeze p) [1; 1])
      by (rewrite HZ, Hsq; reflexivity).
    cbn [bind]. unfold reduce_sum_axis1_keepdims. cbn [shape build].
    eexists. split; [reflexivity|]. split; [reflexivity|].
    intros i Hi. replace i with 0 by lia.
    rewrite get_build by (repeat constructor).
    apply sumn_ext. intros k Hk. replace k with 0 by lia.
    rewrite get_build by (repeat constructor).
    rewrite HZ, Hg, Hsq. unfold get. rewrite Hp. reflexivity.
  - (* 1 x d *)
    subst m.
    assert (Hb : broadcast_shapes [1; d] [d] = Some [1; d]).
    { unfold broadcast_shapes. simpl. rewrite bdim_refl. reflexivity. }
    rewrite (broadcast_ok mul Z0 (squeeze p) [1; d])
      by (rewrite HZ, Hsq; exact Hb).
    cbn [bind]. unfold reduce_sum_axis1_keepdims. cbn [shape build].
    eexists. split; [reflexivity|]. split; [reflexivity|].
    intros i Hi. replace i with 0 by lia.
    rewrite get_build by (repeat constructor).
    apply sumn_ext. intros k Hk.
    rewrite get_build by (repeat constructor; lia).
    rewrite HZ, Hg, Hsq. unfold get, bidx. rewrite HZ, Hp. simpl.
    destruct (Nat.eqb_spec d 1); [lia|].
    f_equal; f_equal; lia.
  - (* m x 1 with m >= 2: the product is m x m *)
    subst d.
    assert (Hb : broadcast_shapes [m; 1] [m] = Some [m; m]).
    { unfold broadcast_shapes. simpl. rewrite bdim_1_l. reflexivity. }
    rewrite (broadcast_ok mul Z0 (squeeze p) [m; m])
      by (rewrite HZ, Hsq; exact Hb).
    cbn [bind]. unfold reduce_sum_axis1_keepdims. cbn [shape build].
    eexists. split; [reflexivity|]. split; [reflexivity|].
    intros i Hi.
    rewrite get_build by (repeat constructor; lia).
    apply sumn_ext. intros k Hk.
    rewrite get_build by (repeat constructor; lia).
    rewrite HZ, Hg, Hsq. unfold get, bidx. rewrite HZ, Hp. simpl.
    destruct (Nat.eqb_spec m 1); [lia|].
    f_equal; f_equal; lia.
  - (* m x d with m, d >= 2 *)
    rewrite (broadcast_ok mul Z0 (squeeze p) [m; d])
      by (rewrite HZ, Hsq; apply broadcast_shapes_refl).
    cbn [bind]. unfold reduce_sum_axis1_keepdims. cbn [shape build].
    eexists. split; [reflexivity|]. split; [reflexivity|].
    intros i Hi.
    rewrite get_build by (repeat constructor; lia).
    apply sumn_ext. intros k Hk.
    rewrite get_build by (repeat constructor; lia).
    rewrite HZ, Hg, Hsq. unfold get, bidx. rewrite HZ, Hp. simpl.
    destruct (Nat.eqb_spec m 1); [lia|].
    destruct (Nat.eqb_spec d 1); [lia|].
    f_equal; f_equal; lia.
Qed.

End InnerProduct.

(** ** One pass of the stepper *)

Section Stepper.

Context {R : Type} {SR : Scalar R} {E : Engine R} {PB : Problem R}.

Local Abbreviation tensor := (tensor R).

Variable self : FBSNN.
Hypothesis ws : well_shaped self.

Lemma X1_expr_ok (t0 W0 X0 Y0 Z0 t1 W1 : tensor) :
  shape t0 = [M self; 1] -> shape W0 = [M self; D self] ->
  shape X0 = [M self; D self] -> shape Y0 = [M self; 1] ->
  shape Z0 = [M self; D self] ->
  shape t1 = [M self; 1] -> shape W1 = [M self; D self] ->
  exists mv sg x1,
    mu_tf t0 X0 Y0 Z0 = Ok mv /\ sigma_tf t0 X0 Y0 = Ok sg /\
    X1_expr t0 W0 X0 Y0 Z0 t1 W1 = Ok x1 /\
    shape x1 = [M self; D self] /\
    forall i j, i < M self -> j < D self ->
      get x1 [i; j] =
      add (add (get X0 [i; j])
               (mul (get mv [i; j]) (sub (get t1 [i; 0]) (get t0 [i; 0]))))
          (sumn (D self)
             (fun l => mul (get sg [i; j; l])
                           (sub (get W1 [i; l]) (get W0 [i; l])))).
Proof.
  intros Ht0 HW0 HX0 HY0 HZ0 Ht1 HW1.
  destruct (ws_mu ws t0 X0 Y0 Z0 Ht0 HX0 HY0 HZ0) as (mv & Hmv & Smv).
  destruct (ws_sigma ws t0 X0 Y0 Ht0 HX0 HY0) as (sg & Hsg & Ssg).
  destruct (broadcast_same sub t1 t0 _ Ht1 Ht0) as (dt & Hdt & Sdt & Gdt).
  destruct (broadcast_col mul mv dt _ _ Smv Sdt) as (mdt & Hmdt & Smdt & Gmdt).
  destruct (broadcast_same add X0 mdt _ HX0 Smdt) as (a & Ha & Sa & Ga).
  destruct (broadcast_same sub W1 W0 _ HW1 HW0) as (dW & HdW & SdW & GdW).
  destruct (matvec sg dW _ _ Ssg SdW) as (p & Hp & Sp & Gp).
  destruct (squeeze_last_col p _ _ Sp) as (q & Hq & Sq & Gq).
  destruct (broadcast_same add a q _ Sa Sq) as (x1 & Hx1 & Sx1 & Gx1).
  exists mv, sg, x1. split; [assumption|]. split; [assumption|].
  split; [|split; [assumption|]].
  - unfold X1_expr, tsub, tmul, tadd.
    rewrite Hmv; cbn [bind]. rewrite Hdt; cbn [bind].
    rewrite Hmdt; cbn [bind]. rewrite Ha; cbn [bind].
    rewrite Hsg; cbn [bind]. rewrite HdW; cbn [bind].
    rewrite Hp; cbn [bind]. rewrite Hq; cbn [bind]. exact Hx1.
  - intros i j Hi Hj.
    assert (Hij : in_range [M self; D self] [i; j])
      by (repeat constructor; assumption).
    assert (Hi0 : in_range [M self; 1] [i; 0])
      by (repeat constructor; lia).
    rewrite Gx1, Ga, Gmdt, Gdt, Gq, Gp by assumption.
    f_equal. apply sumn_ext. intros l Hl.
    rewrite GdW by (repeat constructor; assumption). reflexivity.
Qed.

Lemma Y1_tilde_expr_ok (t0 W0 X0 Y0 Z0 t1 W1 : tensor) :
  shape t0 = [M self; 1] -> shape W0 = [M self; D self] ->
  shape X0 = [M self; D self] -> shape Y0 = [M self; 1] ->
  shape Z0 = [M self; D self] ->
  shape t1 = [M self; 1] -> shape W1 = [M self; D self] ->
  exists fv sg p yt,
    phi_tf t0 X0 Y0 Z0 = Ok fv /\ sigma_tf t0 X0 Y0 = Ok sg /\
    Y1_tilde_expr t0 W0 X0 Y0 Z0 t1 W1 = Ok yt /\
    shape yt = [M self; 1] /\ shape p = [M self; D self; 1] /\
    (forall i j, i < M self -> j < D self ->
       get p [i; j; 0] =
       sumn (D self)
         (fun l => mul (get sg [i; j; l])
                       (sub (get W1 [i; l]) (get W0 [i; l])))) /\
    forall i, i < M self ->
      get yt [i; 0] =
      add (add (get Y0 [i; 0])
               (mul (get fv [i; 0]) (sub (get t1 [i; 0]) (get t0 [i; 0]))))
          (inner_value Z0 p (M self) (D self) i).
Proof.
  intros Ht0 HW0 HX0 HY0 HZ0 Ht1 HW1.
  destruct (ws_phi ws t0 X0 Y0 Z0 Ht0 HX0 HY0 HZ0) as (fv & Hfv & Sfv).
  destruct (ws_sigma ws t0 X0 Y0 Ht0 HX0 HY0) as (sg & Hsg & Ssg).
  destruct (broadcast_same sub t1 t0 _ Ht1 Ht0) as (dt & Hdt & Sdt & Gdt).
  destruct (broadcast_same mul fv dt _ Sfv Sdt) as (fdt & Hfdt & Sfdt & Gfdt).
  destruct (broadcast_same add Y0 fdt _ HY0 Sfdt) as (a & Ha & Sa & Ga).
  destruct (broadcast_same sub W1 W0 _ HW1 HW0) as (dW & HdW & SdW & GdW).
  destruct (matvec sg dW _ _ Ssg SdW) as (p & Hp & Sp & Gp).
  destruct (inner_code Z0 p _ _ HZ0 Sp (ws_M ws) (ws_D ws))
    as (r & Hr & Sr & Gr).
  destruct (broadcast_same add a r _ Sa Sr) as (yt & Hyt & Syt & Gyt).
  exists fv, sg, p, yt. split; [assumption|]. split; [assumption|].
  split; [|split; [assumption|split; [assumption|split]]].
  - unfold Y1_tilde_expr.
    rewrite Hfv; cbn [bind]. unfold tsub at 1. rewrite Hdt; cbn [bind].
    unfold tmul at 1. rewrite Hfdt; cbn [bind].
    unfold tadd at 1. rewrite Ha; cbn [bind].
    rewrite Hsg; cbn [bind]. unfold tsub at 1. rewrite HdW; cbn [bind].
    rewrite Hp; cbn [bind].
    destruct (tmul Z0 (squeeze p)) as [zp|] eqn:Hzp; cbn [bind] in Hr;
      [|discriminate].
    cbn [bind]. rewrite Hr; cbn [bind]. exact Hyt.
  - intros i j Hi Hj. rewrite Gp by assumption.
    apply sumn_ext. intros l Hl.
    rewrite GdW by (repeat constructor; assumption). reflexivity.
  - intros i Hi.
    assert (Hi0 : in_range [M self; 1] [i; 0])
      by (repeat constructor; lia).
    rewrite Gyt, Ga, Gfdt, Gdt, Gr by assumption. reflexivity.
Qed.

Lemma net_u_ok (p : P) (t X : tensor) :
  shape t = [M self; 1] -> shape X = [M self; D self] ->
  exists u Z p', net_u p t X = Ok (u, Z, p') /\
    shape u = [M self; 1] /\ shape Z = [M self; D self].
Proof.
  intros Ht HX. unfold net_u.
  destruct (concat1_ok t X _ _ _ Ht HX) as (c & Hc & Sc).
  destruct (ws_model ws p c Sc) as (u & p' & Hu & Su).
  destruct (ws_model ws p' c Sc) as (u' & p'' & Hu' & Su').
  assert (Hf : (fun X' => c' <- concat1 t X' ;;
                          '(u', _) <- model_call p' c' ;; Ok u') X
               = Ok u')
    by (cbn beta; rewrite Hc; cbn [bind]; rewrite Hu'; reflexivity).
  destruct (ws_grad ws _ X Hf) as (Z & HZ & SZ).
  exists u, Z, p'. rewrite Hc; cbn [bind]. rewrite Hu; cbn [bind].
  rewrite HZ; cbn [bind]. repeat split; congruence.
Qed.

Variables t W : tensor.
Hypothesis Ht : shape t = [M self; N self + 1; 1].
Hypothesis HW : shape W = [M self; N self + 1; D self].

Local Abbreviation Inv := (loop_inv self t W).
Local Abbreviation step_facts := (pass_facts self t W).



Lemma slice_shapes n r :
  slice1 t n = Ok r -> shape r = [M self; 1].
Proof.
  unfold slice1. rewrite Ht. destruct (n <? N self + 1); intros H; inversion H.
  reflexivity.
Qed.

Lemma slice_shapes_W n r :
  slice1 W n = Ok r -> shape r = [M self; D self].
Proof.
  unfold slice1. rewrite HW. destruct (n <? N self + 1); intros H; inversion H.
  reflexivity.
Qed.

Lemma body_ok n st :
  Inv n st -> n < N self ->
  exists st', body t W n st = Ok st' /\ Inv (S n) st' /\
              step_facts n st st'.
Proof.
  intros (It & IW & SX & SY & SZ & SL & LX & LY & AX & AY & _) Hn.
  pose proof (slice_shapes _ _ It) as St0.
  pose proof (slice_shapes_W _ _ IW) as SW0.
  destruct (slice1_ok t _ _ _ (n + 1) Ht ltac:(lia)) as (t1 & Ht1 & St1 & _).
  destruct (slice1_ok W _ _ _ (n + 1) HW ltac:(lia)) as (W1 & HW1 & SW1 & _).
  destruct (X1_expr_ok _ _ _ _ _ _ _ St0 SW0 SX SY SZ St1 SW1)
    as (mv & sg & x1 & _ & _ & Hx1 & Sx1 & _).
  destruct (Y1_tilde_expr_ok _ _ _ _ _ _ _ St0 SW0 SX SY SZ St1 SW1)
    as (fv & sg' & p & yt & _ & _ & Hyt & Syt & _).
  destruct (net_u_ok (self_model st) t1 x1 St1 Sx1)
    as (y1 & z1 & p1 & Hnet & Sy1 & Sz1).
  destruct (broadcast_same sub y1 yt _ Sy1 Syt) as (d & Hd & Sd & Gd).
  pose proof (broadcast_wf _ _ _ _ Hd) as Wd.
  destruct (tadd_scalar (loss st) (reduce_sum (square d)) SL
              (shape_reduce_sum _)) as (l' & Hl' & Sl' & Il').
  eexists. split; [|split].
  - unfold body. rewrite Ht1; cbn [bind]. rewrite HW1; cbn [bind].
    rewrite Hx1; cbn [bind]. rewrite Hyt; cbn [bind].
    rewrite Hnet; cbn [bind]. unfold tsub. rewrite Hd; cbn [bind].
    rewrite Hl'; cbn [bind]. reflexivity.
  - unfold loop_inv;
      cbn [t0 W0 X0 Y0 Z0 loss X_list Y_list X1 Y1 Z1 self_model].
    replace (S n) with (n + 1) by lia.
    repeat split; try assumption.
    + rewrite length_app, LX. simpl. lia.
    + rewrite length_app, LY. simpl. lia.
    + intros a Ha. apply in_app_or in Ha. destruct Ha as [Ha|[Ha|[]]];
        [apply AX; assumption | subst a; assumption].
    + intros a Ha. apply in_app_or in Ha. destruct Ha as [Ha|[Ha|[]]];
        [apply AY; assumption | subst a; assumption].
  - exists yt. cbn [t0 W0 X0 Y0 Z0 loss X_list Y_list self_model].
    repeat split; try assumption.
    rewrite Il', (reduce_sum_square_col d _ Sd Wd). f_equal.
    apply sumn_ext. intros i Hi.
    rewrite Gd by (repeat constructor; lia). reflexivity.
Qed.

Lemma loop_app ns ns' st :
  loop t W (ns ++ ns') st =
  (st' <- loop t W ns st ;; loop t W ns' st').
Proof.
  revert st. induction ns as [|n ns IH]; intros st; simpl; [reflexivity|].
  destruct (body t W n st); simpl; [apply IH | reflexivity].
Qed.

Lemma run_S Xi n :
  run self t W Xi (S n) = (st <- run self t W Xi n ;; body t W n st).
Proof.
  unfold run. destruct (prelude self t W Xi) as [st0|]; cbn [bind];
    [|reflexivity].
  rewrite seq_S, loop_app. simpl.
  destruct (loop t W (seq 0 n) st0); cbn [bind]; [|reflexivity].
  destruct (body t W n a); reflexivity.
Qed.

Variable Xi : tensor.
Hypothesis HXi : shape Xi = [1; D self].

Lemma prelude_ok :
  exists st, prelude self t W Xi = Ok st /\ Inv 0 st /\
    (forall i j, i < M self -> j < D self ->
       get (X0 st) [i; j] = get Xi [0; j]) /\
    item (loss st) = zero /\ X_list st = [X0 st] /\ Y_list st = [Y0 st] /\
    Y1 st = None.
Proof.
  destruct (slice1_ok t _ _ _ 0 Ht ltac:(lia)) as (t0' & Ht0 & St0 & _).
  destruct (slice1_ok W _ _ _ 0 HW ltac:(lia)) as (W0' & HW0 & SW0 & _).
  destruct (tile_rows_ok Xi _ (M self) HXi) as (x0 & Hx0 & Sx0 & Gx0).
  destruct (net_u_ok (model self) t0' x0 St0 Sx0)
    as (y0 & z0 & p0 & Hnet & Sy0 & Sz0).
  eexists. split; [|split; [|split]].
  - unfold prelude. rewrite Ht0; cbn [bind]. rewrite HW0; cbn [bind].
    rewrite Hx0; cbn [bind]. rewrite Hnet; cbn [bind]. reflexivity.
  - unfold loop_inv; cbn [t0 W0 X0 Y0 Z0 loss X_list Y_list X1 Y1 Z1].
    repeat split; try assumption; try reflexivity; try lia.
    + intros a [Ha|[]]. subst a. assumption.
    + intros a [Ha|[]]. subst a. assumption.
  - exact Gx0.
  - cbn [t0 W0 X0 Y0 Z0 loss X_list Y_list X1 Y1 Z1]. repeat split.
Qed.

(** Every pass up to [N] is reached, with the locals in the invariant. *)
Lemma run_ok n :
  n <= N self -> exists st, run self t W Xi n = Ok st /\ Inv n st.
Proof.
  induction n as [|n IH]; intros Hn.
  - destruct prelude_ok as (st & Hst & HI & _).
    exists st. split; [|assumption].
    unfold run. rewrite Hst. reflexivity.
  - destruct (IH ltac:(lia)) as (st & Hst & HI).
    destruct (body_ok n st HI ltac:(lia)) as (st' & Hb & HI' & _).
    exists st'. split; [|assumption].
    rewrite run_S, Hst. exact Hb.
Qed.

Lemma run_step n :
  n < N self ->
  exists st st', run self t W Xi n = Ok st /\ run self t W Xi (S n) = Ok st' /\
    Inv n st /\ Inv (S n) st' /\ step_facts n st st'.
Proof.
  intros Hn. destruct (run_ok n ltac:(lia)) as (st & Hst & HI).
  destruct (body_ok n st HI Hn) as (st' & Hb & HI' & Hf).
  exists st, st'. split; [assumption|].
  split; [rewrite run_S, Hst; exact Hb|].
  split; [assumption|]. split; assumption.
Qed.

Lemma state_at_run n st :
  run self t W Xi n = Ok st -> state_at self t W Xi n = st.
Proof. intros H. unfold state_at. rewrite H. reflexivity. Qed.

Lemma state_at_ok n :
  n <= N self ->
  run self t W Xi n = Ok (state_at self t W Xi n) /\
  Inv n (state_at self t W Xi n).
Proof.
  intros Hn. destruct (run_ok n Hn) as (st & Hst & HI).
  rewrite (state_at_run n st Hst). split; assumption.
Qed.

Lemma state_at_step n :
  n < N self ->
  step_facts n (state_at self t W Xi n) (state_at self t W Xi (S n)).
Proof.
  intros Hn. destruct (run_step n Hn) as (st & st' & H1 & H2 & _ & _ & Hf).
  rewrite (state_at_run _ _ H1), (state_at_run _ _ H2). exact Hf.
Qed.

Lemma Y1_tilde_at_step n yt :
  n < N self ->
  let st := state_at self t W Xi n in
  let st' := state_at self t W Xi (S n) in
  Y1_tilde_expr (t0 st) (W0 st) (X0 st) (Y0 st) (Z0 st) (t0 st') (W0 st')
    = Ok yt ->
  Y1_tilde_at self t W Xi n = yt.
Proof.
  intros Hn st st' Hyt.
  destruct (state_at_step n Hn) as (yt' & Ht1 & HW1 & _).
  unfold Y1_tilde_at. rewrite Ht1; cbn [bind]. rewrite HW1; cbn [bind].
  fold st st'. rewrite Hyt. reflexivity.
Qed.

(** The recorded lists hold the state and the value of every pass so far. *)
Lemma lists_nth n :
  n <= N self ->
  forall k d, k <= n ->
    nth k (X_list (state_at self t W Xi n)) d = X0 (state_at self t W Xi k) /\
    nth k (Y_list (state_at self t W Xi n)) d = Y0 (state_at self t W Xi k).
Proof.
  induction n as [|n IH]; intros Hn k d Hk.
  - replace k with 0 by lia.
    destruct prelude_ok as (st & Hst & _ & _ & _ & HXl & HYl & _).
    assert (Hr : run self t W Xi 0 = Ok st)
      by (unfold run; rewrite Hst; reflexivity).
    rewrite (state_at_run _ _ Hr), HXl, HYl. split; reflexivity.
  - destruct (state_at_step n ltac:(lia)) as (yt & _ & _ & _ & _ & _ & _ & HXl & HYl).
    destruct (state_at_ok n ltac:(lia)) as (_ & HI).
    destruct HI as (_ & _ & _ & _ & _ & _ & LX & LY & _).
    rewrite HXl, HYl.
    destruct (Nat.eq_dec k (S n)) as [->|Hne].
    + rewrite !app_nth2 by lia. rewrite LX, LY, Nat.sub_diag.
      split; reflexivity.
    + rewrite !app_nth1 by lia. apply IH; lia.
Qed.


Local Abbreviation resid := (residual self t W Xi).

Lemma loss_at n :
  n <= N self ->
  item (loss (state_at self t W Xi n)) = sumn n resid.
Proof.
  induction n as [|n IH]; intros Hn.
  - destruct prelude_ok as (st & Hst & _ & _ & HL & _).
    assert (Hr : run self t W Xi 0 = Ok st)
      by (unfold run; rewrite Hst; reflexivity).
    rewrite (state_at_run _ _ Hr), HL. reflexivity.
  - destruct (state_at_step n ltac:(lia))
      as (yt & _ & _ & _ & Hyt & _ & HL & _).
    rewrite HL, sumn_S, IH by lia. unfold residual.
    rewrite (Y1_tilde_at_step n yt ltac:(lia) Hyt). reflexivity.
Qed.

(** The terminal condition is computed from its argument, so that the tape
    has a gradient for it. *)
Hypothesis on_tape : g_on_tape = true.

Lemma epilogue_ok st :
  Inv (N self) st -> 0 < N self ->
  exists gX DgX l X Y,
    g_tf (X0 st) = Ok gX /\ tape_gradient g_tf (X0 st) = Ok DgX /\
    shape gX = [M self; 1] /\ shape DgX = [M self; D self] /\
    epilogue st = Ok (l, X, Y, scalar (get Y [0; 0; 0])) /\
    shape l = [] /\
    shape X = [M self; N self + 1; D self] /\
    shape Y = [M self; N self + 1; 1] /\
    (forall i n j d, i < M self -> n <= N self -> j < D self ->
       get X [i; n; j] = get (nth n (X_list st) d) [i; j]) /\
    (forall i n d, i < M self -> n <= N self ->
       get Y [i; n; 0] = get (nth n (Y_list st) d) [i; 0]) /\
    item l =
      add (add (item (loss st))
               (sumn (M self)
                  (fun i => sqr (sub (get (Y0 st) [i; 0]) (get gX [i; 0])))))
          (sumn (M self * D self)
             (fun k => sqr (sub (nth k (data (Z0 st)) zero)
                                (nth k (data DgX) zero)))).
Proof.
  intros (It & IW & SX & SY & SZ & SL & LX & LY & AX & AY & H1) HN.
  destruct (H1 HN) as (EX1 & EY1 & EZ1).
  destruct (ws_g ws (X0 st) SX) as (gX & HgX & SgX).
  destruct (ws_grad ws g_tf (X0 st) HgX) as (DgX & HDgX & SDgX).
  rewrite SX in SDgX.
  destruct (broadcast_same sub (Y0 st) gX _ SY SgX) as (dY & HdY & SdY & GdY).
  pose proof (broadcast_wf _ _ _ _ HdY) as WdY.
  destruct (tadd_scalar (loss st) (reduce_sum (square dY)) SL
              (shape_reduce_sum _)) as (l1 & Hl1 & Sl1 & Il1).
  destruct (broadcast_same sub (Z0 st) DgX _ SZ SDgX) as (dZ & HdZ & SdZ & GdZ).
  pose proof (broadcast_wf _ _ _ _ HdZ) as WdZ.
  destruct (tadd_scalar l1 (reduce_sum (square dZ)) Sl1
              (shape_reduce_sum _)) as (l2 & Hl2 & Sl2 & Il2).
  assert (NX : X_list st <> []) by (destruct (X_list st); [discriminate LX | discriminate]).
  assert (NY : Y_list st <> []) by (destruct (Y_list st); [discriminate LY | discriminate]).
  destruct (stack1_ok (X_list st) (scalar zero) _ _ NX AX) as (X & HX & ShX & GX).
  destruct (stack1_ok (Y_list st) (scalar zero) _ _ NY AY) as (Y & HY & ShY & GY).
  rewrite LX in ShX. rewrite LY in ShY.
  replace (S (N self)) with (N self + 1) in ShX, ShY by lia.
  exists gX, DgX, l2, X, Y.
  split; [assumption|]. split; [assumption|]. split; [assumption|].
  split; [assumption|]. split; [|split; [assumption|split; [assumption|split; [assumption|split; [|split]]]]].
  - unfold epilogue, Dg_tf. rewrite EY1, EX1, EZ1; cbn [lookup bind].
    rewrite HgX; cbn [bind]. unfold tsub. rewrite HdY; cbn [bind].
    rewrite Hl1; cbn [bind]. rewrite on_tape, HDgX; cbn [bind operand].
    rewrite HdZ; cbn [bind]. rewrite Hl2; cbn [bind].
    rewrite HX; cbn [bind]. rewrite HY; cbn [bind].
    rewrite (index000_ok Y _ _ _ ShY) by (pose proof (ws_M ws); lia).
    reflexivity.
  - intros i n j d Hi Hn Hj.
    rewrite GX; [| repeat constructor; assumption | rewrite LX; lia].
    f_equal. apply nth_indep. lia.
  - intros i n d Hi Hn.
    rewrite GY; [| repeat constructor; lia | rewrite LY; lia].
    f_equal. apply nth_indep. lia.
  - rewrite Il2, Il1. f_equal.
    + f_equal. rewrite (reduce_sum_square_col dY _ SdY WdY).
      apply sumn_ext. intros i Hi.
      rewrite GdY by (repeat constructor; lia). reflexivity.
    + rewrite (reduce_sum_square_all dZ WdZ).
      assert (Hsz : size dZ = M self * D self)
        by (unfold size; rewrite SdZ; simpl; lia).
      rewrite Hsz. apply sumn_ext. intros k Hk.
      assert (Hd : nth k (data dZ) zero =
                   sub (nth k (data (Z0 st)) zero) (nth k (data DgX) zero)).
      { rewrite (nth_data_get dZ k) by lia. rewrite SdZ.
        rewrite GdZ by (apply unravel_in_range; simpl; lia).
        rewrite <- SZ at 1. rewrite <- SDgX.
        rewrite <- !nth_data_get
          by (unfold size; rewrite ?SZ, ?SDgX; simpl; lia).
        reflexivity. }
      rewrite Hd. reflexivity.
Qed.

Lemma slice1_get (a r : tensor) d0 d1 d2 n i j :
  shape a = [d0; d1; d2] -> slice1 a n = Ok r -> i < d0 -> j < d2 ->
  get r [i; j] = get a [i; n; j].
Proof.
  intros Ha Hr Hi Hj. unfold slice1 in Hr. rewrite Ha in Hr.
  destruct (n <? d1); inversion Hr.
  rewrite get_build by (repeat constructor; assumption). reflexivity.
Qed.

Lemma loss_function_ok :
  0 < N self ->
  let stN := state_at self t W Xi (N self) in
  exists gX DgX l X Y,
    g_tf (X0 stN) = Ok gX /\ tape_gradient g_tf (X0 stN) = Ok DgX /\
    shape gX = [M self; 1] /\ shape DgX = [M self; D self] /\
    loss_function self t W Xi =
      Ok (l, X, Y, scalar (get Y [0; 0; 0]),
          with_model self (optimizer self) (self_model stN)) /\
    shape l = [] /\
    shape X = [M self; N self + 1; D self] /\
    shape Y = [M self; N self + 1; 1] /\
    (forall i n j, i < M self -> n <= N self -> j < D self ->
       get X [i; n; j] = get (X0 (state_at self t W Xi n)) [i; j]) /\
    (forall i n, i < M self -> n <= N self ->
       get Y [i; n; 0] = get (Y0 (state_at self t W Xi n)) [i; 0]) /\
    item l =
      add (add (sumn (N self) resid)
               (sumn (M self)
                  (fun i => sqr (sub (get (Y0 stN) [i; 0]) (get gX [i; 0])))))
          (sumn (M self * D self)
             (fun k => sqr (sub (nth k (data (Z0 stN)) zero)
                                (nth k (data DgX) zero)))).
Proof.
  intros HN stN. subst stN.
  destruct (state_at_ok (N self) (le_n _)) as (Hrun & HI).
  destruct (epilogue_ok _ HI HN)
    as (gX & DgX & l & X & Y & HgX & HDgX & SgX & SDgX & Hep & Sl & SX & SY
        & GX & GY & Il).
  exists gX, DgX, l, X, Y.
  split; [assumption|]. split; [assumption|]. split; [assumption|].
  split; [assumption|].
  split; [unfold loss_function; rewrite Hrun; cbn [bind]; rewrite Hep;
          reflexivity|].
  split; [assumption|]. split; [assumption|]. split; [assumption|].
  split; [|split].
  - intros i n j Hi Hn Hj. rewrite (GX i n j (scalar zero) Hi Hn Hj).
    destruct (lists_nth (N self) (le_n _) n (scalar zero) Hn) as (HXn & _).
    rewrite HXn. reflexivity.
  - intros i n Hi Hn. rewrite (GY i n (scalar zero) Hi Hn).
    destruct (lists_nth (N self) (le_n _) n (scalar zero) Hn) as (_ & HYn).
    rewrite HYn. reflexivity.
  - rewrite Il, (loss_at (N self) (le_n _)). reflexivity.
Qed.

(** C1. In every pass [n < N] of the stepper the forward state is advanced by
    the Euler-Maruyama rule: the state trajectory [X] that [loss_function]
    returns satisfies
    [X[i,n+1,j] = X[i,n,j] + mu[i,j] * (t[i,n+1] - t[i,n])
                  + sum_l sigma[i,j,l] * (W[i,n+1,l] - W[i,n,l])],
    with [mu] and [sigma] evaluated at the locals of pass [n]; the product of
    [sigma] with the noise increment is a matrix-vector product for each
    trajectory [i].  (The stepper returns a trajectory when its last
    statements succeed, for which the terminal condition has to be on the
    tape.) *)
Theorem euler_maruyama_step :
  forall n, n < N self ->
  let st := state_at self t W Xi n in
  exists l X Y y self' mv sg,
    loss_function self t W Xi = Ok (l, X, Y, y, self') /\
    shape X = [M self; N self + 1; D self] /\
    run self t W Xi n = Ok st /\
    slice1 t n = Ok (t0 st) /\ slice1 W n = Ok (W0 st) /\
    (forall i j, i < M self -> j < D self ->
       get (X0 st) [i; j] = get X [i; n; j]) /\
    (forall i, i < M self -> get (Y0 st) [i; 0] = get Y [i; n; 0]) /\
    mu_tf (t0 st) (X0 st) (Y0 st) (Z0 st) = Ok mv /\
    sigma_tf (t0 st) (X0 st) (Y0 st) = Ok sg /\
    forall i j, i < M self -> j < D self ->
      get X [i; n + 1; j] =
      add (add (get X [i; n; j])
               (mul (get mv [i; j])
                    (sub (get t [i; n + 1; 0]) (get t [i; n; 0]))))
          (sumn (D self)
             (fun k => mul (get sg [i; j; k])
                           (sub (get W [i; n + 1; k]) (get W [i; n; k])))).
Proof.
  intros n Hn st. subst st.
  destruct (loss_function_ok ltac:(lia))
    as (gX & DgX & l & X & Y & _ & _ & _ & _ & HL & _ & SX & _ & GX & GY & _).
  destruct (state_at_ok n ltac:(lia)) as (Hrun & HI).
  destruct HI as (It & IW & SX0 & SY0 & SZ0 & _).
  destruct (state_at_step n Hn) as (yt & Ht1 & HW1 & Hx1 & _).
  pose proof (slice_shapes _ _ It) as St0.
  pose proof (slice_shapes_W _ _ IW) as SW0.
  pose proof (slice_shapes _ _ Ht1) as St1.
  pose proof (slice_shapes_W _ _ HW1) as SW1.
  destruct (X1_expr_ok _ _ _ _ _ _ _ St0 SW0 SX0 SY0 SZ0 St1 SW1)
    as (mv & sg & x1 & Hmv & Hsg & Hx1' & _ & Gx1).
  rewrite Hx1 in Hx1'. injection Hx1' as <-.
  eexists l, X, Y, (scalar (get Y [0; 0; 0])), _, mv, sg.
  split; [eassumption|]. split; [assumption|]. split; [assumption|].
  split; [assumption|]. split; [assumption|].
  split; [intros i j Hi Hj; symmetry; apply GX; lia|].
  split; [intros i Hi; symmetry; apply GY; lia|].
  split; [assumption|]. split; [assumption|].
  intros i j Hi Hj.
  rewrite (GX i (n + 1) j) by lia. rewrite (GX i n j) by lia.
  replace (state_at self t W Xi (n + 1)) with (state_at self t W Xi (S n))
    by (f_equal; lia).
  rewrite (Gx1 i j Hi Hj).
  rewrite (slice1_get _ _ _ _ _ _ i 0 Ht It) by lia.
  rewrite (slice1_get _ _ _ _ _ _ i 0 Ht Ht1) by lia.
  f_equal. apply sumn_ext. intros k Hk.
  rewrite (slice1_get _ _ _ _ _ _ i k HW IW) by lia.
  rewrite (slice1_get _ _ _ _ _ _ i k HW HW1) by lia.
  reflexivity.
Qed.

(** C3. The loss that [loss_function] returns is the sum accumulated over the
    passes of the batch-summed squares of [Y1 - Y1_tilde], plus the terminal
    penalties [sum((Y_N - g(X_N))^2)] and [sum((Z_N - Dg(X_N))^2)], where
    [Dg] is the gradient of [g] with respect to the terminal state, which the
    tape has when [g] is computed from its argument; every reduction is a
    plain sum over the batch (and, for [Z], the dimensions), with no division
    by the batch size. *)
Theorem loss_is_sum_of_residuals_and_terminal_penalties :
  0 < N self ->
  let stN := state_at self t W Xi (N self) in
  exists gX DgX l X Y y self',
    loss_function self t W Xi = Ok (l, X, Y, y, self') /\
    run self t W Xi (N self) = Ok stN /\
    g_tf (X0 stN) = Ok gX /\ tape_gradient g_tf (X0 stN) = Ok DgX /\
    (forall k, k < N self ->
       resid k =
       sumn (M self)
         (fun i => sqr (sub (get Y [i; k + 1; 0])
                            (get (Y1_tilde_at self t W Xi k) [i; 0])))) /\
    item l =
      add (add (sumn (N self) resid)
               (sumn (M self)
                  (fun i => sqr (sub (get Y [i; N self; 0]) (get gX [i; 0])))))
          (sumn (M self * D self)
             (fun k => sqr (sub (nth k (data (Z0 stN)) zero)
                                (nth k (data DgX) zero)))).
Proof.
  intros HN stN. subst stN.
  destruct (loss_function_ok HN)
    as (gX & DgX & l & X & Y & HgX & HDgX & _ & _ & HL & _ & _ & _ & _ & GY & Il).
  destruct (state_at_ok (N self) (le_n _)) as (Hrun & _).
  eexists gX, DgX, l, X, Y, (scalar (get Y [0; 0; 0])), _.
  split; [eassumption|]. split; [assumption|]. split; [assumption|].
  split; [assumption|]. split.
  - intros k Hk. unfold residual. apply sumn_ext. intros i Hi.
    rewrite (GY i (k + 1)) by lia. replace (k + 1) with (S k) by lia.
    reflexivity.
  - rewrite Il. f_equal. f_equal. apply sumn_ext. intros i Hi.
    rewrite (GY i (N self)) by lia. reflexivity.
Qed.

(** With at least two dimensions, or a single trajectory, [Y1_tilde] is the
    inner product over the dimensions taken for each trajectory. *)
Lemma Y1_tilde_per_trajectory n :
  n < N self -> D self <> 1 \/ M self = 1 ->
  let st := state_at self t W Xi n in
  let st' := state_at self t W Xi (S n) in
  exists fv sg,
    phi_tf (t0 st) (X0 st) (Y0 st) (Z0 st) = Ok fv /\
    sigma_tf (t0 st) (X0 st) (Y0 st) = Ok sg /\
    forall i, i < M self ->
      get (Y1_tilde_at self t W Xi n) [i; 0] =
      Y1_tilde_spec (Y0 st) fv (t0 st) (t0 st') (Z0 st) sg (W0 st) (W0 st')
        (D self) i.
Proof.
  intros Hn Hshape st st'. subst st st'.
  destruct (state_at_ok n ltac:(lia)) as (_ & HI).
  destruct HI as (It & IW & SX0 & SY0 & SZ0 & _).
  destruct (state_at_step n Hn) as (yt & Ht1 & HW1 & _ & Hyt & _).
  pose proof (slice_shapes _ _ It) as St0.
  pose proof (slice_shapes_W _ _ IW) as SW0.
  pose proof (slice_shapes _ _ Ht1) as St1.
  pose proof (slice_shapes_W _ _ HW1) as SW1.
  destruct (Y1_tilde_expr_ok _ _ _ _ _ _ _ St0 SW0 SX0 SY0 SZ0 St1 SW1)
    as (fv & sg & p & yt' & Hfv & Hsg & Hyt' & _ & _ & Gp & Gyt).
  rewrite Hyt in Hyt'. injection Hyt' as <-.
  exists fv, sg. split; [assumption|]. split; [assumption|].
  intros i Hi. rewrite (Y1_tilde_at_step n yt Hn Hyt), (Gyt i Hi).
  unfold Y1_tilde_spec. f_equal. unfold inner_value.
  assert (Hb : (D self =? 1) && negb (M self =? 1) = false).
  { destruct Hshape as [Hd|Hm].
    - destruct (Nat.eqb_spec (D self) 1); [contradiction | reflexivity].
    - rewrite Hm. simpl. apply andb_false_r. }
  rewrite Hb. apply sumn_ext. intros j Hj.
  rewrite (Gp i j Hi Hj). reflexivity.
Qed.

End Stepper.

(** ** The problem whose functions vanish *)

Section ZeroProblem.

Context {R : Type} {SR : Scalar R} {E : Engine R} {PB : Problem R}.

Local Abbreviation tensor := (tensor R).

Variable self : FBSNN.
Hypothesis ws : well_shaped self.

Variables t W Xi : tensor.
Hypothesis Ht : shape t = [M self; N self + 1; 1].
Hypothesis HW : shape W = [M self; N self + 1; D self].
Hypothesis HXi : shape Xi = [1; D self].

(** The terminal condition is computed from its argument. *)
Hypothesis on_tape : g_on_tape = true.

(** The laws of the scalar arithmetic the collapse relies on. *)
Hypothesis add_0_r : forall x : R, add x zero = x.
Hypothesis mul_0_l : forall x : R, mul zero x = zero.
Hypothesis mul_0_r : forall x : R, mul x zero = zero.
Hypothesis sub_0_r : forall x : R, sub x zero = x.

(** [mu], [sigma], [phi] and [g] return zero, and so does the gradient the
    tape has for [g]. *)
Hypothesis mu_zero : forall a b c d r, mu_tf a b c d = Ok r ->
  forall i j, i < M self -> j < D self -> get r [i; j] = zero.
Hypothesis sigma_zero : forall a b c r, sigma_tf a b c = Ok r ->
  forall i j k, i < M self -> j < D self -> k < D self ->
    get r [i; j; k] = zero.
Hypothesis phi_zero : forall a b c d r, phi_tf a b c d = Ok r ->
  forall i, i < M self -> get r [i; 0] = zero.
Hypothesis g_zero : forall X r, g_tf X = Ok r ->
  forall i, i < M self -> get r [i; 0] = zero.
Hypothesis Dg_zero : forall X r, tape_gradient g_tf X = Ok r ->
  forall k, k < M self * D self -> nth k (data r) zero = zero.

Lemma sumn_zero n (f : nat -> R) :
  (forall k, k < n -> f k = zero) -> sumn n f = zero.
Proof.
  induction n as [|n IH]; intros Hf; [reflexivity|].
  rewrite sumn_S, IH by (intros k Hk; apply Hf; lia).
  rewrite Hf by lia. apply add_0_r.
Qed.

Lemma X_stays n :
  n <= N self ->
  forall i j, i < M self -> j < D self ->
    get (X0 (state_at self t W Xi n)) [i; j] = get Xi [0; j].
Proof.
  induction n as [|n IH]; intros Hn i j Hi Hj.
  - destruct (prelude_ok self ws t W Ht HW Xi HXi) as (st & Hst & _ & GX & _).
    assert (Hr : run self t W Xi 0 = Ok st)
      by (unfold run; rewrite Hst; reflexivity).
    rewrite (state_at_run self t W Xi 0 st Hr). apply GX; assumption.
  - destruct (state_at_ok self ws t W Ht HW Xi HXi n ltac:(lia)) as (_ & HI).
    destruct HI as (It & IW & SX0 & SY0 & SZ0 & _).
    destruct (state_at_step self ws t W Ht HW Xi HXi n ltac:(lia))
      as (yt & Ht1 & HW1 & Hx1 & _).
    pose proof (slice_shapes self t Ht _ _ It) as St0.
    pose proof (slice_shapes_W self W HW _ _ IW) as SW0.
    pose proof (slice_shapes self t Ht _ _ Ht1) as St1.
    pose proof (slice_shapes_W self W HW _ _ HW1) as SW1.
    destruct (X1_expr_ok self ws _ _ _ _ _ _ _ St0 SW0 SX0 SY0 SZ0 St1 SW1)
      as (mv & sg & x1 & Hmv & Hsg & Hx1' & _ & Gx1).
    rewrite Hx1 in Hx1'. injection Hx1' as <-.
    rewrite (Gx1 i j Hi Hj).
    rewrite (mu_zero _ _ _ _ _ Hmv i j Hi Hj), mul_0_l, add_0_r.
    rewrite sumn_zero.
    + rewrite add_0_r. apply IH; [lia | assumption | assumption].
    + intros k Hk. rewrite (sigma_zero _ _ _ _ Hsg i j k Hi Hj Hk).
      apply mul_0_l.
Qed.

Lemma Y1_tilde_is_Y0 n :
  n < N self ->
  forall i, i < M self ->
    get (Y1_tilde_at self t W Xi n) [i; 0] =
    get (Y0 (state_at self t W Xi n)) [i; 0].
Proof.
  intros Hn i Hi.
  destruct (state_at_ok self ws t W Ht HW Xi HXi n ltac:(lia)) as (_ & HI).
  destruct HI as (It & IW & SX0 & SY0 & SZ0 & _).
  destruct (state_at_step self ws t W Ht HW Xi HXi n Hn)
    as (yt & Ht1 & HW1 & _ & Hyt & _).
  pose proof (slice_shapes self t Ht _ _ It) as St0.
  pose proof (slice_shapes_W self W HW _ _ IW) as SW0.
  pose proof (slice_shapes self t Ht _ _ Ht1) as St1.
  pose proof (slice_shapes_W self W HW _ _ HW1) as SW1.
  destruct (Y1_tilde_expr_ok self ws _ _ _ _ _ _ _ St0 SW0 SX0 SY0 SZ0 St1 SW1)
    as (fv & sg & p & yt' & Hfv & Hsg & Hyt' & _ & _ & Gp & Gyt).
  rewrite Hyt in Hyt'. injection Hyt' as <-.
  rewrite (Y1_tilde_at_step self ws t W Ht HW Xi HXi n yt Hn Hyt).
  rewrite (Gyt i Hi), (phi_zero _ _ _ _ _ Hfv i Hi), mul_0_l, add_0_r.
  assert (Hp : forall a b, a < M self -> b < D self -> get p [a; b; 0] = zero).
  { intros a b Ha Hb. rewrite (Gp a b Ha Hb). apply sumn_zero.
    intros k Hk. rewrite (sigma_zero _ _ _ _ Hsg a b k Ha Hb Hk).
    apply mul_0_l. }
  assert (Hin : inner_value (Z0 (state_at self t W Xi n)) p
                  (M self) (D self) i = zero).
  { unfold inner_value.
    destruct ((D self =? 1) && negb (M self =? 1)); apply sumn_zero;
      intros k Hk; rewrite Hp; try apply mul_0_r; try assumption.
    pose proof (ws_D ws). lia. }
  rewrite Hin. apply add_0_r.
Qed.

(** C5, as the code has it.  When [mu], [sigma], [phi] and [g] return zero,
    with [g] computed from its argument so that the tape has a gradient for
    it (the gradient is then zero), [loss_function]
    returns a state trajectory equal to [Xi] at every step of every
    trajectory, and a loss equal to the sum over the passes of the batch-summed
    squares of [Y1 - Y0], plus [sum((Y_N)^2)] and [sum((Z_N)^2)]. *)
Theorem zero_problem_closed_form :
  0 < N self ->
  exists l X Y y self',
    loss_function self t W Xi = Ok (l, X, Y, y, self') /\
    shape X = [M self; N self + 1; D self] /\
    shape Y = [M self; N self + 1; 1] /\
    (forall i n j, i < M self -> n <= N self -> j < D self ->
       get X [i; n; j] = get Xi [0; j]) /\
    item l =
      add (add (sumn (N self)
                  (fun n => sumn (M self)
                     (fun i => sqr (sub (get Y [i; n + 1; 0])
                                        (get Y [i; n; 0])))))
               (sumn (M self) (fun i => sqr (get Y [i; N self; 0]))))
          (sumn (M self * D self)
             (fun k => sqr (nth k (data (Z0 (state_at self t W Xi (N self))))
                              zero))).
Proof.
  intros HN.
  destruct (loss_function_ok self ws t W Ht HW Xi HXi on_tape HN)
    as (gX & DgX & l & X & Y & HgX & HDgX & _ & _ & HL & _ & SX & SY & GX & GY
        & Il).
  eexists l, X, Y, (scalar (get Y [0; 0; 0])), _.
  split; [eassumption|]. split; [assumption|]. split; [assumption|].
  split.
  - intros i n j Hi Hn Hj. rewrite (GX i n j Hi Hn Hj).
    apply X_stays; assumption.
  - rewrite Il. f_equal; [f_equal|].
    + apply sumn_ext. intros n Hn. unfold residual.
      apply sumn_ext. intros i Hi.
      rewrite (Y1_tilde_is_Y0 n Hn i Hi).
      rewrite (GY i (n + 1)) by lia. rewrite (GY i n) by lia.
      replace (n + 1) with (S n) by lia. reflexivity.
    + apply sumn_ext. intros i Hi.
      rewrite (g_zero _ _ HgX i Hi), sub_0_r.
      rewrite (GY i (N self)) by lia. reflexivity.
    + apply sumn_ext. intros k Hk.
      rewrite (Dg_zero _ _ HDgX k Hk), sub_0_r. reflexivity.
Qed.

End ZeroProblem.

(** ** The path simulator *)

Section PathSimulator.

Context {R : Type} {SR : Scalar R} {E : Engine R}.

Local Abbreviation tensor := (tensor R).

Lemma get_zeros s idx : in_range s idx -> get (zeros s) idx = zero.
Proof. intros H. unfold zeros. rewrite get_build by assumption. reflexivity. Qed.

Lemma assign_from1_ok (a v : tensor) d0 d1 d2 :
  shape a = [d0; S d1; d2] ->
  broadcast_shapes (shape v) [d0; d1; d2] = Some [d0; d1; d2] ->
  exists r, assign_from1 a v = Ok r /\ shape r = [d0; S d1; d2] /\
    (forall i j, i < d0 -> j < d2 -> get r [i; 0; j] = get a [i; 0; j]) /\
    (forall i n j, i < d0 -> n < d1 -> j < d2 ->
       get r [i; S n; j] = get v (bidx (shape v) [i; n; j])).
Proof.
  intros Ha Hb. unfold assign_from1. rewrite Ha.
  replace (S d1 - 1) with d1 by lia. rewrite Hb, list_eqb_refl.
  eexists. split; [reflexivity|]. split; [reflexivity|]. split.
  - intros i j Hi Hj.
    rewrite get_build by range.
    reflexivity.
  - intros i n j Hi Hn Hj.
    rewrite get_build by range.
    cbn [Nat.eqb]. replace (S n - 1) with n by lia. reflexivity.
Qed.

Lemma get_cumsum1 (a : tensor) d0 d1 d2 i n j :
  shape a = [d0; d1; d2] -> i < d0 -> n < d1 -> j < d2 ->
  get (cumsum1 a) [i; n; j] = cum (fun k => get a [i; k; j]) n.
Proof.
  intros Ha Hi Hn Hj. unfold cumsum1. rewrite Ha.
  rewrite get_build by range. reflexivity.
Qed.

Variable self : FBSNN.

(** The random source returns an array of the requested size. *)
Hypothesis normal_shape :
  forall s r, shape (fst (random_normal s r)) = s.

Lemma fetch_minibatch_ok (r : Rng) :
  0 < N self ->
  exists Dt' DW' r',
    fetch_minibatch self r = Ok (cumsum1 Dt', cumsum1 DW', r') /\
    shape Dt' = [M self; S (N self); 1] /\
    shape DW' = [M self; S (N self); D self] /\
    (forall i, i < M self -> get Dt' [i; 0; 0] = zero) /\
    (forall i n, i < M self -> n < N self ->
       get Dt' [i; S n; 0] = div (T self) (of_nat (N self))) /\
    (forall i j, i < M self -> j < D self -> get DW' [i; 0; j] = zero).
Proof.
  intros HN. unfold fetch_minibatch.
  destruct (Nat.eqb_spec (N self) 0) as [HN0|_]; [lia|]. cbn [bind].
  set (dt := div (T self) (of_nat (N self))).
  replace (N self + 1) with (S (N self)) by lia.
  destruct (assign_from1_ok (zeros [M self; S (N self); 1]) (scalar dt)
              (M self) (N self) 1 eq_refl (broadcast_shapes_nil_l _))
    as (Dt' & HDt & SDt & GDt0 & GDt).
  rewrite HDt; cbn [bind].
  pose proof (normal_shape [M self; N self; D self] r) as Hz.
  destruct (random_normal [M self; N self; D self] r) as [z r'].
  cbn [fst] in Hz.
  assert (Hv : exists v, tmul (scalar (np_sqrt dt)) z = Ok v /\
                         shape v = [M self; N self; D self]).
  { eexists. split;
      [apply broadcast_ok; rewrite Hz; apply broadcast_shapes_nil_l
      |reflexivity]. }
  destruct Hv as (v & Hv & Sv). rewrite Hv; cbn [bind].
  destruct (assign_from1_ok (zeros [M self; S (N self); D self]) v
              (M self) (N self) (D self) eq_refl
              ltac:(rewrite Sv; apply broadcast_shapes_refl))
    as (DW' & HDW & SDW & GDW0 & _).
  rewrite HDW; cbn [bind].
  exists Dt', DW', r'.
  split; [reflexivity|]. split; [assumption|]. split; [assumption|].
  split; [|split].
  - intros i Hi. rewrite GDt0 by lia. apply get_zeros. range.
  - intros i n Hi Hn. rewrite GDt by lia. reflexivity.
  - intros i j Hi Hj. rewrite GDW0 by lia. apply get_zeros. range.
Qed.

Lemma cum_accumulated (f : nat -> R) (dt : R) n :
  f 0 = zero -> (forall k, 0 < k <= n -> f k = dt) ->
  cum f n = accumulated dt n.
Proof.
  intros H0. induction n as [|n IH]; intros Hk; cbn [cum accumulated].
  - exact H0.
  - rewrite IH by (intros k Hk'; apply Hk; lia). rewrite Hk by lia.
    reflexivity.
Qed.

(** C4, as the code has it.  For [N >= 1] the path simulator returns a time
    array of shape [(M, N+1, 1)] and a noise array of shape [(M, N+1, D)];
    entry 0 of both is zero for every trajectory, and the cumulative time at
    step [n] is the sum that [n] successive additions of [T / N] to [0]
    reach, for every trajectory and every [n <= N].  No law of the arithmetic
    is used, so this holds of the rounded sums of [np.cumsum]. *)
Theorem fetch_minibatch_accumulated_times :
  0 < N self ->
  forall r : Rng,
  exists t W r',
    fetch_minibatch self r = Ok (t, W, r') /\
    shape t = [M self; N self + 1; 1] /\
    shape W = [M self; N self + 1; D self] /\
    (forall i, i < M self -> get t [i; 0; 0] = zero) /\
    (forall i j, i < M self -> j < D self -> get W [i; 0; j] = zero) /\
    (forall i n, i < M self -> n <= N self ->
       get t [i; n; 0] = accumulated (div (T self) (of_nat (N self))) n).
Proof.
  intros HN r.
  destruct (fetch_minibatch_ok r HN)
    as (Dt' & DW' & r' & Hf & SDt & SDW & GDt0 & GDt & GDW0).
  exists (cumsum1 Dt'), (cumsum1 DW'), r'.
  replace (N self + 1) with (S (N self)) by lia.
  split; [assumption|].
  split; [unfold cumsum1; rewrite SDt; reflexivity|].
  split; [unfold cumsum1; rewrite SDW; reflexivity|].
  split; [|split].
  - intros i Hi.
    rewrite (get_cumsum1 Dt' _ _ _ i 0 0 SDt) by lia.
    cbn [cum]. apply GDt0. assumption.
  - intros i j Hi Hj.
    rewrite (get_cumsum1 DW' _ _ _ i 0 j SDW) by lia.
    cbn [cum]. apply GDW0; assumption.
  - intros i n Hi Hn.
    rewrite (get_cumsum1 Dt' _ _ _ i n 0 SDt) by lia.
    apply cum_accumulated.
    + apply GDt0. assumption.
    + intros k Hk. destruct k as [|k]; [lia|].
      apply GDt; lia.
Qed.

(** In an arithmetic with the laws below (the integers, the rationals) the
    accumulated sum is the product [n * dt]; binary64 has none of the last
    two. *)
Hypothesis of_nat_0 : of_nat 0 = zero.
Hypothesis of_nat_S : forall n, of_nat (S n) = add (of_nat n) one.
Hypothesis mul_0_l : forall x : R, mul zero x = zero.
Hypothesis mul_1_l : forall x : R, mul one x = x.
Hypothesis mul_add_distr_r :
  forall a b x : R, mul (add a b) x = add (mul a x) (mul b x).

Lemma accumulated_exact (dt : R) n :
  accumulated dt n = mul (of_nat n) dt.
Proof.
  induction n as [|n IH]; cbn [accumulated].
  - rewrite of_nat_0, mul_0_l. reflexivity.
  - rewrite IH, of_nat_S, mul_add_distr_r, mul_1_l. reflexivity.
Qed.

End PathSimulator.

(** ** The training loop *)

Section Trainer.

Context {R : Type} {SR : Scalar R} {E : Engine R} {PB : Problem R}.

Local Abbreviation tensor := (tensor R).

Lemma well_shaped_with_model (self : FBSNN) o p :
  well_shaped self -> well_shaped (with_model self o p).
Proof. intros [H1 H2 H3 H4 H5 H6 H7 H8]. constructor; assumption. Qed.

Lemma trainable_with_model (self : FBSNN) o p :
  trainable self -> trainable (with_model self o p).
Proof.
  intros [H1 H2 H3 H4 H5 H6]. constructor; try assumption.
  apply well_shaped_with_model. assumption.
Qed.

Lemma shape_convert_to_tensor (a : tensor) :
  shape (convert_to_tensor a) = shape a.
Proof. reflexivity. Qed.

Lemma with_model_same (self : FBSNN) :
  with_model self (optimizer self) (model self) = self.
Proof. destruct self; reflexivity. Qed.

Lemma loss_function_returns (self : FBSNN) (t W Xi_ : tensor) :
  well_shaped self -> g_on_tape = true -> 0 < N self ->
  shape t = [M self; N self + 1; 1] ->
  shape W = [M self; N self + 1; D self] ->
  shape Xi_ = [1; D self] ->
  exists l X Y y p,
    loss_function self t W Xi_ =
      Ok (l, X, Y, y, with_model self (optimizer self) p).
Proof.
  intros Hws Htape HN Ht HW HXi.
  destruct (loss_function_ok self Hws t W Ht HW Xi_ HXi Htape HN)
    as (gX & DgX & l & X & Y & _ & _ & _ & _ & HL & _).
  eexists l, X, Y, (scalar (get Y [0; 0; 0])), _. exact HL.
Qed.

(** What one iteration does, on an object that meets the contracts. *)
Lemma train_iter_ok lr it start (w : World) :
  trainable (obj w) ->
  exists t_b W_b r' l X Y y p1 g,
    let t32 := convert_to_tensor t_b in
    let W32 := convert_to_tensor W_b in
    let Xi32 := convert_to_tensor (Xi (obj w)) in
    let self1 := with_model (obj w) (optimizer (obj w)) p1 in
    fetch_minibatch (obj w) (rng w) = Ok (t_b, W_b, r') /\
    loss_function (obj w) t32 W32 Xi32 = Ok (l, X, Y, y, self1) /\
    param_gradient (loss_of self1 t32 W32 Xi32) (model self1) = Ok g /\
    trainable (updated self1 g) /\
    exists l' X' Y' y' p3,
      let self3 :=
        with_model (updated self1 g) (optimizer (updated self1 g)) p3 in
      loss_function (updated self1 g) t32 W32 Xi32
        = Ok (l', X', Y', y', self3) /\
      trainable self3 /\
      train_iter lr it (start, w) =
      Ok (if reported it
          then (wall (S (ticks w)),
                mkWorld self3 r' (S (S (ticks w)))
                  (stdout w ++
                   [mkReport it (item l) (item y')
                      (sub (wall (ticks w)) start) lr])
                  (S (updates w)))
          else (start,
                mkWorld (updated self1 g) r' (ticks w) (stdout w)
                  (S (updates w)))).
Proof.
  intros Htr.
  destruct (fetch_minibatch_ok (obj w) (tr_normal Htr) (rng w) (tr_N Htr))
    as (Dt' & DW' & r' & Hf & SDt & SDW & _).
  set (t_b := cumsum1 Dt') in *. set (W_b := cumsum1 DW') in *.
  assert (St : shape (convert_to_tensor t_b) = [M (obj w); N (obj w) + 1; 1])
    by (rewrite shape_convert_to_tensor; unfold t_b, cumsum1; rewrite SDt;
        cbn [shape build]; do 2 f_equal; lia).
  assert (SW : shape (convert_to_tensor W_b)
               = [M (obj w); N (obj w) + 1; D (obj w)])
    by (rewrite shape_convert_to_tensor; unfold W_b, cumsum1; rewrite SDW;
        cbn [shape build]; do 2 f_equal; lia).
  assert (SXi : shape (convert_to_tensor (Xi (obj w))) = [1; D (obj w)])
    by (rewrite shape_convert_to_tensor; exact (tr_Xi Htr)).
  destruct (loss_function_returns (obj w) _ _ _ (tr_ws Htr) (tr_tape Htr)
              (tr_N Htr) St SW SXi) as (l & X & Y & y & p1 & HL).
  set (self1 := with_model (obj w) (optimizer (obj w)) p1) in *.
  pose proof (trainable_with_model (obj w) (optimizer (obj w)) p1 Htr)
    as Htr1.
  fold self1 in Htr1.
  assert (Hlo : exists l0,
             loss_of self1 (convert_to_tensor t_b) (convert_to_tensor W_b)
               (convert_to_tensor (Xi (obj w))) (model self1) = Ok l0).
  { destruct (loss_function_returns
                (with_model self1 (optimizer self1) (model self1)) _ _ _
                (well_shaped_with_model _ _ _ (tr_ws Htr1)) (tr_tape Htr1)
                (tr_N Htr1) St SW SXi) as (l0 & X0' & Y0' & y0 & p0 & HL0).
    unfold loss_of. rewrite HL0. cbn [bind]. eexists; reflexivity. }
  destruct Hlo as (l0 & Hl0).
  destruct (tr_param Htr1 _ _ Hl0) as (g & Hg).
  pose proof (trainable_with_model self1
                (fst (apply_gradients (optimizer self1) g (model self1)))
                (snd (apply_gradients (optimizer self1) g (model self1)))
                Htr1) as Htr2.
  fold (updated self1 g) in Htr2.
  destruct (loss_function_returns (updated self1 g) _ _ _ (tr_ws Htr2)
              (tr_tape Htr2) (tr_N Htr2) St SW SXi) as (l' & X' & Y' & y' & p3 & HL').
  pose proof (trainable_with_model (updated self1 g)
                (optimizer (updated self1 g)) p3 Htr2) as Htr3.
  exists t_b, W_b, r', l, X, Y, y, p1, g. cbn zeta. fold self1.
  split; [assumption|]. split; [assumption|]. split; [assumption|].
  split; [assumption|].
  exists l', X', Y', y', p3. split; [assumption|]. split; [assumption|].
  unfold train_iter. rewrite Hf; cbn [bind]. cbn zeta.
  rewrite HL; cbn [bind]. rewrite Hg; cbn [bind]. unfold updated in HL'.
  unfold reported, updated.
  destruct (apply_gradients (optimizer self1) g (model self1))
    as [o' p'] eqn:Hap.
  cbn [fst snd] in *.
  destruct (it mod 10 =? 0); [|reflexivity].
  unfold time_time. cbn [obj rng ticks stdout updates].
  rewrite HL'. cbn [bind]. reflexivity.
Qed.

Lemma train_loop_ok lr n : forall a start (w : World),
  trainable (obj w) ->
  exists start' w' new,
    train_loop lr (seq a n) (start, w) = Ok (start', w') /\
    trainable (obj w') /\
    updates w' = updates w + n /\
    stdout w' = stdout w ++ new /\
    map r_it new = filter reported (seq a n).
Proof.
  induction n as [|n IH]; intros a start w Htr.
  - exists start, w, []. cbn [seq train_loop filter map].
    split; [reflexivity|]. split; [assumption|]. split; [lia|].
    split; [symmetry; apply app_nil_r | reflexivity].
  - destruct (train_iter_ok lr a start w Htr)
      as (t_b & W_b & r' & l & X & Y & y & p1 & g & _ & _ & _ & Htr'
          & l' & X' & Y' & y' & p3 & _ & Htr3 & Hit).
    cbn [seq train_loop filter]. rewrite Hit; cbn [bind].
    destruct (reported a).
    + match goal with |- context [train_loop lr _ (?s1, ?w1)] =>
        destruct (IH (S a) s1 w1 Htr3)
          as (start' & w' & new & Hlp & Htr'' & Hup & Hout & Hnew)
      end.
      rewrite Hlp. cbn [updates stdout] in Hup, Hout.
      eexists start', w', (_ :: new).
      split; [reflexivity|]. split; [assumption|]. split; [lia|].
      split; [rewrite Hout, <- app_assoc; reflexivity|].
      cbn [map r_it]. rewrite Hnew. reflexivity.
    + match goal with |- context [train_loop lr _ (?s1, ?w1)] =>
        destruct (IH (S a) s1 w1 Htr')
          as (start' & w' & new & Hlp & Htr'' & Hup & Hout & Hnew)
      end.
      rewrite Hlp. cbn [updates stdout] in Hup, Hout.
      exists start', w', new.
      split; [reflexivity|]. split; [assumption|]. split; [lia|].
      split; assumption.
Qed.

Lemma reported_count n :
  length (filter reported (seq 0 n)) = (n + 9) / 10.
Proof.
  induction n as [|n IH]; [reflexivity|].
  rewrite seq_S, filter_app, length_app, IH. cbn [filter Nat.add length].
  unfold reported.
  pose proof (Nat.div_mod_eq n 10) as Hn.
  pose proof (Nat.mod_upper_bound n 10 ltac:(lia)) as Hm.
  destruct (Nat.eqb_spec (n mod 10) 0) as [Hz|Hz]; cbn [length].
  - rewrite <- (Nat.div_unique (n + 9) 10 (n / 10) 9) by lia.
    rewrite <- (Nat.div_unique (S (n + 9)) 10 (n / 10 + 1) 0) by lia.
    lia.
  - rewrite <- (Nat.div_unique (n + 9) 10 (n / 10 + 1) (n mod 10 - 1)) by lia.
    rewrite <- (Nat.div_unique (S (n + 9)) 10 (n / 10 + 1) (n mod 10)) by lia.
    lia.
Qed.

Lemma reported_bound n : (n + 9) / 10 <= n / 10 + 1.
Proof.
  pose proof (Nat.div_mod_eq n 10) as Hn.
  pose proof (Nat.mod_upper_bound n 10 ltac:(lia)) as Hm.
  assert (H : (n + 9) / 10 < n / 10 + 2)
    by (apply Nat.Div0.div_lt_upper_bound; lia).
  lia.
Qed.

(** C7. [train] performs exactly the requested number of iterations (one
    optimizer step each, no early stop) and prints a line exactly on the
    iterations whose index is a multiple of 10: at most
    [floor(iterations/10) + 1] lines, the first of them for iteration 0
    whenever there is an iteration at all. *)
Theorem train_runs_every_iteration n lr (w : World) :
  trainable (obj w) ->
  exists w' new,
    train n lr w = Ok w' /\
    updates w' = updates w + n /\
    stdout w' = stdout w ++ new /\
    map r_it new = filter reported (seq 0 n) /\
    (forall it, In it (map r_it new) <-> it < n /\ it mod 10 = 0) /\
    length new <= n / 10 + 1 /\
    (0 < n -> exists line rest, new = line :: rest /\ r_it line = 0).
Proof.
  intros Htr. unfold train.
  pose proof (trainable_with_model (obj w)
                (set_learning_rate lr (optimizer (obj w))) (model (obj w))
                Htr) as Htr0.
  unfold time_time. cbn [obj rng ticks stdout updates].
  match goal with |- context [train_loop lr _ (?s1, ?w1)] =>
    destruct (train_loop_ok lr n 0 s1 w1 Htr0)
      as (start' & w' & new & Hlp & _ & Hup & Hout & Hnew)
  end.
  rewrite Hlp. cbn [bind snd updates stdout] in *.
  exists w', new. split; [reflexivity|]. split; [assumption|].
  split; [assumption|]. split; [assumption|]. split; [|split].
  - intros it. rewrite Hnew, filter_In, in_seq. unfold reported.
    rewrite Nat.eqb_eq. lia.
  - rewrite <- (length_map r_it), Hnew, reported_count.
    apply reported_bound.
  - intros Hn. destruct n as [|n]; [lia|].
    cbn [seq filter] in Hnew.
    change (reported 0) with true in Hnew. cbn iota in Hnew.
    destruct new as [|line rest]; [discriminate|].
    injection Hnew as H0 _. exists line, rest. split; [reflexivity|assumption].
Qed.

(** C6, as the code has it.  On an iteration whose index is a multiple of 10
    the trainer evaluates the stepper a second time, on the batch of the
    update and with the updated variables, and prints one line: the iteration
    index, the loss computed before the update (the one that was
    differentiated), the [Y0] estimate of the second evaluation, the time
    read before the second evaluation minus the start time, and the learning
    rate.  The start time is then read anew.  The batch and the initial point
    enter both evaluations as [float32] tensors, and the object is left as
    the second evaluation leaves it. *)
Theorem report_line lr it start (w : World) :
  trainable (obj w) -> it mod 10 = 0 ->
  exists t_b W_b r' l X Y y self1 g l' X' Y' y' self3 w',
    let t32 := convert_to_tensor t_b in
    let W32 := convert_to_tensor W_b in
    let Xi32 := convert_to_tensor (Xi (obj w)) in
    fetch_minibatch (obj w) (rng w) = Ok (t_b, W_b, r') /\
    loss_function (obj w) t32 W32 Xi32 = Ok (l, X, Y, y, self1) /\
    param_gradient (loss_of self1 t32 W32 Xi32) (model self1) = Ok g /\
    loss_function (updated self1 g) t32 W32 Xi32
      = Ok (l', X', Y', y', self3) /\
    train_iter lr it (start, w) = Ok (wall (S (ticks w)), w') /\
    obj w' = self3 /\
    stdout w' =
      stdout w ++
      [mkReport it (item l) (item y') (sub (wall (ticks w)) start) lr] /\
    ticks w' = S (S (ticks w)).
Proof.
  intros Htr Hit.
  destruct (train_iter_ok lr it start w Htr)
    as (t_b & W_b & r' & l & X & Y & y & p1 & g & Hf & HL & Hg & _
        & l' & X' & Y' & y' & p3 & HL' & _ & Hti).
  assert (Hrep : reported it = true)
    by (unfold reported; rewrite Hit; reflexivity).
  rewrite Hrep in Hti.
  eexists t_b, W_b, r', l, X, Y, y, _, g, l', X', Y', y', _, _. cbn zeta.
  split; [exact Hf|]. split; [exact HL|]. split; [exact Hg|].
  split; [exact HL'|]. split; [exact Hti|].
  cbn [obj stdout ticks]. repeat split.
Qed.

(** ** The network across the calls of the stepper *)

Lemma net_u_keeps (p p' : P) (t X u Z : tensor) :
  keeps_variables p -> net_u p t X = Ok (u, Z, p') -> p' = p.
Proof.
  intros Hk. unfold net_u.
  destruct (concat1 t X) as [c|]; cbn [bind]; [|discriminate].
  destruct (model_call p c) as [[u0 p0]|] eqn:Hc; cbn [bind]; [|discriminate].
  destruct (tape_gradient _ X) as [Du|]; cbn [bind]; [|discriminate].
  intros H. injection H as _ _ <-. exact (Hk c u0 p0 Hc).
Qed.

Lemma body_keeps (t W : tensor) n st st' :
  keeps_variables (self_model st) -> body t W n st = Ok st' ->
  self_model st' = self_model st.
Proof.
  intros Hk. unfold body.
  destruct (slice1 t (n + 1)) as [t1|]; cbn [bind]; [|discriminate].
  destruct (slice1 W (n + 1)) as [W1|]; cbn [bind]; [|discriminate].
  destruct (X1_expr _ _ _ _ _ t1 W1) as [x1|]; cbn [bind]; [|discriminate].
  destruct (Y1_tilde_expr _ _ _ _ _ t1 W1) as [yt|]; cbn [bind];
    [|discriminate].
  destruct (net_u (self_model st) t1 x1) as [[[y1 z1] p1]|] eqn:Hnet;
    cbn [bind]; [|discriminate].
  destruct (tsub y1 yt) as [d|]; cbn [bind]; [|discriminate].
  destruct (tadd (loss st) _) as [l'|]; cbn [bind]; [|discriminate].
  intros H. injection H as <-. cbn [self_model].
  exact (net_u_keeps _ _ _ _ _ _ Hk Hnet).
Qed.

Lemma loop_keeps (t W : tensor) ns : forall st st',
  keeps_variables (self_model st) -> loop t W ns st = Ok st' ->
  self_model st' = self_model st.
Proof.
  induction ns as [|n ns IH]; intros st st' Hk; cbn [loop].
  - intros H. injection H as <-. reflexivity.
  - destruct (body t W n st) as [st1|] eqn:Hb; cbn [bind]; [|discriminate].
    intros Hl. pose proof (body_keeps t W n st st1 Hk Hb) as H1.
    rewrite <- H1 in Hk. rewrite (IH st1 st' Hk Hl). exact H1.
Qed.

(** The first call of [net_u] on a network whose calls settle: the network
    it leaves has its variables, and [net_u] on that network returns the same
    results. *)
Lemma net_u_settles (p p' : P) (t X u Z : tensor) :
  settles p -> net_u p t X = Ok (u, Z, p') ->
  net_u p' t X = Ok (u, Z, p') /\ keeps_variables p'.
Proof.
  intros Hs. unfold net_u.
  destruct (concat1 t X) as [c|]; cbn [bind]; [|discriminate].
  destruct (model_call p c) as [[u0 p0]|] eqn:Hc; cbn [bind]; [|discriminate].
  destruct (Hs c u0 p0 Hc) as (Hagain & Hk).
  destruct (tape_gradient _ X) as [Du|] eqn:Hg; cbn [bind]; [|discriminate].
  intros H. injection H as <- <- <-. split; [|exact Hk].
  rewrite Hagain; cbn [bind]. rewrite Hg; cbn [bind]. reflexivity.
Qed.

Lemma keeps_variables_settles (p : P) : keeps_variables p -> settles p.
Proof.
  intros Hk c u p' Hc. pose proof (Hk c u p' Hc) as ->.
  split; assumption.
Qed.

(** The stepper on a network whose calls settle: the object it returns holds
    a network that has its variables, and the stepper on that object returns
    the same results and the same object. *)
Lemma loss_function_settles (self self' : FBSNN) (t W Xi_ l X Y y : tensor) :
  settles (model self) ->
  loss_function self t W Xi_ = Ok (l, X, Y, y, self') ->
  loss_function self' t W Xi_ = Ok (l, X, Y, y, self') /\
  keeps_variables (model self').
Proof.
  intros Hs. unfold loss_function, run, prelude.
  destruct (slice1 t 0) as [a0|]; cbn [bind]; [|discriminate].
  destruct (slice1 W 0) as [b0|]; cbn [bind]; [|discriminate].
  destruct (tile_rows Xi_ (M self)) as [x0|] eqn:Hx0; cbn [bind];
    [|discriminate].
  destruct (net_u (model self) a0 x0) as [[[y0 z0] p0]|] eqn:Hnet;
    cbn [bind]; [|discriminate].
  destruct (net_u_settles _ _ _ _ _ _ Hs Hnet) as (Hnet' & Hk).
  match goal with |- context [loop t W _ ?s0] => set (st0 := s0) end.
  destruct (loop t W (seq 0 (N self)) st0) as [stN|] eqn:Hl; cbn [bind];
    [|discriminate].
  pose proof (loop_keeps t W _ st0 stN Hk Hl) as HpN.
  cbn [self_model st0] in HpN.
  destruct (epilogue stN) as [[[[l1 X1'] Y1'] y1]|] eqn:Hep; cbn [bind];
    [|discriminate].
  intros H. injection H as <- <- <- <- <-. rewrite HpN.
  cbn [with_model M N model optimizer Xi T D].
  split; [|exact Hk].
  rewrite Hx0; cbn [bind]. rewrite Hnet'; cbn [bind].
  fold st0. rewrite Hl; cbn [bind]. rewrite Hep; cbn [bind].
  rewrite HpN. reflexivity.
Qed.

(** The stepper on a network that has its variables returns the object as it
    was. *)
Lemma loss_function_keeps (self self' : FBSNN) (t W Xi_ l X Y y : tensor) :
  keeps_variables (model self) ->
  loss_function self t W Xi_ = Ok (l, X, Y, y, self') -> self' = self.
Proof.
  intros Hk. unfold loss_function, run, prelude.
  destruct (slice1 t 0) as [a0|]; cbn [bind]; [|discriminate].
  destruct (slice1 W 0) as [b0|]; cbn [bind]; [|discriminate].
  destruct (tile_rows Xi_ (M self)) as [x0|]; cbn [bind]; [|discriminate].
  destruct (net_u (model self) a0 x0) as [[[y0 z0] p0]|] eqn:Hnet;
    cbn [bind]; [|discriminate].
  pose proof (net_u_keeps _ _ _ _ _ _ Hk Hnet) as ->.
  match goal with |- context [loop t W _ ?s0] => set (st0 := s0) end.
  destruct (loop t W (seq 0 (N self)) st0) as [stN|] eqn:Hl; cbn [bind];
    [|discriminate].
  pose proof (loop_keeps t W _ st0 stN Hk Hl) as HpN.
  cbn [self_model st0] in HpN.
  destruct (epilogue stN) as [[[[l1 X1'] Y1'] y1]|]; cbn [bind];
    [|discriminate].
  intros H. injection H as _ _ _ _ <-. rewrite HpN.
  apply with_model_same.
Qed.

(** C8, as the code has it.  The first call of the network creates its
    variables, so [predict] on a new object changes the network.  What holds:
    on a network whose calls settle (the network a call leaves has its
    variables and repeats its output), a second [predict] with the same
    inputs returns the same state and value trajectories as the first and
    leaves the world as it finds it; and on an object whose network has its
    variables already, [predict] changes nothing, the network included. *)
Theorem predict_twice (Xi_star t_star W_star X_star Y_star : tensor)
  (w w' : World) :
  settles (model (obj w)) ->
  predict Xi_star t_star W_star w = Ok (X_star, Y_star, w') ->
  predict Xi_star t_star W_star w' = Ok (X_star, Y_star, w') /\
  keeps_variables (model (obj w')) /\
  (keeps_variables (model (obj w)) -> w' = w).
Proof.
  intros Hs. unfold predict. cbn zeta.
  destruct (loss_function (obj w) _ _ _) as [[[[[l X] Y] y] self1]|] eqn:HL;
    cbn [bind]; [|discriminate].
  intros H. injection H as <- <- <-. cbn [obj rng ticks stdout updates].
  destruct (loss_function_settles _ _ _ _ _ _ _ _ _ Hs HL) as (HL' & Hk).
  split; [rewrite HL'; reflexivity|]. split; [exact Hk|].
  intros Hk0. rewrite (loss_function_keeps _ _ _ _ _ _ _ _ _ Hk0 HL).
  destruct w; reflexivity.
Qed.

Lemma slice1_error (a : tensor) n e :
  slice1 a n = Err e -> e = ShapeError \/ e = IndexError.
Proof.
  unfold slice1.
  destruct (shape a) as [|d0 [|d1 [|d2 [|d3 s']]]];
    try (intros H; injection H as <-; left; reflexivity).
  destruct (n <? d1); [discriminate|].
  intros H; injection H as <-. right; reflexivity.
Qed.

(** C9, as the code has it.  A time array whose batch size differs from the
    configured [M] (for an initial point of shape [1 x D]) makes [predict]
    fail with a shape or index error, whatever the network and the problem
    functions are: the failure comes before the network is evaluated. *)
Theorem predict_rejects_batch_mismatch
  (Xi_star t_star W_star : tensor) (w : World) m n k d :
  shape t_star = [m; n; k] -> shape Xi_star = [1; d] -> m <> M (obj w) ->
  exists e, predict Xi_star t_star W_star w = Err e /\
            (e = ShapeError \/ e = IndexError).
Proof.
  intros Ht HXi Hm. unfold predict, loss_function, run, prelude. cbn zeta.
  rewrite <- (shape_convert_to_tensor t_star) in Ht.
  rewrite <- (shape_convert_to_tensor Xi_star) in HXi.
  destruct (slice1 (convert_to_tensor t_star) 0) as [t0'|e] eqn:Ht0;
    cbn [bind];
    [|exists e; split; [reflexivity | apply (slice1_error _ _ _ Ht0)]].
  destruct (slice1 (convert_to_tensor W_star) 0) as [W0'|e] eqn:HW0;
    cbn [bind];
    [|exists e; split; [reflexivity | apply (slice1_error _ _ _ HW0)]].
  destruct (tile_rows_ok (convert_to_tensor Xi_star) d (M (obj w)) HXi)
    as (x0 & Hx0 & Sx0 & _).
  rewrite Hx0; cbn [bind].
  assert (St0 : shape t0' = [m; k]).
  { unfold slice1 in Ht0. rewrite Ht in Ht0.
    destruct (0 <? n); inversion Ht0. reflexivity. }
  unfold net_u. rewrite (concat1_mismatch t0' x0 _ _ _ _ St0 Sx0 Hm).
  cbn [bind]. exists ShapeError. split; [reflexivity | left; reflexivity].
Qed.

Lemma prelude_unbound (self : FBSNN) (t W Xi_ : tensor) st :
  prelude self t W Xi_ = Ok st -> Y1 st = None.
Proof.
  unfold prelude.
  destruct (slice1 t 0); cbn [bind]; [|discriminate].
  destruct (slice1 W 0); cbn [bind]; [|discriminate].
  destruct (tile_rows Xi_ (M self)); cbn [bind]; [|discriminate].
  destruct (net_u (model self) _ _) as [[[u z] p]|]; cbn [bind];
    [|discriminate].
  intros H. injection H as <-. reflexivity.
Qed.

Lemma loss_function_N0 (self : FBSNN) (t W Xi_ : tensor) :
  N self = 0 ->
  exists e, loss_function self t W Xi_ = Err e /\
    (forall st, prelude self t W Xi_ = Ok st -> e = UnboundLocalError).
Proof.
  intros HN. unfold loss_function, run. rewrite HN. cbn [seq].
  destruct (prelude self t W Xi_) as [st|e] eqn:Hp; cbn [bind loop].
  - unfold epilogue. rewrite (prelude_unbound self t W Xi_ st Hp).
    cbn [lookup bind]. exists UnboundLocalError. split; [reflexivity|].
    intros; reflexivity.
  - exists e. split; [reflexivity|]. intros st H. discriminate.
Qed.

(** C10. With [N = 0] the loop body never runs, [Y1] is never bound, and the
    statements after the loop fail: [loss_function] returns no loss for any
    input, the error being the unbound local whenever the statements before
    the loop succeed (as they do on well-shaped data), and [predict] and a
    [train] of at least one iteration fail as well. *)
Theorem no_time_step_fails (self : FBSNN) :
  N self = 0 ->
  (forall t W Xi_, exists e, loss_function self t W Xi_ = Err e) /\
  (forall t W Xi_,
     well_shaped self ->
     shape t = [M self; N self + 1; 1] ->
     shape W = [M self; N self + 1; D self] ->
     shape Xi_ = [1; D self] ->
     loss_function self t W Xi_ = Err UnboundLocalError) /\
  (forall Xi_ t W w, obj w = self ->
     exists e, predict Xi_ t W w = Err e) /\
  (forall n lr w, obj w = self -> 0 < n ->
     exists e, train n lr w = Err e).
Proof.
  intros HN. split; [|split; [|split]].
  - intros t W Xi_.
    destruct (loss_function_N0 self t W Xi_ HN) as (e & He & _).
    exists e. exact He.
  - intros t W Xi_ Hws Ht HW HXi.
    destruct (loss_function_N0 self t W Xi_ HN) as (e & He & Hu).
    destruct (prelude_ok self Hws t W Ht HW Xi_ HXi) as (st & Hst & _).
    rewrite He, (Hu st Hst). reflexivity.
  - intros Xi_ t W w Hobj. unfold predict. cbn zeta. rewrite Hobj.
    destruct (loss_function_N0 self (convert_to_tensor t)
                (convert_to_tensor W) (convert_to_tensor Xi_) HN)
      as (e & He & _).
    rewrite He. exists e. reflexivity.
  - intros n lr w Hobj Hn. destruct n as [|n]; [lia|].
    unfold train, time_time. cbn [obj rng ticks stdout updates seq train_loop].
    unfold train_iter at 1. cbn [obj rng].
    unfold fetch_minibatch. cbn [N with_model]. rewrite Hobj, HN.
    cbn [Nat.eqb bind]. exists ZeroDivisionError. reflexivity.
Qed.

End Trainer.

(** ** The integer instance meets the shape contracts *)

Lemma ex_model_call_shape (p : Z) (c : tensor Z) m k :
  shape c = [m; k] ->
  exists u p', ex_model_call p c = Ok (u, p') /\ shape u = [m; 1].
Proof.
  intros Hc. unfold ex_model_call. rewrite Hc.
  eexists _, _. split; reflexivity.
Qed.

Lemma ex_keeps_variables (p : Z) : keeps_variables (E := ex_engine) p.
Proof.
  intros c u p'. cbn [model_call ex_engine]. unfold ex_model_call.
  destruct (shape c) as [|m [|k [|x s']]]; try discriminate.
  intros H. injection H as _ <-. reflexivity.
Qed.

Lemma fd_gradient_shape (f : tensor Z -> result (tensor Z)) X u :
  f X = Ok u -> exists Z, fd_gradient f X = Ok Z /\ shape Z = shape X.
Proof.
  intros Hf. unfold fd_gradient. rewrite Hf.
  eexists. split; reflexivity.
Qed.

Lemma row_sums_shape (X : tensor Z) m d :
  shape X = [m; d] -> exists r, row_sums X = Ok r /\ shape r = [m; 1].
Proof.
  intros HX. unfold row_sums. rewrite HX. eexists. split; reflexivity.
Qed.

Lemma ex_well_shaped (self : FBSNN) :
  1 <= M self -> 1 <= D self -> well_shaped (PB := ex_problem self) self.
Proof.
  intros HM HD. constructor; try assumption.
  - intros p c Hc. apply (ex_model_call_shape p c _ _ Hc).
  - intros f X u Hf. apply (fd_gradient_shape f X u Hf).
  - intros. eexists. split; reflexivity.
  - intros X HX. apply (row_sums_shape X _ _ HX).
  - intros. eexists. split; reflexivity.
  - intros. eexists. split; reflexivity.
Qed.

Lemma zero_times_row_sums_ok (X : tensor Z) m d :
  shape X = [m; d] -> zero_times_row_sums X = Ok (zeros [m; 1]).
Proof.
  intros HX. unfold zero_times_row_sums, row_sums. rewrite HX. reflexivity.
Qed.

Lemma zero_on_tape_well_shaped (self : FBSNN) :
  1 <= M self -> 1 <= D self ->
  well_shaped (PB := zero_problem_on_tape self) self.
Proof.
  intros HM HD. constructor; try assumption.
  - intros p c Hc. apply (ex_model_call_shape p c _ _ Hc).
  - intros f X u Hf. apply (fd_gradient_shape f X u Hf).
  - intros. eexists. split; reflexivity.
  - intros X HX. exists (zeros [M self; 1]).
    split; [apply (zero_times_row_sums_ok X _ _ HX) | reflexivity].
  - intros. eexists. split; reflexivity.
  - intros. eexists. split; reflexivity.
Qed.

(** The Euler-Maruyama rule at pass 0 of the instance with two trajectories,
    two steps and one dimension. *)
Lemma euler_maruyama_step_witness :
  well_shaped (PB := ex_problem ex_self) ex_self /\
  g_on_tape (Problem := ex_problem ex_self) = true /\
  0 < N ex_self /\
  let st := state_at (PB := ex_problem ex_self) ex_self ex_t ex_W (Xi ex_self) 0 in
  exists l X Y y self' mv sg,
    loss_function (PB := ex_problem ex_self) ex_self ex_t ex_W (Xi ex_self)
      = Ok (l, X, Y, y, self') /\
    shape X = [M ex_self; N ex_self + 1; D ex_self] /\
    run (PB := ex_problem ex_self) ex_self ex_t ex_W (Xi ex_self) 0 = Ok st /\
    slice1 ex_t 0 = Ok (t0 st) /\ slice1 ex_W 0 = Ok (W0 st) /\
    (forall i j, i < M ex_self -> j < D ex_self ->
       get (X0 st) [i; j] = get X [i; 0; j]) /\
    (forall i, i < M ex_self -> get (Y0 st) [i; 0] = get Y [i; 0; 0]) /\
    mu_tf (Problem := ex_problem ex_self) (t0 st) (X0 st) (Y0 st) (Z0 st)
      = Ok mv /\
    sigma_tf (Problem := ex_problem ex_self) (t0 st) (X0 st) (Y0 st) = Ok sg /\
    forall i j, i < M ex_self -> j < D ex_self ->
      get X [i; 0 + 1; j] =
      add (add (get X [i; 0; j])
               (mul (get mv [i; j])
                    (sub (get ex_t [i; 0 + 1; 0]) (get ex_t [i; 0; 0]))))
          (sumn (D ex_self)
             (fun k => mul (get sg [i; j; k])
                           (sub (get ex_W [i; 0 + 1; k]) (get ex_W [i; 0; k])))).
Proof.
  assert (Hws : well_shaped (PB := ex_problem ex_self) ex_self)
    by (apply ex_well_shaped; simpl; lia).
  assert (HN : 0 < N ex_self) by (simpl; lia).
  split; [exact Hws|]. split; [reflexivity|]. split; [exact HN|].
  exact (euler_maruyama_step (PB := ex_problem ex_self) ex_self Hws
           ex_t ex_W eq_refl eq_refl (Xi ex_self) eq_refl eq_refl 0 HN).
Defined.

(** The loss of the same instance, as the sum of its two residuals and the
    two terminal penalties. *)
Lemma loss_is_sum_of_residuals_and_terminal_penalties_witness :
  well_shaped (PB := ex_problem ex_self) ex_self /\
  g_on_tape (Problem := ex_problem ex_self) = true /\
  0 < N ex_self /\
  let stN := state_at (PB := ex_problem ex_self) ex_self ex_t ex_W (Xi ex_self)
               (N ex_self) in
  exists gX DgX l X Y y self',
    loss_function (PB := ex_problem ex_self) ex_self ex_t ex_W (Xi ex_self)
      = Ok (l, X, Y, y, self') /\
    run (PB := ex_problem ex_self) ex_self ex_t ex_W (Xi ex_self) (N ex_self)
      = Ok stN /\
    g_tf (Problem := ex_problem ex_self) (X0 stN) = Ok gX /\
    tape_gradient (g_tf (Problem := ex_problem ex_self)) (X0 stN) = Ok DgX /\
    (forall k, k < N ex_self ->
       residual (PB := ex_problem ex_self) ex_self ex_t ex_W (Xi ex_self) k =
       sumn (M ex_self)
         (fun i => sqr (sub (get Y [i; k + 1; 0])
                            (get (Y1_tilde_at (PB := ex_problem ex_self)
                                    ex_self ex_t ex_W (Xi ex_self) k) [i; 0])))) /\
    item l =
      add (add (sumn (N ex_self)
                  (residual (PB := ex_problem ex_self) ex_self ex_t ex_W
                     (Xi ex_self)))
               (sumn (M ex_self)
                  (fun i => sqr (sub (get Y [i; N ex_self; 0]) (get gX [i; 0])))))
          (sumn (M ex_self * D ex_self)
             (fun k => sqr (sub (nth k (data (Z0 stN)) zero)
                                (nth k (data DgX) zero)))).
Proof.
  assert (Hws : well_shaped (PB := ex_problem ex_self) ex_self)
    by (apply ex_well_shaped; simpl; lia).
  assert (HN : 0 < N ex_self) by (simpl; lia).
  split; [exact Hws|]. split; [reflexivity|]. split; [exact HN|].
  exact (loss_is_sum_of_residuals_and_terminal_penalties
           (PB := ex_problem ex_self) ex_self Hws
           ex_t ex_W eq_refl eq_refl (Xi ex_self) eq_refl eq_refl HN).
Defined.

(** C2. For one dimension and two trajectories the backward target is not the
    inner product taken for each trajectory: [tf.squeeze] without an axis
    turns [sigma . (W1 - W0)] of shape [2 x 1 x 1] into a vector of length 2,
    the product with [Z0 : 2 x 1] broadcasts to [2 x 2], and the sum over
    axis 1 adds the increments of both trajectories.  At pass 0 of the
    instance [Z0 = [[1],[1]]] and the increments are [1] and [2]: the code
    assigns [Y1_tilde = [[3],[3]]], the rule of the specification gives
    [[1],[2]]. *)
Theorem Y1_tilde_sums_over_trajectories_for_D_1 :
  let st :=
    state_at (PB := ex_problem ex_self) ex_self ex_t ex_W (Xi ex_self) 0 in
  exists t1 W1 fv sg yt,
    slice1 ex_t 1 = Ok t1 /\ slice1 ex_W 1 = Ok W1 /\
    phi_tf (Problem := ex_problem ex_self) (t0 st) (X0 st) (Y0 st) (Z0 st)
      = Ok fv /\
    sigma_tf (Problem := ex_problem ex_self) (t0 st) (X0 st) (Y0 st) = Ok sg /\
    Y1_tilde_expr (PB := ex_problem ex_self)
      (t0 st) (W0 st) (X0 st) (Y0 st) (Z0 st) t1 W1 = Ok yt /\
    get yt [0; 0] = 3%Z /\ get yt [1; 0] = 3%Z /\
    Y1_tilde_spec (Y0 st) fv (t0 st) t1 (Z0 st) sg (W0 st) W1 (D ex_self) 0
      = 1%Z /\
    Y1_tilde_spec (Y0 st) fv (t0 st) t1 (Z0 st) sg (W0 st) W1 (D ex_self) 1
      = 2%Z.
Proof.
  intros st. do 5 eexists.
  split; [vm_compute; reflexivity|]. split; [vm_compute; reflexivity|].
  split; [vm_compute; reflexivity|]. split; [vm_compute; reflexivity|].
  split; [vm_compute; reflexivity|].
  repeat split; vm_compute; reflexivity.
Qed.

(** ** The zero problem over the integers *)

Lemma get_zeros_Z s idx : in_range s idx -> get (zeros (R := Z) s) idx = 0%Z.
Proof. intros H. unfold zeros. rewrite get_build by assumption. reflexivity. Qed.

Lemma get_zeros_any s idx : get (zeros (R := Z) s) idx = 0%Z.
Proof.
  unfold get. change (shape (zeros s)) with s.
  destruct (Nat.lt_ge_cases (ravel s idx) (prod_shape s)) as [Hk|Hk].
  - unfold zeros. rewrite nth_build by assumption. reflexivity.
  - apply nth_overflow. unfold zeros, build. cbn [data].
    rewrite length_map, length_seq. assumption.
Qed.

Lemma zero_on_tape_gradient (self : FBSNN) (X r : tensor Z) k :
  tape_gradient (g_tf (Problem := zero_problem_on_tape self)) X = Ok r ->
  nth k (data r) zero = zero.
Proof.
  intros H. change (fd_gradient zero_times_row_sums X = Ok r) in H.
  unfold fd_gradient in H.
  destruct (zero_times_row_sums X) as [u|] eqn:Hu; [|discriminate].
  injection H as <-.
  assert (HX : exists m d, shape X = [m; d]).
  { unfold zero_times_row_sums, row_sums in Hu.
    destruct (shape X) as [|m [|d [|x s']]]; try discriminate.
    exists m, d. reflexivity. }
  destruct HX as (m & d & HX).
  rewrite (zero_times_row_sums_ok X m d HX) in Hu. injection Hu as <-.
  destruct (Nat.lt_ge_cases k (prod_shape (shape X))) as [Hk|Hk].
  - rewrite nth_build by assumption.
    rewrite (zero_times_row_sums_ok (bump X _) m d HX).
    cbn [val]. apply Z.sub_diag.
  - apply nth_overflow. unfold build. cbn [data].
    rewrite length_map, length_seq. assumption.
Qed.

(** The closed form at the instance with two trajectories, two steps and one
    dimension, all four problem functions zero and the terminal condition
    computed from its argument. *)
Lemma zero_problem_closed_form_witness :
  well_shaped (PB := zero_problem_on_tape ex_self) ex_self /\
  g_on_tape (Problem := zero_problem_on_tape ex_self) = true /\
  0 < N ex_self /\
  exists l X Y y self',
    loss_function (PB := zero_problem_on_tape ex_self) ex_self ex_t ex_W
      (Xi ex_self) = Ok (l, X, Y, y, self') /\
    shape X = [M ex_self; N ex_self + 1; D ex_self] /\
    shape Y = [M ex_self; N ex_self + 1; 1] /\
    (forall i n j, i < M ex_self -> n <= N ex_self -> j < D ex_self ->
       get X [i; n; j] = get (Xi ex_self) [0; j]) /\
    item l =
      add (add (sumn (N ex_self)
                  (fun n => sumn (M ex_self)
                     (fun i => sqr (sub (get Y [i; n + 1; 0])
                                        (get Y [i; n; 0])))))
               (sumn (M ex_self) (fun i => sqr (get Y [i; N ex_self; 0]))))
          (sumn (M ex_self * D ex_self)
             (fun k => sqr (nth k (data (Z0 (state_at
                                               (PB := zero_problem_on_tape
                                                        ex_self)
                                               ex_self ex_t ex_W (Xi ex_self)
                                               (N ex_self))))
                              zero))).
Proof.
  assert (Hws : well_shaped (PB := zero_problem_on_tape ex_self) ex_self)
    by (apply zero_on_tape_well_shaped; simpl; lia).
  assert (HN : 0 < N ex_self) by (simpl; lia).
  split; [exact Hws|]. split; [reflexivity|]. split; [exact HN|].
  refine (zero_problem_closed_form (PB := zero_problem_on_tape ex_self)
            ex_self Hws
            ex_t ex_W (Xi ex_self) eq_refl eq_refl eq_refl eq_refl
            Z.add_0_r Z.mul_0_l Z.mul_0_r Z.sub_0_r _ _ _ _ _ HN).
  - intros a b c d r H i j Hi Hj. injection H as <-.
    apply get_zeros_Z.
    repeat (apply Forall2_cons; [simpl in *; lia|]); apply Forall2_nil.
  - intros a b c r H i j k Hi Hj Hk. injection H as <-.
    apply get_zeros_Z.
    repeat (apply Forall2_cons; [simpl in *; lia|]); apply Forall2_nil.
  - intros a b c d r H i Hi. injection H as <-.
    apply get_zeros_Z.
    repeat (apply Forall2_cons; [simpl in *; lia|]); apply Forall2_nil.
  - intros X r H i Hi.
    change (zero_times_row_sums X = Ok r) in H.
    assert (HX : exists m d, shape X = [m; d]).
    { unfold zero_times_row_sums, row_sums in H.
      destruct (shape X) as [|m [|d [|x s']]]; try discriminate.
      exists m, d. reflexivity. }
    destruct HX as (m & d & HX).
    rewrite (zero_times_row_sums_ok X m d HX) in H. injection H as <-.
    apply get_zeros_any.
  - intros X r H k _. apply (zero_on_tape_gradient ex_self X r k H).
Defined.

(** C5 as stated fails.  With [mu], [sigma], [phi] and [g] returning zeros,
    [g] without looking at its argument, every pass of the loop runs, the
    tape has no gradient of [g] with respect to the terminal state, and the
    subtraction of line 94 raises: no loss is returned. *)
Lemma constant_zero_problem_raises :
  (forall X, g_tf (Problem := zero_problem ex_self) X
             = Ok (zeros [M ex_self; 1])) /\
  (exists st,
     run (PB := zero_problem ex_self) ex_self ex_t ex_W (Xi ex_self)
       (N ex_self) = Ok st /\
     Dg_tf (PB := zero_problem ex_self) (X0 st) = Ok None) /\
  loss_function (PB := zero_problem ex_self) ex_self ex_t ex_W (Xi ex_self)
    = Err ValueError.
Proof.
  split; [reflexivity|]. split.
  - eexists. split; vm_compute; reflexivity.
  - vm_compute. reflexivity.
Qed.

(** ** The entry points on the integer instance *)

Lemma ex_trainable (self : FBSNN) :
  1 <= M self -> 1 <= D self -> 0 < N self ->
  shape (Xi self) = [1; D self] ->
  trainable (PB := ex_problem self) self.
Proof.
  intros HM HD HN HXi. constructor; try assumption.
  - apply ex_well_shaped; assumption.
  - reflexivity.
  - intros s r. reflexivity.
  - intros f p l Hf. simpl. unfold ex_param_gradient. rewrite Hf.
    eexists. reflexivity.
Qed.

(** ** The path simulator in binary64 *)

Section Binary64.

#[local] Existing Instance float_scalar.
#[local] Existing Instance np_engine.

(** The path simulator in binary64 with [T = 1.0] and [N = 10]. *)
Lemma fetch_minibatch_accumulated_times_witness :
  0 < N np_self /\
  exists t W r',
    fetch_minibatch np_self tt = Ok (t, W, r') /\
    shape t = [M np_self; N np_self + 1; 1] /\
    shape W = [M np_self; N np_self + 1; D np_self] /\
    (forall i, i < M np_self -> get t [i; 0; 0] = zero) /\
    (forall i j, i < M np_self -> j < D np_self -> get W [i; 0; j] = zero) /\
    (forall i n, i < M np_self -> n <= N np_self ->
       get t [i; n; 0] =
       accumulated (div (T np_self) (of_nat (N np_self))) n).
Proof.
  assert (HN : 0 < N np_self) by (simpl; lia).
  split; [exact HN|].
  exact (fetch_minibatch_accumulated_times np_self (fun _ _ => eq_refl) HN tt).
Defined.

(** C4 as stated fails.  In binary64, with [T = 1.0] and [N = 10], the
    cumulative time at the last step is [0.99999999999999989], the sum of ten
    rounded additions of [0.1], and not [10 * (1.0 / 10) = 1.0]; at step 6 it
    is [0.6] where the product is [0.6000000000000001]. *)
Lemma cumulative_time_is_not_the_product :
  exists t W r',
    fetch_minibatch np_self tt = Ok (t, W, r') /\
    get t [0; 10; 0] = 0x1.fffffffffffffp-1%float /\
    mul (of_nat 10) (div (T np_self) (of_nat (N np_self))) = 1%float /\
    get t [0; 10; 0] <> mul (of_nat 10) (div (T np_self) (of_nat (N np_self))) /\
    get t [0; 6; 0] <> mul (of_nat 6) (div (T np_self) (of_nat (N np_self))).
Proof.
  do 3 eexists. split; [vm_compute; reflexivity|].
  split; [vm_compute; reflexivity|]. split; [vm_compute; reflexivity|].
  split; intros H.
  - apply (f_equal (fun x => PrimFloat.eqb x 1%float)) in H.
    vm_compute in H. discriminate.
  - apply (f_equal
             (fun x => PrimFloat.eqb x
                (PrimFloat.mul (float_of_nat 6)
                   (PrimFloat.div 1%float (float_of_nat 10))))) in H.
    vm_compute in H. discriminate.
Qed.

End Binary64.

(** Eleven iterations on the instance: lines for iterations 0 and 10. *)
Lemma train_runs_every_iteration_witness :
  trainable (PB := ex_problem ex_self) (obj ex_world) /\
  exists w' new,
    train (PB := ex_problem ex_self) 11 1%Z ex_world = Ok w' /\
    updates w' = updates ex_world + 11 /\
    stdout w' = stdout ex_world ++ new /\
    map r_it new = filter reported (seq 0 11) /\
    (forall it, In it (map r_it new) <-> it < 11 /\ it mod 10 = 0) /\
    length new <= 11 / 10 + 1 /\
    (0 < 11 -> exists line rest, new = line :: rest /\ r_it line = 0).
Proof.
  assert (Htr : trainable (PB := ex_problem ex_self) (obj ex_world))
    by (apply ex_trainable; simpl; (lia || reflexivity)).
  split; [exact Htr|].
  exact (train_runs_every_iteration (PB := ex_problem ex_self)
           11 1%Z ex_world Htr).
Defined.

(** The line of iteration 0 on the instance. *)
Lemma report_line_witness :
  trainable (PB := ex_problem ex_self) (obj ex_world) /\ 0 mod 10 = 0 /\
  exists t_b W_b r' l X Y y self1 g l' X' Y' y' self3 w',
    let t32 := convert_to_tensor t_b in
    let W32 := convert_to_tensor W_b in
    let Xi32 := convert_to_tensor (Xi (obj ex_world)) in
    fetch_minibatch (obj ex_world) (rng ex_world) = Ok (t_b, W_b, r') /\
    loss_function (PB := ex_problem ex_self) (obj ex_world) t32 W32 Xi32
      = Ok (l, X, Y, y, self1) /\
    param_gradient (loss_of (PB := ex_problem ex_self) self1 t32 W32 Xi32)
      (model self1) = Ok g /\
    loss_function (PB := ex_problem ex_self) (updated self1 g) t32 W32 Xi32
      = Ok (l', X', Y', y', self3) /\
    train_iter (PB := ex_problem ex_self) 1%Z 0 (0%Z, ex_world)
      = Ok (wall (S (ticks ex_world)), w') /\
    obj w' = self3 /\
    stdout w' =
      stdout ex_world ++
      [mkReport 0 (item l) (item y') (sub (wall (ticks ex_world)) 0%Z) 1%Z] /\
    ticks w' = S (S (ticks ex_world)).
Proof.
  assert (Htr : trainable (PB := ex_problem ex_self) (obj ex_world))
    by (apply ex_trainable; simpl; (lia || reflexivity)).
  split; [exact Htr|]. split; [reflexivity|].
  exact (report_line (PB := ex_problem ex_self) 1%Z 0 0%Z ex_world Htr eq_refl).
Defined.

(** C6 as stated fails: after one iteration on the instance the printed loss
    is 17, the loss the update was computed from; the loss of the second
    evaluation, on the same batch with the updated variables, is 137. *)
Lemma report_loss_is_not_reevaluated :
  exists t_b W_b r' w' line l' X' Y' y' self',
    fetch_minibatch (obj ex_world) (rng ex_world) = Ok (t_b, W_b, r') /\
    train (PB := ex_problem ex_self) 1 1%Z ex_world = Ok w' /\
    stdout w' = [line] /\
    loss_function (PB := ex_problem ex_self) (obj w')
      (convert_to_tensor t_b) (convert_to_tensor W_b)
      (convert_to_tensor (Xi (obj w')))
      = Ok (l', X', Y', y', self') /\
    r_loss line = 17%Z /\ item l' = 137%Z /\ r_loss line <> item l'.
Proof.
  do 10 eexists.
  split; [vm_compute; reflexivity|]. split; [vm_compute; reflexivity|].
  split; [vm_compute; reflexivity|]. split; [vm_compute; reflexivity|].
  split; [reflexivity|]. split; [reflexivity|].
  vm_compute. discriminate.
Qed.

(** C9 as stated fails: paths with four time points, for an object configured
    with [N + 1 = 3], are accepted; the first three points are used. *)
Lemma predict_accepts_longer_paths :
  shape ex_t4 <> [M ex_self; N ex_self + 1; 1] /\
  shape ex_W4 <> [M ex_self; N ex_self + 1; D ex_self] /\
  predict (PB := ex_problem ex_self) (Xi ex_self) ex_t4 ex_W4 ex_world =
  Ok (mkT [2; 3; 1] [0; 1; 1; 0; 2; 3]%Z,
      mkT [2; 3; 1] [0; 2; 3; 0; 3; 5]%Z, ex_world).
Proof.
  split; [discriminate|]. split; [discriminate|].
  vm_compute. reflexivity.
Qed.

(** Paths for three trajectories on the object configured for two. *)
Lemma predict_rejects_batch_mismatch_witness :
  shape ex_t_3 = [3; 3; 1] /\ shape (Xi ex_self) = [1; 1] /\
  3 <> M (obj ex_world) /\
  exists e,
    predict (PB := ex_problem ex_self) (Xi ex_self) ex_t_3 ex_W_3 ex_world
      = Err e /\
    (e = ShapeError \/ e = IndexError).
Proof.
  assert (Hm : 3 <> M (obj ex_world)) by (simpl; lia).
  split; [reflexivity|]. split; [reflexivity|]. split; [exact Hm|].
  exact (predict_rejects_batch_mismatch (PB := ex_problem ex_self)
           (Xi ex_self) ex_t_3 ex_W_3 ex_world 3 3 1 1 eq_refl eq_refl Hm).
Defined.

(** The object configured with no time step. *)
Lemma no_time_step_fails_witness :
  N ex_self_N0 = 0 /\
  (forall t W Xi_,
     exists e, loss_function (PB := ex_problem ex_self_N0) ex_self_N0 t W Xi_
               = Err e) /\
  (forall t W Xi_,
     well_shaped (PB := ex_problem ex_self_N0) ex_self_N0 ->
     shape t = [M ex_self_N0; N ex_self_N0 + 1; 1] ->
     shape W = [M ex_self_N0; N ex_self_N0 + 1; D ex_self_N0] ->
     shape Xi_ = [1; D ex_self_N0] ->
     loss_function (PB := ex_problem ex_self_N0) ex_self_N0 t W Xi_
       = Err UnboundLocalError) /\
  (forall Xi_ t W w, obj w = ex_self_N0 ->
     exists e, predict (PB := ex_problem ex_self_N0) Xi_ t W w = Err e) /\
  (forall n lr w, obj w = ex_self_N0 -> 0 < n ->
     exists e, train (PB := ex_problem ex_self_N0) n lr w = Err e).
Proof.
  split; [reflexivity|].
  exact (no_time_step_fails (PB := ex_problem ex_self_N0) ex_self_N0 eq_refl).
Defined.

(** ** The network *)

Lemma nth_map_seq {A} (f : nat -> A) n l d :
  l < n -> nth l (map f (seq 0 n)) d = f l.
Proof.
  intros Hl.
  rewrite nth_indep with (d' := f 0)
    by (rewrite length_map, length_seq; exact Hl).
  rewrite map_nth, seq_nth by exact Hl. reflexivity.
Qed.

Section NetworkFacts.

Context {R : Type} {SR : Scalar R}.

Local Abbreviation tensor := (tensor R).

Variable tf_sin : R -> R.
Variable Seed : Type.
Variable glorot_normal : list nat -> Seed -> tensor * Seed.

Local Abbreviation dcall := (dense_call tf_sin glorot_normal).
Local Abbreviation hcall := (call_hidden tf_sin glorot_normal).
Local Abbreviation net_call :=
  (FeedForwardSubNet_call tf_sin glorot_normal).

Lemma matmul_rank2 (x kernel : tensor) m k u :
  shape x = [m; k] -> shape kernel = [k; u] ->
  exists p, matmul x kernel = Ok p /\ shape p = [m; u] /\
    forall i j, i < m -> j < u ->
      get p [i; j] = sumn k (fun l => mul (get x [i; l]) (get kernel [l; j])).
Proof.
  intros Hx Hk. unfold matmul. rewrite Hx, Hk. simpl.
  rewrite Nat.eqb_refl.
  eexists. split; [reflexivity|]. split; [reflexivity|].
  intros i j Hi Hj. rewrite get_build by range. reflexivity.
Qed.

Lemma matmul_rank2_mismatch (x kernel : tensor) m k k' u :
  shape x = [m; k'] -> shape kernel = [k; u] -> k' <> k ->
  matmul x kernel = Err ShapeError.
Proof.
  intros Hx Hk Hne. unfold matmul. rewrite Hx, Hk. simpl.
  destruct (Nat.eqb_spec k' k); [contradiction | reflexivity].
Qed.

Lemma tadd_bias (p b : tensor) m u :
  shape p = [m; u] -> shape b = [u] ->
  exists y, tadd p b = Ok y /\ shape y = [m; u] /\ wf y /\
    forall i j, i < m -> j < u ->
      get y [i; j] = add (get p [i; j]) (get b [j]).
Proof.
  intros Hp Hb.
  assert (Hs : broadcast_shapes [m; u] [u] = Some [m; u]).
  { unfold broadcast_shapes. simpl. rewrite bdim_refl. reflexivity. }
  eexists. split; [|split; [|split]].
  - apply broadcast_ok. rewrite Hp, Hb. exact Hs.
  - reflexivity.
  - apply wf_build.
  - intros i j Hi Hj. rewrite get_build by range.
    rewrite Hp, Hb. rewrite bidx_same by range.
    unfold bidx. simpl.
    destruct (Nat.eqb_spec u 1); [replace j with 0 by lia|]; reflexivity.
Qed.

Lemma get_tmap (f : R -> R) (a : tensor) idx :
  wf a -> in_range (shape a) idx ->
  get (tmap f a) idx = f (get a idx).
Proof.
  intros Hw Hi. unfold get, tmap. cbn [shape data].
  pose proof (ravel_lt _ _ Hi) as Hlt.
  rewrite nth_indep with (d' := f zero)
    by (rewrite length_map, Hw; exact Hlt).
  apply map_nth.
Qed.

Lemma get_apply_activation a (y : tensor) idx :
  wf y -> in_range (shape y) idx ->
  get (apply_activation tf_sin a y) idx = act_fun tf_sin a (get y idx).
Proof.
  intros Hw Hi. destruct a; [apply get_tmap; assumption | reflexivity].
Qed.

Lemma shape_apply_activation a (y : tensor) :
  shape (apply_activation tf_sin a y) = shape y.
Proof. destruct a; reflexivity. Qed.

Lemma dense_call_built (l : Dense) (x : tensor) (s : Seed) m k kernel bias :
  weights l = Some (kernel, bias) ->
  shape kernel = [k; units l] -> shape bias = [units l] ->
  shape x = [m; k] ->
  exists y, dcall l x s = Ok (y, l, s) /\ shape y = [m; units l] /\
    forall i j, i < m -> j < units l ->
      get y [i; j] =
      act_fun tf_sin (act l)
        (add (sumn k (fun c => mul (get x [i; c]) (get kernel [c; j])))
             (get bias [j])).
Proof.
  intros Hw Hk Hb Hx.
  destruct (matmul_rank2 x kernel _ _ _ Hx Hk) as (p & Hp & Sp & Gp).
  destruct (tadd_bias p bias _ _ Sp Hb) as (y & Hy & Sy & Wy & Gy).
  exists (apply_activation tf_sin (act l) y).
  split; [|split].
  - unfold dense_call, dense_build. rewrite Hx. cbn [rev app].
    rewrite Hw. cbn iota. rewrite Hw. rewrite Hp; cbn [bind].
    rewrite Hy; cbn [bind]. reflexivity.
  - rewrite shape_apply_activation. exact Sy.
  - intros i j Hi Hj.
    rewrite get_apply_activation by (rewrite ?Sy; assumption || range).
    rewrite (Gy i j Hi Hj), (Gp i j Hi Hj). reflexivity.
Qed.

Lemma dense_call_mismatch (l : Dense) (x : tensor) (s : Seed) m k k' :
  built_for k l -> shape x = [m; k'] -> k' <> k ->
  dcall l x s = Err ShapeError.
Proof.
  intros (kernel & bias & Hw & Hk & Hb) Hx Hne.
  unfold dense_call, dense_build. rewrite Hx. cbn [rev app].
  rewrite Hw. cbn iota. rewrite Hw.
  rewrite (matmul_rank2_mismatch x kernel _ _ _ _ Hx Hk Hne). reflexivity.
Qed.

(** The initializer returns a kernel of the requested shape. *)
Hypothesis glorot_shape :
  forall sh s, shape (fst (glorot_normal sh s)) = sh.

Lemma dense_call_fresh (l : Dense) (x : tensor) (s : Seed) m k :
  weights l = None -> shape x = [m; k] ->
  exists y l',
    dcall l x s = Ok (y, l', snd (glorot_normal [k; units l] s)) /\
    shape y = [m; units l] /\
    l' = mkDense (units l) (act l)
           (Some (fst (glorot_normal [k; units l] s), zeros [units l])) /\
    built_for k l'.
Proof.
  intros Hw Hx.
  pose proof (glorot_shape [k; units l] s) as Hg.
  set (l' := mkDense (units l) (act l)
               (Some (fst (glorot_normal [k; units l] s), zeros [units l]))).
  assert (Hb : built_for k l').
  { eexists _, _. split; [reflexivity|]. split; [exact Hg | reflexivity]. }
  destruct (dense_call_built l' x (snd (glorot_normal [k; units l] s)) m k
              _ _ eq_refl Hg eq_refl Hx) as (y & Hy & Sy & _).
  exists y, l'. split; [|split; [exact Sy|split; [reflexivity|exact Hb]]].
  unfold dense_call, dense_build in *. rewrite Hx in *.
  cbn [rev app] in *. rewrite Hw.
  destruct (glorot_normal [k; units l] s) as [kernel s'] eqn:Hgl.
  cbn [fst snd] in *. cbn [weights l'] in Hy. cbn iota in Hy.
  cbn [weights]. exact Hy.
Qed.

Lemma out_width_cons k (l : @Dense R) ls :
  out_width k (l :: ls) = out_width (units l) ls.
Proof.
  unfold out_width. cbn [map]. generalize (units l) as u.
  generalize (map units ls) as ws. clear.
  intros ws. revert k. induction ws as [|w ws IH]; intros k u; [reflexivity|].
  change (last (u :: w :: ws) k) with (last (w :: ws) k).
  destruct ws as [|w' ws]; [reflexivity|].
  change (last (w :: w' :: ws) k) with (last (w' :: ws) k).
  change (last (w :: w' :: ws) u) with (last (w' :: ws) u).
  exact (IH k u).
Qed.

Lemma call_hidden_built (ls : list (@Dense R)) : forall (H : tensor) (s : Seed) m k,
  built_chain k ls -> shape H = [m; k] ->
  exists H', hcall ls H s = Ok (H', ls, s) /\
             shape H' = [m; out_width k ls].
Proof.
  induction ls as [|l ls IH]; intros H s m k Hb HH.
  - exists H. split; [reflexivity | exact HH].
  - destruct Hb as ((kernel & bias & Hw & Hk & Hbi) & Hrest).
    destruct (dense_call_built l H s m k kernel bias Hw Hk Hbi HH)
      as (y & Hy & Sy & _).
    destruct (IH y s m (units l) Hrest Sy) as (H' & HH' & SH').
    exists H'. cbn [call_hidden]. rewrite Hy; cbn [bind].
    rewrite HH'; cbn [bind]. split; [reflexivity|].
    rewrite out_width_cons. exact SH'.
Qed.

Lemma call_hidden_fresh (ls : list (@Dense R)) : forall (H : tensor) (s : Seed) m k,
  Forall (fun l => weights l = None) ls -> shape H = [m; k] ->
  exists H' ls' s',
    hcall ls H s = Ok (H', ls', s') /\
    shape H' = [m; out_width k ls] /\
    built_chain k ls' /\
    map units ls' = map units ls /\ map act ls' = map act ls.
Proof.
  induction ls as [|l ls IH]; intros H s m k Hf HH.
  - exists H, [], s. repeat split; assumption || reflexivity.
  - inversion Hf as [|? ? Hl Hls]; subst.
    destruct (dense_call_fresh l H s m k Hl HH)
      as (y & l' & Hy & Sy & El' & Bl').
    assert (Ul : units l' = units l) by (rewrite El'; reflexivity).
    assert (Al : act l' = act l) by (rewrite El'; reflexivity).
    destruct (IH y (snd (glorot_normal [k; units l] s)) m (units l) Hls Sy)
      as (H' & ls' & s' & HH' & SH' & Bls & Us & As).
    exists H', (l' :: ls'), s'.
    cbn [call_hidden]. rewrite Hy; cbn [bind].
    rewrite HH'; cbn [bind]. split; [reflexivity|].
    split; [rewrite out_width_cons; exact SH'|].
    split; [cbn [built_chain]; rewrite Ul; split; assumption|].
    cbn [map]. rewrite Ul, Al, Us, As. split; reflexivity.
Qed.

Lemma out_width_units k (ls ls' : list (@Dense R)) :
  map units ls' = map units ls -> out_width k ls' = out_width k ls.
Proof. unfold out_width. intros ->. reflexivity. Qed.

Variable units_ok : nat -> bool.

Lemma init_hidden_accepted (widths : list nat) :
  Forall (fun u => units_ok u = true) widths ->
  init_hidden (R := R) units_ok widths =
  Ok (map (fun u => mkDense u act_sin None) widths).
Proof.
  induction 1 as [|u widths Hu _ IH]; [reflexivity|].
  cbn [init_hidden map]. unfold Dense_init. rewrite Hu; cbn [bind].
  rewrite IH. reflexivity.
Qed.

(** The constructor on widths it accepts: [len(layers) - 2] sine layers of
    the widths [layers[1], ..., layers[len - 2]] and a linear output layer of
    width [layers[-1]], none of them with weights.  An empty [layers] raises
    on [layers[-1]]. *)
Lemma init_accepted (layers : list nat) :
  (layers = [] ->
   FeedForwardSubNet_init (R := R) units_ok layers = Err IndexError) /\
  (layers <> [] -> (forall u, In u layers -> units_ok u = true) ->
   FeedForwardSubNet_init (R := R) units_ok layers =
   Ok (mkNet
         (map (fun u => mkDense u act_sin None)
            (map (fun l => nth (l + 1) layers 0)
               (seq 0 (length layers - 2))))
         (mkDense (last layers 0) act_none None))).
Proof.
  split.
  - intros ->. reflexivity.
  - intros Hne Hok. unfold FeedForwardSubNet_init.
    rewrite init_hidden_accepted; cbn [bind].
    + destruct (rev layers) as [|w r] eqn:Er.
      * apply (f_equal (@rev nat)) in Er. rewrite rev_involutive in Er.
        contradiction.
      * assert (Hlast : last layers 0 = w).
        { apply (f_equal (@rev nat)) in Er. rewrite rev_involutive in Er.
          rewrite Er. cbn [rev]. apply last_last. }
        unfold Dense_init. rewrite <- Hlast.
        rewrite Hok; [reflexivity|].
        destruct layers as [|x xs]; [contradiction|].
        apply (@exists_last _ (x :: xs)) in Hne.
        destruct Hne as (l' & y & ->). rewrite last_last.
        apply in_or_app. right. left. reflexivity.
    + apply Forall_forall. intros u Hu. apply in_map_iff in Hu.
      destruct Hu as (l & <- & Hl). apply in_seq in Hl.
      apply Hok. apply nth_In. lia.
Qed.

(** With at least two entries, [layers[0]] is never read: the input width
    is taken from the data at the first call. *)
Theorem init_ignores_first_width (a b : nat) (rest : list nat) :
  rest <> [] ->
  FeedForwardSubNet_init (R := R) units_ok (a :: rest) =
  FeedForwardSubNet_init units_ok (b :: rest).
Proof.
  intros Hne. unfold FeedForwardSubNet_init.
  destruct rest as [|c rest]; [contradiction|].
  assert (Hw : forall x,
             map (fun l => nth (l + 1) (x :: c :: rest) 0)
               (seq 0 (length (x :: c :: rest) - 2)) =
             map (fun l => nth l (c :: rest) 0) (seq 0 (length rest))).
  { intros x. cbn [length Nat.sub]. rewrite Nat.sub_0_r.
    apply map_ext. intros l.
    replace (l + 1) with (S l) by lia. reflexivity. }
  rewrite (Hw a), (Hw b).
  destruct (init_hidden units_ok _) as [hidden|]; cbn [bind]; [|reflexivity].
  assert (Hr : forall x, exists w r, rev (x :: c :: rest) = w :: r /\
                         w = last (c :: rest) 0).
  { intros x. destruct (rev (x :: c :: rest)) as [|w r] eqn:Er.
    - apply (f_equal (@length nat)) in Er. rewrite length_rev in Er.
      discriminate.
    - exists w, r. split; [reflexivity|].
      apply (f_equal (@rev nat)) in Er. rewrite rev_involutive in Er.
      change (x :: c :: rest) with ([x] ++ c :: rest) in Er.
      cbn [rev] in Er.
      assert (Hl : last ([x] ++ c :: rest) 0 = w)
        by (rewrite Er; apply last_last).
      rewrite <- Hl. cbn [app]. reflexivity. }
  destruct (Hr a) as (wa & ra & Ea & Ha).
  destruct (Hr b) as (wb & rb & Eb & Hb).
  rewrite Ea, Eb, Ha, Hb. reflexivity.
Qed.

(** The first call of a network without weights, on an input of shape
    [m x k]: every layer gets its weights, built one after the other from
    the width [k] of the input, the widths and activations stay as
    constructed, and the output has shape [m x layers[-1]]. *)
Theorem first_call_builds (net : FeedForwardSubNet) (X : tensor) (s : Seed)
  m k :
  net_fresh net -> shape X = [m; k] ->
  exists out net' s',
    net_call net X s = Ok (out, net', s') /\
    shape out = [m; units (output_layer net)] /\
    net_built k net' /\
    map units (layers_list net') = map units (layers_list net) /\
    map act (layers_list net') = map act (layers_list net) /\
    units (output_layer net') = units (output_layer net) /\
    act (output_layer net') = act (output_layer net).
Proof.
  intros (Hf & Ho) HX.
  destruct (call_hidden_fresh (layers_list net) X s m k Hf HX)
    as (H & ls' & s1 & HH & SH & Bls & Us & As).
  destruct (dense_call_fresh (output_layer net) H s1 m _ Ho SH)
    as (out & o' & Hout & Sout & Eo & Bo).
  exists out, (mkNet ls' o'), (snd (glorot_normal
     [out_width k (layers_list net); units (output_layer net)] s1)).
  split; [|split; [exact Sout|split; [|split; [exact Us|split; [exact As|]]]]].
  - unfold FeedForwardSubNet_call. rewrite HH; cbn [bind].
    rewrite Hout; cbn [bind]. reflexivity.
  - split; cbn [layers_list output_layer]; [exact Bls|].
    rewrite (out_width_units k _ _ Us). exact Bo.
  - cbn [output_layer]. rewrite Eo. split; reflexivity.
Qed.

(** A call of a network that has its weights, on an input of the width it
    was built for: the weights are used as they are, the initializer is not
    consulted, and the output has shape [m x layers[-1]]. *)
Theorem built_call_keeps_weights (net : FeedForwardSubNet) (X : tensor)
  (s : Seed) m k :
  net_built k net -> shape X = [m; k] ->
  exists out,
    net_call net X s = Ok (out, net, s) /\
    shape out = [m; units (output_layer net)].
Proof.
  intros (Bls & (kernel & bias & Hw & Hk & Hb)) HX.
  destruct (call_hidden_built (layers_list net) X s m k Bls HX)
    as (H & HH & SH).
  destruct (dense_call_built (output_layer net) H s m _ kernel bias
              Hw Hk Hb SH) as (out & Hout & Sout & _).
  exists out. split; [|exact Sout].
  unfold FeedForwardSubNet_call. rewrite HH; cbn [bind].
  rewrite Hout; cbn [bind]. destruct net; reflexivity.
Qed.

(** A network that has its weights rejects an input of another width. *)
Theorem built_call_rejects_other_width (net : FeedForwardSubNet)
  (X : tensor) (s : Seed) m k k' :
  net_built k net -> shape X = [m; k'] -> k' <> k ->
  net_call net X s = Err ShapeError.
Proof.
  intros (Bls & Bo) HX Hne. unfold FeedForwardSubNet_call.
  destruct (layers_list net) as [|l ls] eqn:El.
  - cbn [call_hidden bind].
    unfold out_width in Bo. cbn [map last] in Bo.
    rewrite (dense_call_mismatch _ X s m k k' Bo HX Hne). reflexivity.
  - destruct Bls as (Bl & _). cbn [call_hidden].
    rewrite (dense_call_mismatch l X s m k k' Bl HX Hne). reflexivity.
Qed.

(** Without hidden layers (a [layers] of one or two entries) the built
    network is the affine map [X . kernel + bias]. *)
Theorem no_hidden_layer_is_affine (o : Dense) (X : tensor) (s : Seed)
  m k kernel bias :
  act o = act_none ->
  weights o = Some (kernel, bias) ->
  shape kernel = [k; units o] -> shape bias = [units o] ->
  shape X = [m; k] ->
  exists out,
    net_call (mkNet [] o) X s = Ok (out, mkNet [] o, s) /\
    shape out = [m; units o] /\
    forall i j, i < m -> j < units o ->
      get out [i; j] =
      add (sumn k (fun c => mul (get X [i; c]) (get kernel [c; j])))
          (get bias [j]).
Proof.
  intros Ha Hw Hk Hb HX.
  destruct (dense_call_built o X s m k kernel bias Hw Hk Hb HX)
    as (out & Hout & Sout & Gout).
  exists out. split; [|split; [exact Sout|]].
  - unfold FeedForwardSubNet_call. cbn [layers_list output_layer].
    cbn [call_hidden bind]. rewrite Hout; cbn [bind]. reflexivity.
  - intros i j Hi Hj. rewrite (Gout i j Hi Hj), Ha. reflexivity.
Qed.

End NetworkFacts.

(** ** More on the stepper *)

Section StepperReads.

Context {R : Type} {SR : Scalar R} {E : Engine R} {PB : Problem R}.

Local Abbreviation tensor := (tensor R).

Lemma body_reads (t W t' W' : tensor) n st :
  slice1 t (n + 1) = slice1 t' (n + 1) ->
  slice1 W (n + 1) = slice1 W' (n + 1) ->
  body t W n st = body t' W' n st.
Proof.
  intros Ht HW. unfold body. rewrite Ht, HW. reflexivity.
Qed.

Lemma loop_reads (t W t' W' : tensor) ns :
  (forall n, In n ns ->
     slice1 t (n + 1) = slice1 t' (n + 1) /\
     slice1 W (n + 1) = slice1 W' (n + 1)) ->
  forall st, loop t W ns st = loop t' W' ns st.
Proof.
  induction ns as [|n ns IH]; intros Hs st; [reflexivity|].
  cbn [loop].
  destruct (Hs n (or_introl eq_refl)) as (Ht & HW).
  rewrite (body_reads t W t' W' n st Ht HW).
  destruct (body t' W' n st) as [st'|]; cbn [bind]; [|reflexivity].
  apply IH. intros k Hk. apply Hs. right. exact Hk.
Qed.

Lemma run_reads (self self' : FBSNN) (t W t' W' Xi_ : tensor) k :
  M self = M self' -> model self = model self' ->
  (forall n, n <= k ->
     slice1 t n = slice1 t' n /\ slice1 W n = slice1 W' n) ->
  run self t W Xi_ k = run self' t' W' Xi_ k.
Proof.
  intros HM Hm Hs. unfold run, prelude.
  destruct (Hs 0 (Nat.le_0_l _)) as (Ht0 & HW0).
  rewrite Ht0, HW0, HM, Hm.
  destruct (slice1 t' 0) as [a|]; cbn [bind]; [|reflexivity].
  destruct (slice1 W' 0) as [b|]; cbn [bind]; [|reflexivity].
  destruct (tile_rows Xi_ (M self')) as [x0|]; cbn [bind]; [|reflexivity].
  destruct (net_u (model self') a x0) as [[[y0 z0] p0]|]; cbn [bind];
    [|reflexivity].
  apply loop_reads.
  intros n Hn. apply in_seq in Hn. apply Hs. lia.
Qed.

(** [loss_function] reads the time and noise arrays only at the time points
    [0, ..., N]: two pairs of arrays that agree there give the same result,
    error or not.  Time points beyond [N] are never looked at. *)
Theorem loss_function_reads_first_points (self : FBSNN)
  (t W t' W' Xi_ : tensor) :
  (forall n, n <= N self ->
     slice1 t n = slice1 t' n /\ slice1 W n = slice1 W' n) ->
  loss_function self t W Xi_ = loss_function self t' W' Xi_.
Proof.
  intros Hs. unfold loss_function.
  rewrite (run_reads self self t W t' W' Xi_ (N self) eq_refl eq_refl Hs).
  reflexivity.
Qed.

End StepperReads.

Section StepperMore.

Context {R : Type} {SR : Scalar R} {E : Engine R} {PB : Problem R}.

Local Abbreviation tensor := (tensor R).

Variable self : FBSNN.
Hypothesis ws : well_shaped self.

Lemma well_shaped_with_N n : well_shaped (with_N self n).
Proof.
  destruct ws as [H1 H2 H3 H4 H5 H6 H7 H8]. constructor; assumption.
Qed.

(** Arrays with fewer than [N + 1] time points: the passes that have their
    data run, and the pass that indexes past the end raises. *)
Theorem short_paths_raise_index_error (t W Xi_ : tensor) n1 :
  shape t = [M self; n1; 1] -> shape W = [M self; n1; D self] ->
  shape Xi_ = [1; D self] -> 0 < n1 -> n1 <= N self ->
  loss_function self t W Xi_ = Err IndexError.
Proof.
  intros Ht HW HXi H0 Hle.
  set (self' := with_N self (n1 - 1)).
  assert (Ht' : shape t = [M self'; N self' + 1; 1])
    by (rewrite Ht; cbn [M N self' with_N]; do 2 f_equal; lia).
  assert (HW' : shape W = [M self'; N self' + 1; D self'])
    by (rewrite HW; cbn [M N D self' with_N]; do 2 f_equal; lia).
  destruct (run_ok self' (well_shaped_with_N _) t W Ht' HW' Xi_ HXi (n1 - 1)
              (le_n _)) as (st & Hrun & _).
  rewrite <- (run_reads self self' t W t W Xi_ (n1 - 1) eq_refl eq_refl
                (fun n _ => conj eq_refl eq_refl)) in Hrun.
  unfold loss_function, run in *.
  destruct (prelude self t W Xi_) as [st0|]; cbn [bind] in *; [|discriminate].
  replace (N self) with ((n1 - 1) + S (N self - n1)) by lia.
  rewrite seq_app, loop_app, Hrun. cbn [bind seq loop Nat.add].
  unfold body. unfold slice1 at 1. rewrite Ht.
  replace (n1 - 1 + 1) with n1 by lia. rewrite Nat.ltb_irrefl.
  reflexivity.
Qed.

(** A noise array whose last dimension is not the dimension of the state
    fails in the first pass, at the product with [sigma_tf]. *)
Theorem noise_dimension_mismatch_raises (t W Xi_ : tensor) d' :
  shape t = [M self; N self + 1; 1] ->
  shape W = [M self; N self + 1; d'] ->
  shape Xi_ = [1; D self] -> d' <> D self -> 0 < N self ->
  loss_function self t W Xi_ = Err ShapeError.
Proof.
  intros Ht HW HXi Hd HN.
  destruct (slice1_ok t _ _ _ 0 Ht ltac:(lia)) as (a0 & Ha0 & Sa0 & _).
  destruct (slice1_ok W _ _ _ 0 HW ltac:(lia)) as (b0 & Hb0 & Sb0 & _).
  destruct (slice1_ok t _ _ _ (0 + 1) Ht ltac:(lia)) as (a1 & Ha1 & Sa1 & _).
  destruct (slice1_ok W _ _ _ (0 + 1) HW ltac:(lia)) as (b1 & Hb1 & Sb1 & _).
  destruct (tile_rows_ok Xi_ _ (M self) HXi) as (x0 & Hx0 & Sx0 & _).
  destruct (net_u_ok self ws (model self) a0 x0 Sa0 Sx0)
    as (y0 & z0 & p0 & Hnet & Sy0 & Sz0).
  destruct (ws_mu ws a0 x0 y0 z0 Sa0 Sx0 Sy0 Sz0) as (mv & Hmv & Smv).
  destruct (ws_sigma ws a0 x0 y0 Sa0 Sx0 Sy0) as (sg & Hsg & Ssg).
  destruct (broadcast_same sub a1 a0 _ Sa1 Sa0) as (dt & Hdt & Sdt & _).
  destruct (broadcast_col mul mv dt _ _ Smv Sdt) as (mdt & Hmdt & Smdt & _).
  destruct (broadcast_same add x0 mdt _ Sx0 Smdt) as (a & Ha & Sa & _).
  destruct (broadcast_same sub b1 b0 _ Sb1 Sb0) as (dW & HdW & SdW & _).
  unfold loss_function, run, prelude.
  rewrite Ha0; cbn [bind]. rewrite Hb0; cbn [bind].
  rewrite Hx0; cbn [bind]. rewrite Hnet; cbn [bind].
  destruct (N self) as [|n] eqn:EN; [lia|].
  cbn [seq loop]. unfold body.
  cbn [t0 W0 X0 Y0 Z0].
  rewrite Ha1; cbn [bind]. rewrite Hb1; cbn [bind].
  unfold X1_expr, tsub, tmul, tadd.
  rewrite Hmv; cbn [bind]. rewrite Hdt; cbn [bind].
  rewrite Hmdt; cbn [bind]. rewrite Ha; cbn [bind].
  rewrite Hsg; cbn [bind]. rewrite HdW; cbn [bind].
  unfold matmul. change (shape (expand_dims_last dW)) with (shape dW ++ [1]).
  rewrite Ssg, SdW. cbn [rev app].
  destruct (Nat.eqb_spec (D self) d'); [congruence|]. reflexivity.
Qed.

(** An initial point with a number of rows other than one is tiled to that
    many times [M] rows and cannot be joined with the [M] rows of the time
    slice: the stepper fails before the network is evaluated. *)
Theorem initial_point_rows_raise (t W Xi_ : tensor) n k r d :
  shape t = [M self; n; k] -> shape Xi_ = [r; d] -> r <> 1 ->
  exists e, loss_function self t W Xi_ = Err e /\
            (e = ShapeError \/ e = IndexError).
Proof.
  intros Ht HXi Hr. unfold loss_function, run, prelude.
  destruct (slice1 t 0) as [a0|e] eqn:Ha0; cbn [bind];
    [|exists e; split; [reflexivity | apply (slice1_error _ _ _ Ha0)]].
  destruct (slice1 W 0) as [b0|e] eqn:Hb0; cbn [bind];
    [|exists e; split; [reflexivity | apply (slice1_error _ _ _ Hb0)]].
  assert (Sa0 : shape a0 = [M self; k]).
  { unfold slice1 in Ha0. rewrite Ht in Ha0.
    destruct (0 <? n); inversion Ha0. reflexivity. }
  unfold tile_rows. rewrite HXi. cbn [bind]. unfold net_u.
  assert (Hne : M self <> r * M self) by (pose proof (ws_M ws); nia).
  match goal with |- context [concat1 a0 ?x] =>
    rewrite (concat1_mismatch a0 x (M self) k (r * M self) d Sa0
               (shape_build _ _) Hne)
  end.
  cbn [bind]. exists ShapeError. split; [reflexivity | left; reflexivity].
Qed.

Variables t W Xi_ : tensor.
Hypothesis Ht : shape t = [M self; N self + 1; 1].
Hypothesis HW : shape W = [M self; N self + 1; D self].
Hypothesis HXi : shape Xi_ = [1; D self].

(** The terminal condition is computed from its argument. *)
Hypothesis on_tape : g_on_tape = true.

(** On data of the configured shapes, with at least one step,
    [loss_function] returns a scalar loss, a state trajectory of shape
    [(M, N+1, D)] that starts at the initial point on every trajectory, a
    value trajectory of shape [(M, N+1, 1)], and the value [Y[0,0,0]]. *)
Theorem loss_function_outputs :
  0 < N self ->
  exists l X Y self',
    loss_function self t W Xi_
      = Ok (l, X, Y, scalar (get Y [0; 0; 0]), self') /\
    shape l = [] /\
    shape X = [M self; N self + 1; D self] /\
    shape Y = [M self; N self + 1; 1] /\
    forall i j, i < M self -> j < D self -> get X [i; 0; j] = get Xi_ [0; j].
Proof.
  intros HN.
  destruct (loss_function_ok self ws t W Ht HW Xi_ HXi on_tape HN)
    as (gX & DgX & l & X & Y & _ & _ & _ & _ & HL & Sl & SX & SY & GX & _).
  eexists l, X, Y, _. split; [exact HL|]. split; [exact Sl|].
  split; [exact SX|]. split; [exact SY|].
  intros i j Hi Hj. rewrite (GX i 0 j Hi (Nat.le_0_l _) Hj).
  destruct (prelude_ok self ws t W Ht HW Xi_ HXi) as (st & Hst & _ & G0 & _).
  assert (Hr : run self t W Xi_ 0 = Ok st)
    by (unfold run; rewrite Hst; reflexivity).
  rewrite (state_at_run self t W Xi_ 0 st Hr). apply G0; assumption.
Qed.

(** The state of a pass in terms of the returned trajectory. *)
Lemma X_step n :
  n < N self ->
  let st := state_at self t W Xi_ n in
  exists l X Y y self' mv sg,
    loss_function self t W Xi_ = Ok (l, X, Y, y, self') /\
    mu_tf (t0 st) (X0 st) (Y0 st) (Z0 st) = Ok mv /\
    sigma_tf (t0 st) (X0 st) (Y0 st) = Ok sg /\
    forall i j, i < M self -> j < D self ->
      get X [i; n + 1; j] =
      add (add (get X [i; n; j])
               (mul (get mv [i; j])
                    (sub (get t [i; n + 1; 0]) (get t [i; n; 0]))))
          (sumn (D self)
             (fun k => mul (get sg [i; j; k])
                           (sub (get W [i; n + 1; k]) (get W [i; n; k])))).
Proof.
  intros Hn st. subst st.
  destruct (loss_function_ok self ws t W Ht HW Xi_ HXi on_tape ltac:(lia))
    as (gX & DgX & l & X & Y & _ & _ & _ & _ & HL & _ & SX & _ & GX & GY & _).
  destruct (state_at_ok self ws t W Ht HW Xi_ HXi n ltac:(lia)) as (Hrun & HI).
  destruct HI as (It & IW & SX0 & SY0 & SZ0 & _).
  destruct (state_at_step self ws t W Ht HW Xi_ HXi n Hn)
    as (yt & Ht1 & HW1 & Hx1 & _).
  pose proof (slice_shapes self t Ht _ _ It) as St0.
  pose proof (slice_shapes_W self W HW _ _ IW) as SW0.
  pose proof (slice_shapes self t Ht _ _ Ht1) as St1.
  pose proof (slice_shapes_W self W HW _ _ HW1) as SW1.
  destruct (X1_expr_ok self ws _ _ _ _ _ _ _ St0 SW0 SX0 SY0 SZ0 St1 SW1)
    as (mv & sg & x1 & Hmv & Hsg & Hx1' & _ & Gx1).
  rewrite Hx1 in Hx1'. injection Hx1' as <-.
  eexists l, X, Y, (scalar (get Y [0; 0; 0])), _, mv, sg.
  split; [eassumption|]. split; [assumption|]. split; [assumption|].
  intros i j Hi Hj.
  rewrite (GX i (n + 1) j) by lia. rewrite (GX i n j) by lia.
  replace (state_at self t W Xi_ (n + 1)) with (state_at self t W Xi_ (S n))
    by (f_equal; lia).
  rewrite (Gx1 i j Hi Hj).
  rewrite (slice1_get _ _ _ _ _ _ i 0 Ht It) by lia.
  rewrite (slice1_get _ _ _ _ _ _ i 0 Ht Ht1) by lia.
  f_equal. apply sumn_ext. intros k Hk.
  rewrite (slice1_get _ _ _ _ _ _ i k HW IW) by lia.
  rewrite (slice1_get _ _ _ _ _ _ i k HW HW1) by lia.
  reflexivity.
Qed.

(** For one dimension and at least two trajectories the backward target of
    a pass adds, to every trajectory, [Z0] of that trajectory times the sum
    over all trajectories [k] of [sigma . (W1 - W0)]. *)
Theorem Y1_tilde_crosses_trajectories n :
  n < N self -> D self = 1 -> 2 <= M self ->
  let st := state_at self t W Xi_ n in
  let st' := state_at self t W Xi_ (S n) in
  exists fv sg,
    phi_tf (t0 st) (X0 st) (Y0 st) (Z0 st) = Ok fv /\
    sigma_tf (t0 st) (X0 st) (Y0 st) = Ok sg /\
    forall i, i < M self ->
      get (Y1_tilde_at self t W Xi_ n) [i; 0] =
      add (add (get (Y0 st) [i; 0])
               (mul (get fv [i; 0])
                    (sub (get (t0 st') [i; 0]) (get (t0 st) [i; 0]))))
          (sumn (M self)
             (fun k =>
                mul (get (Z0 st) [i; 0])
                    (sumn (D self)
                       (fun l => mul (get sg [k; 0; l])
                                     (sub (get (W0 st') [k; l])
                                          (get (W0 st) [k; l])))))).
Proof.
  intros Hn HD HM st st'. subst st st'.
  destruct (state_at_ok self ws t W Ht HW Xi_ HXi n ltac:(lia)) as (_ & HI).
  destruct HI as (It & IW & SX0 & SY0 & SZ0 & _).
  destruct (state_at_step self ws t W Ht HW Xi_ HXi n Hn)
    as (yt & Ht1 & HW1 & _ & Hyt & _).
  pose proof (slice_shapes self t Ht _ _ It) as St0.
  pose proof (slice_shapes_W self W HW _ _ IW) as SW0.
  pose proof (slice_shapes self t Ht _ _ Ht1) as St1.
  pose proof (slice_shapes_W self W HW _ _ HW1) as SW1.
  destruct (Y1_tilde_expr_ok self ws _ _ _ _ _ _ _ St0 SW0 SX0 SY0 SZ0 St1 SW1)
    as (fv & sg & p & yt' & Hfv & Hsg & Hyt' & _ & _ & Gp & Gyt).
  rewrite Hyt in Hyt'. injection Hyt' as <-.
  exists fv, sg. split; [assumption|]. split; [assumption|].
  intros i Hi.
  rewrite (Y1_tilde_at_step self ws t W Ht HW Xi_ HXi n yt Hn Hyt), (Gyt i Hi).
  f_equal. unfold inner_value.
  assert (Hb : (D self =? 1) && negb (M self =? 1) = true).
  { rewrite HD. destruct (Nat.eqb_spec (M self) 1); [lia | reflexivity]. }
  rewrite Hb. apply sumn_ext. intros k Hk.
  rewrite (Gp k 0 Hk ltac:(lia)). reflexivity.
Qed.

End StepperMore.

(** ** The base-class drift and diffusion *)

Section BaseProblem.

Context {R : Type} {SR : Scalar R} {E : Engine R} {PB : Problem R}.

Local Abbreviation tensor := (tensor R).

Variable self : FBSNN.
Hypothesis ws : well_shaped self.

Variables t W Xi_ : tensor.
Hypothesis Ht : shape t = [M self; N self + 1; 1].
Hypothesis HW : shape W = [M self; N self + 1; D self].
Hypothesis HXi : shape Xi_ = [1; D self].

(** The terminal condition is computed from its argument. *)
Hypothesis on_tape : g_on_tape = true.

(** The problem uses the bodies of the base class. *)
Hypothesis mu_is_base :
  forall a b c d, mu_tf a b c d = Ok (mu_tf_base self).
Hypothesis sigma_is_base :
  forall a b c, sigma_tf a b c = Ok (sigma_tf_base self).

Hypothesis add_0_l : forall x : R, add zero x = x.
Hypothesis add_0_r : forall x : R, add x zero = x.
Hypothesis mul_0_l : forall x : R, mul zero x = zero.
Hypothesis mul_1_l : forall x : R, mul one x = x.

Lemma sumn_delta j n (f : nat -> R) :
  j < n ->
  sumn n (fun l => mul (if j =? l then one else zero) (f l)) = f j.
Proof.
  induction n as [|n IH]; intros Hj; [lia|].
  rewrite sumn_S. destruct (Nat.eq_dec j n) as [->|Hne].
  - rewrite Nat.eqb_refl, mul_1_l.
    rewrite (sumn_zero add_0_r).
    + apply add_0_l.
    + intros k Hk. destruct (Nat.eqb_spec n k); [lia|]. apply mul_0_l.
  - destruct (Nat.eqb_spec j n); [contradiction|].
    rewrite mul_0_l, add_0_r. apply IH. lia.
Qed.

(** With the drift and the diffusion of the base class (no drift, identity
    diffusion) the state moves by the increment of the noise:
    [X[i,n+1,j] = X[i,n,j] + (W[i,n+1,j] - W[i,n,j])]. *)
Theorem base_problem_state_follows_noise n :
  n < N self ->
  exists l X Y y self',
    loss_function self t W Xi_ = Ok (l, X, Y, y, self') /\
    forall i j, i < M self -> j < D self ->
      get X [i; n + 1; j] =
      add (get X [i; n; j]) (sub (get W [i; n + 1; j]) (get W [i; n; j])).
Proof.
  intros Hn.
  destruct (X_step self ws t W Xi_ Ht HW HXi on_tape n Hn)
    as (l & X & Y & y & self' & mv & sg & HL & Hmv & Hsg & GX).
  rewrite mu_is_base in Hmv. injection Hmv as <-.
  rewrite sigma_is_base in Hsg. injection Hsg as <-.
  exists l, X, Y, y, self'. split; [exact HL|].
  intros i j Hi Hj. rewrite (GX i j Hi Hj).
  unfold mu_tf_base. rewrite get_zeros by range.
  rewrite mul_0_l, add_0_r. f_equal.
  rewrite <- (sumn_delta j (D self)
                (fun k => sub (get W [i; n + 1; k]) (get W [i; n; k])) Hj).
  apply sumn_ext. intros k Hk. unfold sigma_tf_base.
  rewrite get_build by range. reflexivity.
Qed.

End BaseProblem.

(** ** More on the path simulator *)

Section PathSimulatorMore.

Context {R : Type} {SR : Scalar R} {E : Engine R}.

Local Abbreviation tensor := (tensor R).

Variable self : FBSNN.

Hypothesis normal_shape :
  forall s r, shape (fst (random_normal s r)) = s.

(** The path simulator draws from the random source once, an array of size
    [(M, N, D)], and returns the state of the source after that draw; the
    time advances by [T / N] at every step and the noise by [sqrt(T / N)]
    times the entry drawn for that trajectory, step and dimension. *)
Theorem fetch_minibatch_increments (r : Rng) :
  0 < N self ->
  let dt := div (T self) (of_nat (N self)) in
  let z := fst (random_normal [M self; N self; D self] r) in
  exists t W,
    fetch_minibatch self r =
      Ok (t, W, snd (random_normal [M self; N self; D self] r)) /\
    forall i n, i < M self -> n < N self ->
      get t [i; n + 1; 0] = add (get t [i; n; 0]) dt /\
      forall j, j < D self ->
        get W [i; n + 1; j] =
        add (get W [i; n; j]) (mul (np_sqrt dt) (get z [i; n; j])).
Proof.
  intros HN dt z. unfold fetch_minibatch.
  destruct (Nat.eqb_spec (N self) 0) as [HN0|_]; [lia|]. cbn [bind].
  fold dt. replace (N self + 1) with (S (N self)) by lia.
  destruct (assign_from1_ok (zeros [M self; S (N self); 1]) (scalar dt)
              (M self) (N self) 1 eq_refl (broadcast_shapes_nil_l _))
    as (Dt' & HDt & SDt & _ & GDt).
  rewrite HDt; cbn [bind].
  pose proof (normal_shape [M self; N self; D self] r) as Hz. fold z in Hz.
  subst z. destruct (random_normal [M self; N self; D self] r) as [z r'].
  cbn [fst snd] in *.
  assert (Hv : exists v, tmul (scalar (np_sqrt dt)) z = Ok v /\
                shape v = [M self; N self; D self] /\
                forall i n j, i < M self -> n < N self -> j < D self ->
                  get v [i; n; j] = mul (np_sqrt dt) (get z [i; n; j])).
  { eexists. split;
      [apply broadcast_ok; rewrite Hz; apply broadcast_shapes_nil_l|].
    split; [reflexivity|].
    intros i n j Hi Hn Hj. rewrite get_build by range.
    rewrite Hz, (bidx_same [M self; N self; D self]) by range.
    reflexivity. }
  destruct Hv as (v & Hv & Sv & Gv). rewrite Hv; cbn [bind].
  destruct (assign_from1_ok (zeros [M self; S (N self); D self]) v
              (M self) (N self) (D self) eq_refl
              ltac:(rewrite Sv; apply broadcast_shapes_refl))
    as (DW' & HDW & SDW & _ & GDW).
  rewrite HDW; cbn [bind].
  exists (cumsum1 Dt'), (cumsum1 DW'). split; [reflexivity|].
  intros i n Hi Hn. replace (n + 1) with (S n) by lia. split.
  - rewrite (get_cumsum1 Dt' _ _ _ i (S n) 0 SDt) by lia.
    rewrite (get_cumsum1 Dt' _ _ _ i n 0 SDt) by lia.
    cbn [cum]. rewrite GDt by lia. reflexivity.
  - intros j Hj.
    rewrite (get_cumsum1 DW' _ _ _ i (S n) j SDW) by lia.
    rewrite (get_cumsum1 DW' _ _ _ i n j SDW) by lia.
    cbn [cum]. rewrite GDW by lia.
    rewrite Sv, bidx_same by range. rewrite Gv by lia. reflexivity.
Qed.

End PathSimulatorMore.

(** ** More on the training loop *)

Section TrainerMore.

Context {R : Type} {SR : Scalar R} {E : Engine R} {PB : Problem R}.

Local Abbreviation tensor := (tensor R).

Lemma train_loop_frame lr n : forall a start (w : World),
  trainable (obj w) ->
  exists start' w' new,
    train_loop lr (seq a n) (start, w) = Ok (start', w') /\
    trainable (obj w') /\
    stdout w' = stdout w ++ new /\
    ticks w' = ticks w + 2 * length new /\
    Forall (fun line => r_lr line = lr) new /\
    M (obj w') = M (obj w) /\ N (obj w') = N (obj w) /\
    D (obj w') = D (obj w) /\ T (obj w') = T (obj w) /\
    Xi (obj w') = Xi (obj w).
Proof.
  induction n as [|n IH]; intros a start w Htr.
  - exists start, w, []. cbn [seq train_loop length].
    split; [reflexivity|]. split; [assumption|].
    split; [symmetry; apply app_nil_r|]. split; [lia|].
    split; [constructor|]. repeat split.
  - destruct (train_iter_ok lr a start w Htr)
      as (t_b & W_b & r' & l & X & Y & y & p1 & g & _ & _ & _ & Htr'
          & l' & X' & Y' & y' & p3 & _ & Htr3 & Hit).
    cbn [seq train_loop]. rewrite Hit; cbn [bind].
    destruct (reported a).
    + match goal with |- context [train_loop lr _ (?s1, ?w1)] =>
        destruct (IH (S a) s1 w1 Htr3)
          as (start' & w' & new & Hlp & Htr'' & Hout & Htk & Hlr
              & HM & HN & HD & HT & HXi)
      end.
      rewrite Hlp. cbn [obj stdout ticks] in *.
      eexists start', w', (_ :: new).
      split; [reflexivity|]. split; [assumption|].
      split; [rewrite Hout, <- app_assoc; reflexivity|].
      split; [cbn [length]; lia|].
      split; [constructor; [reflexivity | assumption]|].
      repeat split; assumption.
    + match goal with |- context [train_loop lr _ (?s1, ?w1)] =>
        destruct (IH (S a) s1 w1 Htr')
          as (start' & w' & new & Hlp & Htr'' & Hout & Htk & Hlr
              & HM & HN & HD & HT & HXi)
      end.
      rewrite Hlp. cbn [obj stdout ticks] in *.
      exists start', w', new.
      split; [reflexivity|]. split; [assumption|].
      repeat split; assumption.
Qed.

(** [train] changes the network and the optimizer only: the configuration
    of the object ([M], [N], [D], [T], the initial point) is as before, the
    clock is read once at the start and twice for every line printed, and
    every line carries the learning rate passed to [train]. *)
Theorem train_keeps_configuration n lr (w : World) :
  trainable (obj w) ->
  exists w' new,
    train n lr w = Ok w' /\
    stdout w' = stdout w ++ new /\
    ticks w' = ticks w + 1 + 2 * length new /\
    Forall (fun line => r_lr line = lr) new /\
    M (obj w') = M (obj w) /\ N (obj w') = N (obj w) /\
    D (obj w') = D (obj w) /\ T (obj w') = T (obj w) /\
    Xi (obj w') = Xi (obj w).
Proof.
  intros Htr. unfold train.
  pose proof (trainable_with_model (obj w)
                (set_learning_rate lr (optimizer (obj w))) (model (obj w))
                Htr) as Htr0.
  unfold time_time. cbn [obj rng ticks stdout updates].
  match goal with |- context [train_loop lr _ (?s1, ?w1)] =>
    destruct (train_loop_frame lr n 0 s1 w1 Htr0)
      as (start' & w' & new & Hlp & _ & Hout & Htk & Hlr
          & HM & HN & HD & HT & HXi)
  end.
  rewrite Hlp. cbn [bind snd obj stdout ticks with_model M N D T Xi] in *.
  exists w', new. split; [reflexivity|]. split; [assumption|].
  split; [lia|]. repeat split; assumption.
Qed.

End TrainerMore.

(** ** Calling the network again *)

Section NetworkAgain.

Context {R : Type} {SR : Scalar R}.

Local Abbreviation tensor := (tensor R).

Variable tf_sin : R -> R.
Variable Seed : Type.
Variable glorot_normal : list nat -> Seed -> tensor * Seed.

Lemma dense_call_again (l l' : Dense) (x y : tensor) (s s' : Seed) :
  dense_call tf_sin glorot_normal l x s = Ok (y, l', s') ->
  forall s2, dense_call tf_sin glorot_normal l' x s2 = Ok (y, l', s2).
Proof.
  unfold dense_call. intros H s2.
  destruct (rev (shape x)) as [|k [|k0 rs]]; try discriminate.
  destruct (dense_build glorot_normal l k s) as [l1 s1] eqn:Hb.
  destruct (weights l1) as [[kernel bias]|] eqn:Hw; [|discriminate].
  destruct (matmul x kernel) as [xk|] eqn:Hm; cbn [bind] in H;
    [|discriminate].
  destruct (tadd xk bias) as [y0|] eqn:Ha; cbn [bind] in H; [|discriminate].
  injection H as <- <- <-.
  unfold dense_build. rewrite Hw. cbn iota. rewrite Hw.
  rewrite Hm; cbn [bind]. rewrite Ha; cbn [bind]. reflexivity.
Qed.

Lemma call_hidden_again (ls : list (@Dense R)) :
  forall (H H' : tensor) ls' (s s' : Seed),
  call_hidden tf_sin glorot_normal ls H s = Ok (H', ls', s') ->
  forall s2, call_hidden tf_sin glorot_normal ls' H s2 = Ok (H', ls', s2).
Proof.
  induction ls as [|l ls IH]; intros H H' ls' s s' Hc s2.
  - cbn [call_hidden] in Hc. injection Hc as <- <- <-. reflexivity.
  - cbn [call_hidden] in Hc.
    destruct (dense_call tf_sin glorot_normal l H s) as [[[y l1] s1]|] eqn:Hd;
      cbn [bind] in Hc; [|discriminate].
    destruct (call_hidden tf_sin glorot_normal ls y s1)
      as [[[H2 ls2] s2']|] eqn:Hr; cbn [bind] in Hc; [|discriminate].
    injection Hc as <- <- <-.
    cbn [call_hidden]. rewrite (dense_call_again _ _ _ _ _ _ Hd s2).
    cbn [bind]. rewrite (IH _ _ _ _ _ Hr s2). reflexivity.
Qed.

(** After a call that succeeded, a call of the network it left behind on
    the same input returns the same output, leaves the weights as they are
    and does not consult the initializer: the weights are drawn once. *)
Theorem second_call_repeats_first (net net' : FeedForwardSubNet)
  (X out : tensor) (s s' : Seed) :
  FeedForwardSubNet_call tf_sin glorot_normal net X s = Ok (out, net', s') ->
  forall s2,
    FeedForwardSubNet_call tf_sin glorot_normal net' X s2
      = Ok (out, net', s2).
Proof.
  unfold FeedForwardSubNet_call. intros H s2.
  destruct (call_hidden tf_sin glorot_normal (layers_list net) X s)
    as [[[H1 ls1] s1]|] eqn:Hh; cbn [bind] in H; [|discriminate].
  destruct (dense_call tf_sin glorot_normal (output_layer net) H1 s1)
    as [[[o1 l1] s1']|] eqn:Hd; cbn [bind] in H; [|discriminate].
  injection H as <- <- <-. cbn [layers_list output_layer].
  rewrite (call_hidden_again _ _ _ _ _ _ Hh s2). cbn [bind].
  rewrite (dense_call_again _ _ _ _ _ _ Hd s2). reflexivity.
Qed.

(** A call leaves the layer with weights, and a layer that has weights
    comes out of a call as it went in, the initializer untouched. *)
Lemma dense_call_has_weights (l l' : Dense) (x y : tensor) (s s' : Seed) :
  dense_call tf_sin glorot_normal l x s = Ok (y, l', s') ->
  weights l' <> None.
Proof.
  unfold dense_call.
  destruct (rev (shape x)) as [|k [|k0 rs]]; try discriminate.
  destruct (dense_build glorot_normal l k s) as [l1 s1] eqn:Hb.
  destruct (weights l1) as [[kernel bias]|] eqn:Hw; [|discriminate].
  destruct (matmul x kernel) as [xk|]; cbn [bind]; [|discriminate].
  destruct (tadd xk bias) as [y0|]; cbn [bind]; [|discriminate].
  intros H. injection H as _ <- _. rewrite Hw. discriminate.
Qed.

Lemma dense_call_kept (l l' : Dense) (x y : tensor) (s s' : Seed) :
  weights l <> None ->
  dense_call tf_sin glorot_normal l x s = Ok (y, l', s') ->
  l' = l /\ s' = s.
Proof.
  intros Hl. unfold dense_call, dense_build.
  destruct (rev (shape x)) as [|k [|k0 rs]]; try discriminate.
  destruct (weights l) as [[kernel bias]|] eqn:Hw; [|contradiction].
  rewrite Hw.
  destruct (matmul x kernel) as [xk|]; cbn [bind]; [|discriminate].
  destruct (tadd xk bias) as [y0|]; cbn [bind]; [|discriminate].
  intros H. injection H as _ <- <-. split; reflexivity.
Qed.

Lemma call_hidden_has_weights (ls : list (@Dense R)) :
  forall (H H' : tensor) ls' (s s' : Seed),
  call_hidden tf_sin glorot_normal ls H s = Ok (H', ls', s') ->
  Forall (fun l => weights l <> None) ls'.
Proof.
  induction ls as [|l ls IH]; intros H H' ls' s s' Hc.
  - cbn [call_hidden] in Hc. injection Hc as _ <- _. constructor.
  - cbn [call_hidden] in Hc.
    destruct (dense_call tf_sin glorot_normal l H s) as [[[y l1] s1]|] eqn:Hd;
      cbn [bind] in Hc; [|discriminate].
    destruct (call_hidden tf_sin glorot_normal ls y s1)
      as [[[H2 ls2] s2']|] eqn:Hr; cbn [bind] in Hc; [|discriminate].
    injection Hc as _ <- _. constructor.
    + exact (dense_call_has_weights _ _ _ _ _ _ Hd).
    + exact (IH _ _ _ _ _ Hr).
Qed.

Lemma call_hidden_kept (ls : list (@Dense R)) :
  forall (H H' : tensor) ls' (s s' : Seed),
  Forall (fun l => weights l <> None) ls ->
  call_hidden tf_sin glorot_normal ls H s = Ok (H', ls', s') ->
  ls' = ls /\ s' = s.
Proof.
  induction ls as [|l ls IH]; intros H H' ls' s s' Hf Hc.
  - cbn [call_hidden] in Hc. injection Hc as _ <- <-. split; reflexivity.
  - inversion Hf as [|? ? Hl Hls]; subst. cbn [call_hidden] in Hc.
    destruct (dense_call tf_sin glorot_normal l H s) as [[[y l1] s1]|] eqn:Hd;
      cbn [bind] in Hc; [|discriminate].
    destruct (dense_call_kept _ _ _ _ _ _ Hl Hd) as (-> & ->).
    destruct (call_hidden tf_sin glorot_normal ls y s)
      as [[[H2 ls2] s2']|] eqn:Hr; cbn [bind] in Hc; [|discriminate].
    destruct (IH _ _ _ _ _ Hls Hr) as (-> & ->).
    injection Hc as _ <- <-. split; reflexivity.
Qed.

Lemma net_call_has_weights (net net' : FeedForwardSubNet)
  (X out : tensor) (s s' : Seed) :
  FeedForwardSubNet_call tf_sin glorot_normal net X s = Ok (out, net', s') ->
  net_has_weights net'.
Proof.
  unfold FeedForwardSubNet_call. intros H.
  destruct (call_hidden tf_sin glorot_normal (layers_list net) X s)
    as [[[H1 ls1] s1]|] eqn:Hh; cbn [bind] in H; [|discriminate].
  destruct (dense_call tf_sin glorot_normal (output_layer net) H1 s1)
    as [[[o1 l1] s1']|] eqn:Hd; cbn [bind] in H; [|discriminate].
  injection H as _ <- _. split; cbn [layers_list output_layer].
  - exact (call_hidden_has_weights _ _ _ _ _ _ Hh).
  - exact (dense_call_has_weights _ _ _ _ _ _ Hd).
Qed.

Lemma net_call_kept (net net' : FeedForwardSubNet)
  (X out : tensor) (s s' : Seed) :
  net_has_weights net ->
  FeedForwardSubNet_call tf_sin glorot_normal net X s = Ok (out, net', s') ->
  net' = net /\ s' = s.
Proof.
  intros (Hls & Ho). unfold FeedForwardSubNet_call. intros H.
  destruct (call_hidden tf_sin glorot_normal (layers_list net) X s)
    as [[[H1 ls1] s1]|] eqn:Hh; cbn [bind] in H; [|discriminate].
  destruct (call_hidden_kept _ _ _ _ _ _ Hls Hh) as (-> & ->).
  destruct (dense_call tf_sin glorot_normal (output_layer net) H1 s)
    as [[[o1 l1] s1']|] eqn:Hd; cbn [bind] in H; [|discriminate].
  destruct (dense_call_kept _ _ _ _ _ _ Ho Hd) as (-> & ->).
  injection H as _ <- <-. destruct net; split; reflexivity.
Qed.

Lemma net_call_repeats (net net' : FeedForwardSubNet)
  (X out : tensor) (s s' : Seed) :
  FeedForwardSubNet_call tf_sin glorot_normal net X s = Ok (out, net', s') ->
  FeedForwardSubNet_call tf_sin glorot_normal net' X s' = Ok (out, net', s').
Proof.
  unfold FeedForwardSubNet_call. intros H.
  destruct (call_hidden tf_sin glorot_normal (layers_list net) X s)
    as [[[H1 ls1] s1]|] eqn:Hh; cbn [bind] in H; [|discriminate].
  destruct (dense_call tf_sin glorot_normal (output_layer net) H1 s1)
    as [[[o1 l1] s1']|] eqn:Hd; cbn [bind] in H; [|discriminate].
  injection H as <- <- <-. cbn [layers_list output_layer].
  rewrite (call_hidden_again _ _ _ _ _ _ Hh s1'). cbn [bind].
  rewrite (dense_call_again _ _ _ _ _ _ Hd s1'). reflexivity.
Qed.

End NetworkAgain.

(** ** The further properties on the integer instance *)

Lemma ex_glorot_shape sh s : shape (fst (ex_glorot sh s)) = sh.
Proof. reflexivity. Qed.

Lemma ex_net_built_ok : net_built 2 ex_net_built.
Proof.
  split.
  - cbn [built_chain layers_list ex_net_built]. split; [|exact I].
    eexists _, _. split; [reflexivity|]. split; reflexivity.
  - eexists _, _. split; [reflexivity|]. split; reflexivity.
Qed.

Lemma ex_net_fresh_ok : net_fresh ex_net.
Proof.
  split; [|reflexivity]. repeat constructor.
Qed.

(** [layers = [2; 3; 1]] and [layers = [7; 3; 1]] construct the same
    network, here with a constructor that refuses the width 0. *)
Lemma init_ignores_first_width_witness :
  [3; 1] <> [] /\
  FeedForwardSubNet_init (R := Z) ex_units_ok (2 :: [3; 1]) =
  FeedForwardSubNet_init ex_units_ok (7 :: [3; 1]).
Proof.
  assert (H : [3; 1] <> @nil nat) by discriminate.
  split; [exact H|].
  exact (init_ignores_first_width (R := Z) ex_units_ok 2 7 [3; 1] H).
Defined.

(** The first call of the network of [layers = [2; 3; 1]] on two rows of
    width 2. *)
Lemma first_call_builds_witness :
  net_fresh ex_net /\ shape ex_input = [2; 2] /\
  exists out net' s',
    FeedForwardSubNet_call ex_sin ex_glorot ex_net ex_input 0
      = Ok (out, net', s') /\
    shape out = [2; units (output_layer ex_net)] /\
    net_built 2 net' /\
    map units (layers_list net') = map units (layers_list ex_net) /\
    map act (layers_list net') = map act (layers_list ex_net) /\
    units (output_layer net') = units (output_layer ex_net) /\
    act (output_layer net') = act (output_layer ex_net).
Proof.
  split; [exact ex_net_fresh_ok|]. split; [reflexivity|].
  exact (first_call_builds ex_sin nat ex_glorot ex_glorot_shape
           ex_net ex_input 0 2 2 ex_net_fresh_ok eq_refl).
Defined.

(** A call of the built network on two rows of width 2. *)
Lemma built_call_keeps_weights_witness :
  net_built 2 ex_net_built /\ shape ex_input = [2; 2] /\
  exists out,
    FeedForwardSubNet_call ex_sin ex_glorot ex_net_built ex_input 5
      = Ok (out, ex_net_built, 5) /\
    shape out = [2; units (output_layer ex_net_built)].
Proof.
  split; [exact ex_net_built_ok|]. split; [reflexivity|].
  exact (built_call_keeps_weights ex_sin nat ex_glorot
           ex_net_built ex_input 5 2 2 ex_net_built_ok eq_refl).
Defined.

(** A call of the built network on rows of width 3. *)
Lemma built_call_rejects_other_width_witness :
  net_built 2 ex_net_built /\ shape ex_input_3 = [2; 3] /\ 3 <> 2 /\
  FeedForwardSubNet_call ex_sin ex_glorot ex_net_built ex_input_3 5
    = Err ShapeError.
Proof.
  assert (H : 3 <> 2) by lia.
  split; [exact ex_net_built_ok|]. split; [reflexivity|]. split; [exact H|].
  exact (built_call_rejects_other_width ex_sin nat ex_glorot
           ex_net_built ex_input_3 5 2 2 3 ex_net_built_ok eq_refl H).
Defined.

(** The network of [layers = [2; 1]] with kernel [[1], [1]] and bias [0]:
    the sum of the two inputs. *)
Lemma no_hidden_layer_is_affine_witness :
  act ex_affine = act_none /\ shape ex_input = [2; 2] /\
  exists out,
    FeedForwardSubNet_call ex_sin ex_glorot (mkNet [] ex_affine) ex_input 0
      = Ok (out, mkNet [] ex_affine, 0) /\
    shape out = [2; units ex_affine] /\
    forall i j, i < 2 -> j < units ex_affine ->
      get out [i; j] =
      add (sumn 2 (fun c => mul (get ex_input [i; c])
                                (get (mkT [2; 1] [1; 1]%Z) [c; j])))
          (get (mkT [1] [0%Z]) [j]).
Proof.
  split; [reflexivity|]. split; [reflexivity|].
  exact (no_hidden_layer_is_affine ex_sin nat ex_glorot ex_affine ex_input 0
           2 2 (mkT [2; 1] [1; 1]%Z) (mkT [1] [0%Z])
           eq_refl eq_refl eq_refl eq_refl eq_refl).
Defined.

(** The first call of [ex_net] and a second call of the network it leaves. *)
Lemma second_call_repeats_first_witness :
  let out := mkT [2; 1] [-26; -60]%Z in
  FeedForwardSubNet_call ex_sin ex_glorot ex_net ex_input 0
    = Ok (out, ex_net_built, 2) /\
  forall s2,
    FeedForwardSubNet_call ex_sin ex_glorot ex_net_built ex_input s2
      = Ok (out, ex_net_built, s2).
Proof.
  intros out.
  assert (H : FeedForwardSubNet_call ex_sin ex_glorot ex_net ex_input 0
              = Ok (out, ex_net_built, 2)) by (vm_compute; reflexivity).
  split; [exact H|].
  exact (second_call_repeats_first ex_sin nat ex_glorot
           ex_net ex_net_built ex_input out 0 2 H).
Defined.

Lemma ex_paths_agree n :
  n <= N ex_self ->
  slice1 ex_t n = slice1 ex_t4 n /\ slice1 ex_W n = slice1 ex_W4 n.
Proof.
  intros Hn. cbn [N ex_self] in Hn.
  destruct n as [|[|[|n]]]; [| | |lia]; split; vm_compute; reflexivity.
Qed.

(** Paths with four time points and their first three. *)
Lemma loss_function_reads_first_points_witness :
  (forall n, n <= N ex_self ->
     slice1 ex_t n = slice1 ex_t4 n /\ slice1 ex_W n = slice1 ex_W4 n) /\
  loss_function (PB := ex_problem ex_self) ex_self ex_t ex_W (Xi ex_self) =
  loss_function (PB := ex_problem ex_self) ex_self ex_t4 ex_W4 (Xi ex_self).
Proof.
  split; [exact ex_paths_agree|].
  exact (loss_function_reads_first_points (PB := ex_problem ex_self)
           ex_self ex_t ex_W ex_t4 ex_W4 (Xi ex_self) ex_paths_agree).
Defined.

(** Two time points for an object configured with two steps. *)
Lemma short_paths_raise_index_error_witness :
  well_shaped (PB := ex_problem ex_self) ex_self /\
  shape ex_t_short = [M ex_self; 2; 1] /\
  shape ex_W_short = [M ex_self; 2; D ex_self] /\
  0 < 2 /\ 2 <= N ex_self /\
  loss_function (PB := ex_problem ex_self) ex_self ex_t_short ex_W_short
    (Xi ex_self) = Err IndexError.
Proof.
  assert (Hws : well_shaped (PB := ex_problem ex_self) ex_self)
    by (apply ex_well_shaped; simpl; lia).
  assert (H0 : 0 < 2) by lia.
  assert (H2 : 2 <= N ex_self) by (simpl; lia).
  split; [exact Hws|]. split; [reflexivity|]. split; [reflexivity|].
  split; [exact H0|]. split; [exact H2|].
  exact (short_paths_raise_index_error (PB := ex_problem ex_self)
           ex_self Hws ex_t_short ex_W_short (Xi ex_self) 2
           eq_refl eq_refl eq_refl H0 H2).
Defined.

(** A noise array with two dimensions for a state of one dimension. *)
Lemma noise_dimension_mismatch_raises_witness :
  well_shaped (PB := ex_problem ex_self) ex_self /\
  shape ex_W_wide = [M ex_self; N ex_self + 1; 2] /\
  2 <> D ex_self /\ 0 < N ex_self /\
  loss_function (PB := ex_problem ex_self) ex_self ex_t ex_W_wide
    (Xi ex_self) = Err ShapeError.
Proof.
  assert (Hws : well_shaped (PB := ex_problem ex_self) ex_self)
    by (apply ex_well_shaped; simpl; lia).
  assert (Hd : 2 <> D ex_self) by (simpl; lia).
  assert (HN : 0 < N ex_self) by (simpl; lia).
  split; [exact Hws|]. split; [reflexivity|]. split; [exact Hd|].
  split; [exact HN|].
  exact (noise_dimension_mismatch_raises (PB := ex_problem ex_self)
           ex_self Hws ex_t ex_W_wide (Xi ex_self) 2
           eq_refl eq_refl eq_refl Hd HN).
Defined.

(** An initial point with two rows. *)
Lemma initial_point_rows_raise_witness :
  well_shaped (PB := ex_problem ex_self) ex_self /\
  shape ex_t = [M ex_self; 3; 1] /\ shape ex_Xi_2 = [2; 1] /\ 2 <> 1 /\
  exists e,
    loss_function (PB := ex_problem ex_self) ex_self ex_t ex_W ex_Xi_2
      = Err e /\
    (e = ShapeError \/ e = IndexError).
Proof.
  assert (Hws : well_shaped (PB := ex_problem ex_self) ex_self)
    by (apply ex_well_shaped; simpl; lia).
  assert (Hr : 2 <> 1) by lia.
  split; [exact Hws|]. split; [reflexivity|]. split; [reflexivity|].
  split; [exact Hr|].
  exact (initial_point_rows_raise (PB := ex_problem ex_self)
           ex_self Hws ex_t ex_W ex_Xi_2 3 1 2 1 eq_refl eq_refl Hr).
Defined.

(** The outputs on the instance with two trajectories and two steps. *)
Lemma loss_function_outputs_witness :
  well_shaped (PB := ex_problem ex_self) ex_self /\
  g_on_tape (Problem := ex_problem ex_self) = true /\ 0 < N ex_self /\
  exists l X Y self',
    loss_function (PB := ex_problem ex_self) ex_self ex_t ex_W (Xi ex_self)
      = Ok (l, X, Y, scalar (get Y [0; 0; 0]), self') /\
    shape l = [] /\
    shape X = [M ex_self; N ex_self + 1; D ex_self] /\
    shape Y = [M ex_self; N ex_self + 1; 1] /\
    forall i j, i < M ex_self -> j < D ex_self ->
      get X [i; 0; j] = get (Xi ex_self) [0; j].
Proof.
  assert (Hws : well_shaped (PB := ex_problem ex_self) ex_self)
    by (apply ex_well_shaped; simpl; lia).
  assert (HN : 0 < N ex_self) by (simpl; lia).
  split; [exact Hws|]. split; [reflexivity|]. split; [exact HN|].
  exact (loss_function_outputs (PB := ex_problem ex_self) ex_self Hws
           ex_t ex_W (Xi ex_self) eq_refl eq_refl eq_refl eq_refl HN).
Defined.

(** Pass 0 of the instance with one dimension and two trajectories. *)
Lemma Y1_tilde_crosses_trajectories_witness :
  well_shaped (PB := ex_problem ex_self) ex_self /\
  0 < N ex_self /\ D ex_self = 1 /\ 2 <= M ex_self /\
  let st :=
    state_at (PB := ex_problem ex_self) ex_self ex_t ex_W (Xi ex_self) 0 in
  let st' :=
    state_at (PB := ex_problem ex_self) ex_self ex_t ex_W (Xi ex_self) 1 in
  exists fv sg,
    phi_tf (Problem := ex_problem ex_self) (t0 st) (X0 st) (Y0 st) (Z0 st)
      = Ok fv /\
    sigma_tf (Problem := ex_problem ex_self) (t0 st) (X0 st) (Y0 st) = Ok sg /\
    forall i, i < M ex_self ->
      get (Y1_tilde_at (PB := ex_problem ex_self) ex_self ex_t ex_W
             (Xi ex_self) 0) [i; 0] =
      add (add (get (Y0 st) [i; 0])
               (mul (get fv [i; 0])
                    (sub (get (t0 st') [i; 0]) (get (t0 st) [i; 0]))))
          (sumn (M ex_self)
             (fun k =>
                mul (get (Z0 st) [i; 0])
                    (sumn (D ex_self)
                       (fun l => mul (get sg [k; 0; l])
                                     (sub (get (W0 st') [k; l])
                                          (get (W0 st) [k; l])))))).
Proof.
  assert (Hws : well_shaped (PB := ex_problem ex_self) ex_self)
    by (apply ex_well_shaped; simpl; lia).
  assert (HN : 0 < N ex_self) by (simpl; lia).
  assert (HM : 2 <= M ex_self) by (simpl; lia).
  split; [exact Hws|]. split; [exact HN|]. split; [reflexivity|].
  split; [exact HM|].
  exact (Y1_tilde_crosses_trajectories (PB := ex_problem ex_self) ex_self Hws
           ex_t ex_W (Xi ex_self) eq_refl eq_refl eq_refl 0 HN eq_refl HM).
Defined.

(** Pass 0 of the instance with two dimensions. *)
Lemma Y1_tilde_per_trajectory_witness :
  well_shaped (PB := ex_problem ex_self_D2) ex_self_D2 /\
  0 < N ex_self_D2 /\ (D ex_self_D2 <> 1 \/ M ex_self_D2 = 1) /\
  let st := state_at (PB := ex_problem ex_self_D2) ex_self_D2 ex_t_D2 ex_W_D2
              (Xi ex_self_D2) 0 in
  let st' := state_at (PB := ex_problem ex_self_D2) ex_self_D2 ex_t_D2 ex_W_D2
               (Xi ex_self_D2) 1 in
  exists fv sg,
    phi_tf (Problem := ex_problem ex_self_D2) (t0 st) (X0 st) (Y0 st) (Z0 st)
      = Ok fv /\
    sigma_tf (Problem := ex_problem ex_self_D2) (t0 st) (X0 st) (Y0 st)
      = Ok sg /\
    forall i, i < M ex_self_D2 ->
      get (Y1_tilde_at (PB := ex_problem ex_self_D2) ex_self_D2 ex_t_D2
             ex_W_D2 (Xi ex_self_D2) 0) [i; 0] =
      Y1_tilde_spec (Y0 st) fv (t0 st) (t0 st') (Z0 st) sg (W0 st) (W0 st')
        (D ex_self_D2) i.
Proof.
  assert (Hws : well_shaped (PB := ex_problem ex_self_D2) ex_self_D2)
    by (apply ex_well_shaped; simpl; lia).
  assert (HN : 0 < N ex_self_D2) by (simpl; lia).
  assert (HD : D ex_self_D2 <> 1 \/ M ex_self_D2 = 1)
    by (left; simpl; lia).
  split; [exact Hws|]. split; [exact HN|]. split; [exact HD|].
  exact (Y1_tilde_per_trajectory (PB := ex_problem ex_self_D2) ex_self_D2 Hws
           ex_t_D2 ex_W_D2 eq_refl eq_refl (Xi ex_self_D2) eq_refl 0 HN HD).
Defined.

(** The instance uses the drift and the diffusion of the base class. *)
Lemma base_problem_state_follows_noise_witness :
  well_shaped (PB := ex_problem ex_self) ex_self /\
  g_on_tape (Problem := ex_problem ex_self) = true /\ 0 < N ex_self /\
  exists l X Y y self',
    loss_function (PB := ex_problem ex_self) ex_self ex_t ex_W (Xi ex_self)
      = Ok (l, X, Y, y, self') /\
    forall i j, i < M ex_self -> j < D ex_self ->
      get X [i; 0 + 1; j] =
      add (get X [i; 0; j])
          (sub (get ex_W [i; 0 + 1; j]) (get ex_W [i; 0; j])).
Proof.
  assert (Hws : well_shaped (PB := ex_problem ex_self) ex_self)
    by (apply ex_well_shaped; simpl; lia).
  assert (HN : 0 < N ex_self) by (simpl; lia).
  split; [exact Hws|]. split; [reflexivity|]. split; [exact HN|].
  exact (base_problem_state_follows_noise (PB := ex_problem ex_self)
           ex_self Hws ex_t ex_W (Xi ex_self) eq_refl eq_refl eq_refl eq_refl
           (fun _ _ _ _ => eq_refl) (fun _ _ _ => eq_refl)
           Z.add_0_l Z.add_0_r Z.mul_0_l Z.mul_1_l 0 HN).
Defined.

(** The increments of the paths simulated on the instance. *)
Lemma fetch_minibatch_increments_witness :
  0 < N ex_self /\
  let dt := div (T ex_self) (of_nat (N ex_self)) in
  let z := fst (random_normal [M ex_self; N ex_self; D ex_self] 0) in
  exists t W,
    fetch_minibatch ex_self 0 =
      Ok (t, W, snd (random_normal [M ex_self; N ex_self; D ex_self] 0)) /\
    forall i n, i < M ex_self -> n < N ex_self ->
      get t [i; n + 1; 0] = add (get t [i; n; 0]) dt /\
      forall j, j < D ex_self ->
        get W [i; n + 1; j] =
        add (get W [i; n; j]) (mul (np_sqrt dt) (get z [i; n; j])).
Proof.
  assert (HN : 0 < N ex_self) by (simpl; lia).
  split; [exact HN|].
  exact (fetch_minibatch_increments ex_self (fun _ _ => eq_refl) 0 HN).
Defined.

(** Eleven iterations on the instance. *)
Lemma train_keeps_configuration_witness :
  trainable (PB := ex_problem ex_self) (obj ex_world) /\
  exists w' new,
    train (PB := ex_problem ex_self) 11 1%Z ex_world = Ok w' /\
    stdout w' = stdout ex_world ++ new /\
    ticks w' = ticks ex_world + 1 + 2 * length new /\
    Forall (fun line => r_lr line = 1%Z) new /\
    M (obj w') = M (obj ex_world) /\ N (obj w') = N (obj ex_world) /\
    D (obj w') = D (obj ex_world) /\ T (obj w') = T (obj ex_world) /\
    Xi (obj w') = Xi (obj ex_world).
Proof.
  assert (Htr : trainable (PB := ex_problem ex_self) (obj ex_world))
    by (apply ex_trainable; simpl; (lia || reflexivity)).
  split; [exact Htr|].
  exact (train_keeps_configuration (PB := ex_problem ex_self)
           11 1%Z ex_world Htr).
Defined.

(** ** predict on data of the configured shapes *)

Section PredictMore.

Context {R : Type} {SR : Scalar R} {E : Engine R} {PB : Problem R}.

Local Abbreviation tensor := (tensor R).

(** On paths of the configured shapes, with at least one step and an initial
    point of shape [1 x D], [predict] succeeds: it returns a state
    trajectory of shape [(M, N+1, D)] that starts, on every trajectory, at the
    [float32] value of the initial point it was given (not at the one stored
    in the object), and a value trajectory of shape [(M, N+1, 1)]. *)
Theorem predict_outputs (Xi_star t_star W_star : tensor) (w : World) :
  well_shaped (obj w) ->
  shape t_star = [M (obj w); N (obj w) + 1; 1] ->
  shape W_star = [M (obj w); N (obj w) + 1; D (obj w)] ->
  shape Xi_star = [1; D (obj w)] -> wf Xi_star ->
  g_on_tape = true -> 0 < N (obj w) ->
  exists X_star Y_star w',
    predict Xi_star t_star W_star w = Ok (X_star, Y_star, w') /\
    shape X_star = [M (obj w); N (obj w) + 1; D (obj w)] /\
    shape Y_star = [M (obj w); N (obj w) + 1; 1] /\
    forall i j, i < M (obj w) -> j < D (obj w) ->
      get X_star [i; 0; j] = cast_float32 (get Xi_star [0; j]).
Proof.
  intros Hws Ht HW HXi Hwf Htape HN.
  pose proof (shape_convert_to_tensor t_star) as St.
  pose proof (shape_convert_to_tensor W_star) as SW.
  pose proof (shape_convert_to_tensor Xi_star) as SXi.
  rewrite Ht in St. rewrite HW in SW. rewrite HXi in SXi.
  destruct (loss_function_ok (obj w) Hws _ _ St SW _ SXi Htape HN)
    as (gX & DgX & l & X & Y & _ & _ & _ & _ & HL & _ & SX & SY & GX & _).
  eexists X, Y, _. unfold predict. cbn zeta. rewrite HL; cbn [bind].
  split; [reflexivity|]. split; [exact SX|]. split; [exact SY|].
  intros i j Hi Hj. rewrite (GX i 0 j Hi (Nat.le_0_l _) Hj).
  destruct (prelude_ok (obj w) Hws _ _ St SW _ SXi)
    as (st & Hst & _ & G0 & _).
  match goal with |- context [state_at ?o ?a ?b ?c 0] =>
    assert (Hr : run o a b c 0 = Ok st)
      by (unfold run; rewrite Hst; reflexivity);
    rewrite (state_at_run o a b c 0 st Hr)
  end.
  rewrite (G0 i j Hi Hj). unfold convert_to_tensor.
  apply get_tmap; [exact Hwf|]. rewrite HXi. range.
Qed.

End PredictMore.

(** [predict] on the instance. *)
Lemma predict_outputs_witness :
  well_shaped (PB := ex_problem ex_self) (obj ex_world) /\
  wf (Xi ex_self) /\
  g_on_tape (Problem := ex_problem ex_self) = true /\
  0 < N (obj ex_world) /\
  exists X_star Y_star w',
    predict (PB := ex_problem ex_self) (Xi ex_self) ex_t ex_W ex_world
      = Ok (X_star, Y_star, w') /\
    shape X_star =
      [M (obj ex_world); N (obj ex_world) + 1; D (obj ex_world)] /\
    shape Y_star = [M (obj ex_world); N (obj ex_world) + 1; 1] /\
    forall i j, i < M (obj ex_world) -> j < D (obj ex_world) ->
      get X_star [i; 0; j] = cast_float32 (get (Xi ex_self) [0; j]).
Proof.
  assert (Hws : well_shaped (PB := ex_problem ex_self) (obj ex_world))
    by (apply ex_well_shaped; simpl; lia).
  assert (Hwf : wf (Xi ex_self)) by reflexivity.
  assert (HN : 0 < N (obj ex_world)) by (simpl; lia).
  split; [exact Hws|]. split; [exact Hwf|]. split; [reflexivity|].
  split; [exact HN|].
  exact (predict_outputs (PB := ex_problem ex_self) (Xi ex_self) ex_t ex_W
           ex_world Hws eq_refl eq_refl eq_refl Hwf eq_refl HN).
Defined.

(** ** predict on the network of the code *)

(** With the network of the code every call settles: the first call creates
    the weights, later calls use them as they are. *)
Lemma net_engine_keeps (p : @FeedForwardSubNet Z * nat) :
  net_has_weights (fst p) -> keeps_variables (E := net_engine) p.
Proof.
  intros Hw c u p'. cbn [model_call net_engine]. unfold net_model_call.
  destruct (FeedForwardSubNet_call ex_sin ex_glorot (fst p) c (snd p))
    as [[[out net'] s']|] eqn:Hc; cbn [bind]; [|discriminate].
  intros H. injection H as _ <-.
  destruct (net_call_kept _ _ _ _ _ _ _ _ _ Hw Hc) as (-> & ->).
  destruct p; reflexivity.
Qed.

Lemma net_engine_settles (p : @FeedForwardSubNet Z * nat) :
  settles (E := net_engine) p.
Proof.
  intros c u p'. cbn [model_call net_engine]. unfold net_model_call.
  destruct (FeedForwardSubNet_call ex_sin ex_glorot (fst p) c (snd p))
    as [[[out net'] s']|] eqn:Hc; cbn [bind]; [|discriminate].
  intros H. injection H as <- <-. cbn [fst snd]. split.
  - rewrite (net_call_repeats _ _ _ _ _ _ _ _ _ Hc). reflexivity.
  - apply net_engine_keeps. cbn [fst].
    exact (net_call_has_weights _ _ _ _ _ _ _ _ _ Hc).
Qed.

(** C8 as stated fails: [predict] on a new object creates the weights of the
    network.  The network of [layers = [2; 3; 1]] goes in without weights and
    comes out with the weights its first call has drawn. *)
Lemma predict_creates_the_variables :
  net_fresh (fst (model (obj net_world))) /\
  exists X_star Y_star w',
    predict (E := net_engine) (PB := net_problem) (Xi net_self) ex_t ex_W
      net_world = Ok (X_star, Y_star, w') /\
    net_built 2 (fst (model (obj w'))) /\
    model (obj w') <> model (obj net_world) /\
    w' <> net_world.
Proof.
  split; [exact ex_net_fresh_ok|].
  eexists _, _, net_world_built.
  split; [vm_compute; reflexivity|]. split; [exact ex_net_built_ok|].
  split; intros H; discriminate H.
Qed.

(** [predict] twice on the new object: the second call returns the
    trajectories of the first and leaves the world as the first has left
    it. *)
Lemma predict_twice_witness :
  let X := mkT [2; 3; 1] [0; 1; 1; 0; 2; 3]%Z in
  let Y := mkT [2; 3; 1] [0; -34; -42; 0; -60; -94]%Z in
  settles (E := net_engine) (model (obj net_world)) /\
  predict (E := net_engine) (PB := net_problem) (Xi net_self) ex_t ex_W
    net_world = Ok (X, Y, net_world_built) /\
  predict (E := net_engine) (PB := net_problem) (Xi net_self) ex_t ex_W
    net_world_built = Ok (X, Y, net_world_built) /\
  keeps_variables (E := net_engine) (model (obj net_world_built)) /\
  (keeps_variables (E := net_engine) (model (obj net_world)) ->
   net_world_built = net_world).
Proof.
  intros X Y.
  assert (Hs : settles (E := net_engine) (model (obj net_world)))
    by apply net_engine_settles.
  assert (H : predict (E := net_engine) (PB := net_problem) (Xi net_self)
                ex_t ex_W net_world = Ok (X, Y, net_world_built))
    by (vm_compute; reflexivity).
  split; [exact Hs|]. split; [exact H|].
  exact (predict_twice (E := net_engine) (PB := net_problem) (Xi net_self)
           ex_t ex_W X Y net_world net_world_built Hs H).
Defined.
